(** * A command-line HTTP client (main.go): shallow embedding and properties

    The program is one Go file: [parseFlags] interprets the command line,
    [main] builds one request, resolves the output destination and copies
    the response body in 1024-byte chunks; [guessDataType] and [parseSize]
    are its two helpers.  Each Go function is embedded below under its own
    name; library calls ([strconv.ParseInt], [path.Base], the [regexp]
    matcher, the [encoding/json] scanner, [os.OpenFile] and [Write]) are
    embedded from the behaviour of the Go standard library.

    Conventions:
    - a Go [string] is a byte string, here a [string] of 8-bit [ascii];
    - [int64] (and [int], taken as 64-bit) is a [Z] kept in range with
      [wrap64];
    - a Go function returning [(T, error)] returns [T * option error];
    - a run-time panic or [os.Exit] is an [outcome] other than [Done]. *)

From Stdlib Require Import ZArith Lia Bool Ascii String List.
From stdpp Require Import base option list gmap strings pretty.
Import ListNotations.

Local Open Scope string_scope.
Local Open Scope Z_scope.

Abbreviation byte := Byte.byte.
Abbreviation x00 := Byte.x00.

(** ** Go runtime: machine integers, errors and panics *)

Module Go.

Definition min_int64 : Z := - 2 ^ 63.
Definition max_int64 : Z := 2 ^ 63 - 1.
Definition max_uint64 : Z := 2 ^ 64 - 1.

(** Two's-complement reduction of an integer to [int64]. *)
Definition wrap64 (z : Z) : Z := (z + 2 ^ 63) mod 2 ^ 64 - 2 ^ 63.

Definition in_int64 (z : Z) : Prop := min_int64 <= z <= max_int64.

(** The [error] values the program can meet. *)
Inductive error : Type :=
| ErrSyntax                     (* strconv.ErrSyntax *)
| ErrRange                      (* strconv.ErrRange *)
| ErrNoURL                      (* errors.New("no URL specified") *)
| ErrFlags                      (* an error of flags.Parse *)
| ErrHelp                       (* flags.ErrHelp: help was written *)
| ErrNotExist (name : string)   (* ioutil.ReadFile on a missing file *)
| ErrInvalid                    (* os.ErrInvalid: method of a nil *os.File *)
| ErrPermission (name : string) (* os.OpenFile on a path that cannot be opened *)
| EOF                           (* io.EOF *)
| ErrRead.                      (* a read error other than io.EOF *)

Definition is_EOF (e : option error) : bool :=
  match e with Some EOF => true | _ => false end.

(** Why a run stopped by a panic. *)
Inductive panic : Type :=
| PanicErr (e : error)          (* panic(err) *)
| PanicIndex                    (* index out of range *)
| PanicSlice                    (* slice bounds out of range *)
| PanicNilMap.                  (* assignment to entry in nil map *)

Inductive outcome (A : Type) : Type :=
| Done (a : A)
| Panicked (p : panic)
| Exited (code : Z).

Arguments Done {A} a.
Arguments Panicked {A} p.
Arguments Exited {A} code.

Definition bind {A B} (m : outcome A) (k : A -> outcome B) : outcome B :=
  match m with
  | Done a => k a
  | Panicked p => Panicked p
  | Exited c => Exited c
  end.

(** [if err != nil { panic(err) }] *)
Definition must {A} (r : A * option error) : outcome A :=
  match r with
  | (a, None) => Done a
  | (_, Some e) => Panicked (PanicErr e)
  end.

End Go.

Import Go.

(** Sequencing of Go statements, in stdpp's monad notation
    [x ← m; k]: a panic or an exit skips the rest. *)
#[global] Instance outcome_bind : MBind outcome :=
  fun A B k m => Go.bind m k.
#[global] Instance outcome_ret : MRet outcome := @Go.Done.

(** ** Byte strings *)

Module Bytes.

Definition code (c : ascii) : Z := Z.of_N (N_of_ascii c).

(** The double quote, byte 34. *)
Definition dquote : ascii := "034".

(** [lo <= c && c <= hi] on bytes. *)
Definition between (lo hi c : ascii) : bool :=
  (code lo <=? code c) && (code c <=? code hi).

Definition is_digit (c : ascii) : bool := between "0" "9" c.

(** [s[len(s)-1]], when [s] is not empty. *)
Fixpoint last (s : string) : option ascii :=
  match s with
  | EmptyString => None
  | String c EmptyString => Some c
  | String _ r => last r
  end.

(** [s[:len(s)-1]] (the empty string has no such slice). *)
Fixpoint init (s : string) : string :=
  match s with
  | EmptyString => EmptyString
  | String _ EmptyString => EmptyString
  | String c r => String c (init r)
  end.

(** [strings.ContainsRune(set, rune(b))] for a byte [b] and an ASCII [set]. *)
Fixpoint contains_byte (set : string) (b : ascii) : bool :=
  match set with
  | EmptyString => false
  | String c r => Ascii.eqb c b || contains_byte r b
  end.

(** [strings.HasPrefix(s, p)]. *)
Fixpoint has_prefix (p s : string) : bool :=
  match p, s with
  | EmptyString, _ => true
  | String a p', String b s' => Ascii.eqb a b && has_prefix p' s'
  | String _ _, EmptyString => false
  end.

(** [strings.Index(s, sub) >= 0]. *)
Fixpoint contains (sub s : string) : bool :=
  has_prefix sub s ||
  match s with
  | EmptyString => false
  | String _ r => contains sub r
  end.

End Bytes.

(** ** strconv.ParseUint and strconv.ParseInt, base 10, 64 bits *)

Module Strconv.

(** Cutoff is the smallest number such that [cutoff * 10 > maxUint64]. *)
Definition cutoff10 : Z := max_uint64 / 10 + 1.

(** The digit loop of [ParseUint]: [n] is the value so far.  A byte that
    is not a decimal digit ends the loop with a syntax error, an overflow
    with a range error and the value [maxUint64]; whichever comes first
    in the string wins. *)
Fixpoint parse_digits (n : Z) (s : string) : Z * option error :=
  match s with
  | EmptyString => (n, None)
  | String c r =>
      if Bytes.is_digit c then
        let d := Bytes.code c - Bytes.code "0" in
        if cutoff10 <=? n then (max_uint64, Some ErrRange)
        else
          let n1 := n * 10 + d in
          if max_uint64 <? n1 then (max_uint64, Some ErrRange)
          else parse_digits n1 r
      else (0, Some ErrSyntax)
  end.

Definition ParseUint (s : string) : Z * option error :=
  match s with
  | EmptyString => (0, Some ErrSyntax)
  | _ => parse_digits 0 s
  end.

Definition ParseInt (s : string) : Z * option error :=
  match s with
  | EmptyString => (0, Some ErrSyntax)
  | String c r =>
      (* pick off leading sign *)
      let '(neg, s1) :=
        if Ascii.eqb c "+" then (false, r)
        else if Ascii.eqb c "-" then (true, r)
        else (false, s) in
      match ParseUint s1 with
      | (_, Some ErrSyntax) => (0, Some ErrSyntax)
      | (un, _) =>
          let cutoff := 2 ^ 63 in
          if negb neg && (cutoff <=? un) then (cutoff - 1, Some ErrRange)
          else if neg && (cutoff <? un) then (- cutoff, Some ErrRange)
          else (if neg then wrap64 (- wrap64 un) else wrap64 un, None)
      end
  end.

End Strconv.

(** ** parseSize *)

(** [parseSize] checks for human readable sizes and converts to byte count.
    The trailing-byte test indexes [value[len(value)-1]] with no length
    check.  In the [switch], Go cases do not fall through: a case with an
    empty body does nothing. *)
Definition parseSize (value : string) : outcome (Z * option error) :=
  match Bytes.last value with
  | None => Panicked PanicIndex
  | Some multiplier =>
      if Bytes.contains_byte "kKmMgG" multiplier then
        match Strconv.ParseInt (Bytes.init value) with
        | (_, Some err) => Done (-1, Some err)
        | (number, None) =>
            let number :=
              if Ascii.eqb multiplier "k" then number
              else if Ascii.eqb multiplier "K" then wrap64 (number * 1024)
              else if Ascii.eqb multiplier "m" then number
              else if Ascii.eqb multiplier "M" then wrap64 (number * (1024 * 1024))
              else if Ascii.eqb multiplier "g" then number
              else if Ascii.eqb multiplier "G"
                   then wrap64 (number * (1024 * 1024 * 1024))
              else number in
            Done (number, None)
        end
      else
        (* no multiplier character, assume raw byte count *)
        Done (Strconv.ParseInt value)
  end.

(** ** encoding/json: the scanner and Decoder.Decode into a RawMessage *)

Module Json.

Import Bytes.

(** The scanner's step functions ([scanner.step] holds one of them). *)
Inductive state : Type :=
| stateBeginValueOrEmpty | stateBeginValue
| stateBeginStringOrEmpty | stateBeginString
| stateEndValue | stateEndTop
| stateInString | stateInStringEsc | stateInStringEscU
| stateInStringEscU1 | stateInStringEscU12 | stateInStringEscU123
| stateNeg | state1 | state0 | stateDot | stateDot0
| stateE | stateESign | stateE0
| stateT | stateTr | stateTru
| stateF | stateFa | stateFal | stateFals
| stateN | stateNu | stateNul
| stateError.

(** What a step function returns. *)
Inductive scan_code : Type :=
| scanContinue | scanBeginLiteral | scanBeginObject | scanObjectKey
| scanObjectValue | scanEndObject | scanBeginArray | scanArrayValue
| scanEndArray | scanSkipSpace
| scanEnd | scanError.

Inductive parse_state : Type :=
| parseObjectKey | parseObjectValue | parseArrayValue.

(** [parseState] is a stack whose top is the head of the list. *)
Record scanner : Type := mkScanner {
  step : state;
  endTop : bool;
  parseState : list parse_state;
  err : bool                     (* [s.err != nil] *)
}.

Definition maxNestingDepth : Z := 10000.

(** [scanner.reset] *)
Definition reset : scanner :=
  {| step := stateBeginValue; endTop := false; parseState := []; err := false |}.

Definition set_step (s : scanner) (st : state) : scanner :=
  {| step := st; endTop := endTop s; parseState := parseState s; err := err s |}.

(** [s.error(c, context)] *)
Definition error (s : scanner) : scanner * scan_code :=
  ({| step := stateError; endTop := endTop s;
      parseState := parseState s; err := true |}, scanError).

Definition pushParseState (s : scanner) (newParseState : parse_state)
    (successState : scan_code) : scanner * scan_code :=
  let s' := {| step := step s; endTop := endTop s;
               parseState := newParseState :: parseState s; err := err s |} in
  if Z.of_nat (length (parseState s')) <=? maxNestingDepth
  then (s', successState) else error s'.

Definition popParseState (s : scanner) : scanner :=
  match tail (parseState s) with
  | [] => {| step := stateEndTop; endTop := true; parseState := []; err := err s |}
  | ps => {| step := stateEndValue; endTop := endTop s; parseState := ps; err := err s |}
  end.

(** [s.parseState[n-1] = ps] *)
Definition set_top (s : scanner) (ps : parse_state) : scanner :=
  {| step := step s; endTop := endTop s;
     parseState := ps :: tail (parseState s); err := err s |}.

Definition isSpace (c : ascii) : bool :=
  Ascii.eqb c " " || Ascii.eqb c "009" || Ascii.eqb c "013" || Ascii.eqb c "010".

Definition isHex (c : ascii) : bool :=
  Bytes.between "0" "9" c || Bytes.between "a" "f" c || Bytes.between "A" "F" c.

Definition do_stateEndTop (s : scanner) (c : ascii) : scanner * scan_code :=
  if negb (isSpace c)
  then (fst (error s), scanEnd)   (* complain about non-space byte on next call *)
  else (s, scanEnd).

Definition do_stateEndValue (s : scanner) (c : ascii) : scanner * scan_code :=
  match parseState s with
  | [] =>
      (* completed top-level before the current byte *)
      do_stateEndTop {| step := stateEndTop; endTop := true;
                        parseState := []; err := err s |} c
  | ps :: _ =>
      if isSpace c then (set_step s stateEndValue, scanSkipSpace)
      else match ps with
      | parseObjectKey =>
          if Ascii.eqb c ":"
          then (set_step (set_top s parseObjectValue) stateBeginValue, scanObjectKey)
          else error s
      | parseObjectValue =>
          if Ascii.eqb c ","
          then (set_step (set_top s parseObjectKey) stateBeginString, scanObjectValue)
          else if Ascii.eqb c "}" then (popParseState s, scanEndObject)
          else error s
      | parseArrayValue =>
          if Ascii.eqb c "," then (set_step s stateBeginValue, scanArrayValue)
          else if Ascii.eqb c "]" then (popParseState s, scanEndArray)
          else error s
      end
  end.

Definition do_stateBeginValue (s : scanner) (c : ascii) : scanner * scan_code :=
  if isSpace c then (s, scanSkipSpace)
  else if Ascii.eqb c "{"
    then pushParseState (set_step s stateBeginStringOrEmpty) parseObjectKey scanBeginObject
  else if Ascii.eqb c "["
    then pushParseState (set_step s stateBeginValueOrEmpty) parseArrayValue scanBeginArray
  else if Ascii.eqb c dquote then (set_step s stateInString, scanBeginLiteral)
  else if Ascii.eqb c "-" then (set_step s stateNeg, scanBeginLiteral)
  else if Ascii.eqb c "0" then (set_step s state0, scanBeginLiteral)
  else if Ascii.eqb c "t" then (set_step s stateT, scanBeginLiteral)
  else if Ascii.eqb c "f" then (set_step s stateF, scanBeginLiteral)
  else if Ascii.eqb c "n" then (set_step s stateN, scanBeginLiteral)
  else if Bytes.between "1" "9" c then (set_step s state1, scanBeginLiteral)
  else error s.

Definition do_stateBeginValueOrEmpty (s : scanner) (c : ascii) : scanner * scan_code :=
  if isSpace c then (s, scanSkipSpace)
  else if Ascii.eqb c "]" then do_stateEndValue s c
  else do_stateBeginValue s c.

Definition do_stateBeginString (s : scanner) (c : ascii) : scanner * scan_code :=
  if isSpace c then (s, scanSkipSpace)
  else if Ascii.eqb c dquote then (set_step s stateInString, scanBeginLiteral)
  else error s.

Definition do_stateBeginStringOrEmpty (s : scanner) (c : ascii) : scanner * scan_code :=
  if isSpace c then (s, scanSkipSpace)
  else if Ascii.eqb c "}" then do_stateEndValue (set_top s parseObjectValue) c
  else do_stateBeginString s c.

Definition do_stateInString (s : scanner) (c : ascii) : scanner * scan_code :=
  if Ascii.eqb c dquote then (set_step s stateEndValue, scanContinue)
  else if Ascii.eqb c "\" then (set_step s stateInStringEsc, scanContinue)
  else if Bytes.code c <? 32 then error s
  else (s, scanContinue).

Definition do_stateInStringEsc (s : scanner) (c : ascii) : scanner * scan_code :=
  if Bytes.contains_byte "bfnrt\/" c || Ascii.eqb c dquote then (set_step s stateInString, scanContinue)
  else if Ascii.eqb c "u" then (set_step s stateInStringEscU, scanContinue)
  else error s.

(** One hexadecimal digit of a [\u] escape, then on to [next]. *)
Definition do_hex (next : state) (s : scanner) (c : ascii) : scanner * scan_code :=
  if isHex c then (set_step s next, scanContinue) else error s.

Definition do_state0 (s : scanner) (c : ascii) : scanner * scan_code :=
  if Ascii.eqb c "." then (set_step s stateDot, scanContinue)
  else if Ascii.eqb c "e" || Ascii.eqb c "E" then (set_step s stateE, scanContinue)
  else do_stateEndValue s c.

Definition do_stateNeg (s : scanner) (c : ascii) : scanner * scan_code :=
  if Ascii.eqb c "0" then (set_step s state0, scanContinue)
  else if Bytes.between "1" "9" c then (set_step s state1, scanContinue)
  else error s.

Definition do_state1 (s : scanner) (c : ascii) : scanner * scan_code :=
  if Bytes.is_digit c then (set_step s state1, scanContinue)
  else do_state0 s c.

Definition do_stateDot (s : scanner) (c : ascii) : scanner * scan_code :=
  if Bytes.is_digit c then (set_step s stateDot0, scanContinue) else error s.

Definition do_stateDot0 (s : scanner) (c : ascii) : scanner * scan_code :=
  if Bytes.is_digit c then (s, scanContinue)
  else if Ascii.eqb c "e" || Ascii.eqb c "E" then (set_step s stateE, scanContinue)
  else do_stateEndValue s c.

Definition do_stateESign (s : scanner) (c : ascii) : scanner * scan_code :=
  if Bytes.is_digit c then (set_step s stateE0, scanContinue) else error s.

Definition do_stateE (s : scanner) (c : ascii) : scanner * scan_code :=
  if Ascii.eqb c "+" || Ascii.eqb c "-" then (set_step s stateESign, scanContinue)
  else do_stateESign s c.

Definition do_stateE0 (s : scanner) (c : ascii) : scanner * scan_code :=
  if Bytes.is_digit c then (s, scanContinue) else do_stateEndValue s c.

(** One letter of [true], [false] or [null], then on to [next]. *)
Definition do_letter (l : ascii) (next : state) (s : scanner) (c : ascii)
    : scanner * scan_code :=
  if Ascii.eqb c l then (set_step s next, scanContinue) else error s.

(** [s.step(s, c)] *)
Definition do_step (s : scanner) (c : ascii) : scanner * scan_code :=
  match step s with
  | stateBeginValueOrEmpty => do_stateBeginValueOrEmpty s c
  | stateBeginValue => do_stateBeginValue s c
  | stateBeginStringOrEmpty => do_stateBeginStringOrEmpty s c
  | stateBeginString => do_stateBeginString s c
  | stateEndValue => do_stateEndValue s c
  | stateEndTop => do_stateEndTop s c
  | stateInString => do_stateInString s c
  | stateInStringEsc => do_stateInStringEsc s c
  | stateInStringEscU => do_hex stateInStringEscU1 s c
  | stateInStringEscU1 => do_hex stateInStringEscU12 s c
  | stateInStringEscU12 => do_hex stateInStringEscU123 s c
  | stateInStringEscU123 => do_hex stateInString s c
  | stateNeg => do_stateNeg s c
  | state1 => do_state1 s c
  | state0 => do_state0 s c
  | stateDot => do_stateDot s c
  | stateDot0 => do_stateDot0 s c
  | stateE => do_stateE s c
  | stateESign => do_stateESign s c
  | stateE0 => do_stateE0 s c
  | stateT => do_letter "r" stateTr s c
  | stateTr => do_letter "u" stateTru s c
  | stateTru => do_letter "e" stateEndValue s c
  | stateF => do_letter "a" stateFa s c
  | stateFa => do_letter "l" stateFal s c
  | stateFal => do_letter "s" stateFals s c
  | stateFals => do_letter "e" stateEndValue s c
  | stateN => do_letter "u" stateNu s c
  | stateNu => do_letter "l" stateNul s c
  | stateNul => do_letter "l" stateEndValue s c
  | stateError => (s, scanError)
  end.

Definition is_scanEnd (r : scanner * scan_code) : bool :=
  match snd r with scanEnd => true | _ => false end.

(** [Decoder.readValue] on input that the reader delivers whole: the
    scan stops at the first byte after which the top-level value is known
    to be complete and does not look at what follows.  [Some n] is
    [(n, nil)], the length of the value read; [None] is an error. *)
Fixpoint readValue (s : scanner) (n : nat) (data : string) : option nat :=
  match data with
  | EmptyString =>
      (* io.EOF: the value may end here *)
      if is_scanEnd (do_step s " ") then Some n else None
  | String c r =>
      let '(s', code) := do_step s c in
      match code with
      | scanEnd => Some n
      | scanEndObject | scanEndArray =>
          (* scanEnd is delayed one byte: invent a space byte *)
          if is_scanEnd (do_stateEndValue s' " ") then Some (S n)
          else readValue (fst (do_stateEndValue s' " ")) (S n) r
      | scanError => None
      | _ => readValue s' (S n) r
      end
  end.

(** [json.NewDecoder(bytes.NewBufferString(data)).Decode(&temp) == nil]
    for [temp] a [json.RawMessage], which stores the bytes of any
    value the scanner accepted. *)
Definition decode_ok (data : string) : bool :=
  match readValue reset 0 data with Some _ => true | None => false end.

(** [scanner.eof] *)
Definition eof (s : scanner) : scan_code :=
  if err s then scanError
  else if endTop s then scanEnd
  else if endTop (fst (do_step s " ")) then scanEnd
  else scanError.

(** The scan of [checkValid] over the bytes of [data]. *)
Fixpoint scan_all (s : scanner) (data : string) : option scanner :=
  match data with
  | EmptyString => Some s
  | String c r =>
      let '(s', code) := do_step s c in
      match code with
      | scanError => None
      | _ => scan_all s' r
      end
  end.

(** [json.Valid(data)]: the whole of [data] is one JSON value, with
    white space around it at most. *)
Definition Valid (data : string) : bool :=
  match scan_all reset data with
  | Some s => match eof s with scanError => false | _ => true end
  | None => false
  end.

(** What a step keeps, in a scanner with no error that has not seen the
    end of the top-level value: unless the step reports that end or an
    error, the scanner is still so; a closing bracket either ends the
    top-level value or leaves the scanner after a value inside one. *)
Definition kept (r : scanner * scan_code) : Prop :=
  match snd r with
  | scanEnd | scanError => True
  | scanEndObject | scanEndArray =>
      err (fst r) = false /\
      ((endTop (fst r) = true /\ parseState (fst r) = []) \/
       (endTop (fst r) = false /\ step (fst r) = stateEndValue /\
        parseState (fst r) <> []))
  | _ => err (fst r) = false /\ endTop (fst r) = false
  end.

End Json.

(** ** regexp: the two patterns of the program

    Go's [regexp] returns the leftmost match and, among the matches that
    start there, the one a backtracking matcher finds first.  The matcher
    below is that backtracking search for the operators the two patterns
    use.  It works on bytes; on the two patterns this agrees with Go's
    matching on runes, since every byte they name is ASCII, [.] excludes
    only the newline byte and no byte of a multi-byte rune is a word
    character. *)

Module Regexp.

Import Bytes.

Inductive atom : Type :=
| Lit (c : ascii)              (* a literal byte *)
| AnyNotNL.                    (* [.] *)

Inductive node : Type :=
| One (a : atom)               (* a *)
| Quest (a : atom)             (* a?   prefer one *)
| Plus (a : atom)              (* a+   prefer more *)
| StarLazy (a : atom)          (* a*?  prefer fewer *)
| PlusLazy (a : atom)          (* a+?  prefer fewer *)
| WordBoundary                 (* \b *)
| CapOpen                      (* the opening bracket of group 1 *)
| CapClose.                    (* the closing bracket of group 1 *)

Definition regex : Type := list node.

Definition matches (a : atom) (c : ascii) : bool :=
  match a with
  | Lit l => Ascii.eqb l c
  | AnyNotNL => negb (Ascii.eqb c "010")
  end.

(** [\w], ASCII only. *)
Definition is_word (c : ascii) : bool :=
  between "0" "9" c || between "A" "Z" c || between "a" "z" c || Ascii.eqb c "_".

Definition is_word_opt (c : option ascii) : bool :=
  match c with Some c => is_word c | None => false end.

Definition head (s : string) : option ascii :=
  match s with String c _ => Some c | EmptyString => None end.

(** Where the matcher stands: the byte before the position, the text from
    the position on, and the position. *)
Record cursor : Type := mkCursor {
  prev : option ascii;
  rest : string;
  pos : nat
}.

(** A match: where it ends, and where group 1 starts and ends. *)
Record found : Type := mkFound {
  m_end : nat;
  cap_start : nat;
  cap_end : nat
}.

Definition cont : Type := cursor -> nat -> nat -> option found.

(** Take one byte matching [a], then continue with [k]. *)
Definition eat (a : atom) (k : cont) : cont :=
  fun cu cs ce =>
    match rest cu with
    | String c r =>
        if matches a c then k (mkCursor (Some c) r (S (pos cu))) cs ce else None
    | EmptyString => None
    end.

Definition orelse (x y : option found) : option found :=
  match x with Some m => Some m | None => y end.

(** [a*] preferring more: first try to take another byte. *)
Fixpoint star_greedy (a : atom) (k : cont) (p : option ascii) (s : string)
    (i cs ce : nat) : option found :=
  match s with
  | String c r =>
      if matches a c
      then orelse (star_greedy a k (Some c) r (S i) cs ce) (k (mkCursor p s i) cs ce)
      else k (mkCursor p s i) cs ce
  | EmptyString => k (mkCursor p s i) cs ce
  end.

(** [a*?] preferring fewer: first try to go on. *)
Fixpoint star_lazy (a : atom) (k : cont) (p : option ascii) (s : string)
    (i cs ce : nat) : option found :=
  orelse (k (mkCursor p s i) cs ce)
    match s with
    | String c r =>
        if matches a c then star_lazy a k (Some c) r (S i) cs ce else None
    | EmptyString => None
    end.

Definition star (greedy : bool) (a : atom) (k : cont) : cont :=
  fun cu cs ce =>
    (if greedy then star_greedy else star_lazy) a k (prev cu) (rest cu) (pos cu) cs ce.

(** The match of [re] anchored at the cursor that backtracking finds
    first. *)
Fixpoint run (re : regex) : cont :=
  match re with
  | [] => fun cu cs ce => Some (mkFound (pos cu) cs ce)
  | One a :: re' => eat a (run re')
  | Quest a :: re' => fun cu cs ce => orelse (eat a (run re') cu cs ce) (run re' cu cs ce)
  | Plus a :: re' => eat a (star true a (run re'))
  | StarLazy a :: re' => star false a (run re')
  | PlusLazy a :: re' => eat a (star false a (run re'))
  | WordBoundary :: re' =>
      fun cu cs ce =>
        if xorb (is_word_opt (prev cu)) (is_word_opt (head (rest cu)))
        then run re' cu cs ce else None
  | CapOpen :: re' => fun cu _ ce => run re' cu (pos cu) ce
  | CapClose :: re' => fun cu cs _ => run re' cu cs (pos cu)
  end.

(** The leftmost match: try each start position in turn. *)
Fixpoint search (re : regex) (p : option ascii) (s : string) (i : nat)
    : option found :=
  orelse (run re (mkCursor p s i) 0%nat 0%nat)
    match s with
    | String c r => search re (Some c) r (S i)
    | EmptyString => None
    end.

(** [regexp.Match] / [MatchString] *)
Definition Match (re : regex) (s : string) : bool :=
  match search re None s 0 with Some _ => true | None => false end.

(** [FindStringSubmatch(s)[1]] for a pattern with one group, when there
    is a match ([FindStringSubmatch] returns [nil] otherwise). *)
Definition FindStringSubmatch1 (re : regex) (s : string) : option string :=
  match search re None s 0 with
  | Some m => Some (substring (cap_start m) (cap_end m - cap_start m) s)
  | None => None
  end.

Fixpoint literal (s : string) : regex :=
  match s with
  | EmptyString => []
  | String c r => One (Lit c) :: literal r
  end.

(** The pattern of [guessDataType]: [.*?=.+?&?\b] *)
Definition form_pattern : regex :=
  [StarLazy AnyNotNL; One (Lit "="); PlusLazy AnyNotNL; Quest (Lit "&"); WordBoundary].

(** The pattern of [main]: [filename="?(.+)"?] *)
Definition filename_pattern : regex :=
  (literal "filename=" ++
   [Quest (Lit dquote); CapOpen; Plus AnyNotNL; CapClose; Quest (Lit dquote)])%list.

End Regexp.

(** ** guessDataType *)

(** [guessDataType] checks for json or form data. *)
Definition guessDataType (data : string) : string * bool :=
  if Json.decode_ok data then ("application/json", true)
  else if Regexp.Match Regexp.form_pattern data
       then ("application/x-www-form-urlencoded", true)
  else (EmptyString, false).

(** ** path.Base *)

Module Path.

(** Strip trailing slashes. *)
Fixpoint strip_slashes (s : string) : string :=
  match s with
  | EmptyString => EmptyString
  | String c r =>
      match strip_slashes r with
      | EmptyString => if Ascii.eqb c "/" then EmptyString else String c EmptyString
      | r' => String c r'
      end
  end.

(** [path[strings.LastIndex(path, "/")+1:]], or [path] without slash. *)
Fixpoint last_element (s : string) : string :=
  match s with
  | EmptyString => EmptyString
  | String c r =>
      if Bytes.contains_byte r "/" then last_element r
      else if Ascii.eqb c "/" then r else s
  end.

Definition Base (path : string) : string :=
  match path with
  | EmptyString => "."
  | _ =>
      match last_element (strip_slashes path) with
      | EmptyString => "/"   (* it had only slashes *)
      | p => p
      end
  end.

End Path.

(** ** Files and streams *)

Module OS.

(** The part of the world the program touches: file contents by name, the
    names that cannot be opened for writing, what standard output has
    received, and the arguments of the calls to [Write] so far. *)
Record World : Type := mkWorld {
  files : gmap string (list byte);
  denied : gset string;
  stdout : list byte;
  writes : list (list byte)
}.

(** What an [*os.File] refers to: standard output, or an open file with
    its current offset. *)
Inductive File : Type :=
| Stdout
| Opened (name : string) (offset : nat).

(** [ioutil.ReadFile] *)
Definition ReadFile (name : string) (w : World) : list byte * option error :=
  match files w !! name with
  | Some raw => (raw, None)
  | None => ([], Some (ErrNotExist name))
  end.

(** [os.OpenFile(name, os.O_CREATE|os.O_WRONLY, 0666)]: the file is
    created empty when it does not exist and is left as it is when it
    does (there is no [O_TRUNC] and no [O_APPEND]); the offset is 0. *)
Definition OpenFile (name : string) (w : World) : option File * World * option error :=
  if decide (name ∈ denied w) then (None, w, Some (ErrPermission name))
  else
    (Some (Opened name 0),
     mkWorld (<[name := default [] (files w !! name)]> (files w))
             (denied w) (stdout w) (writes w),
     None).

(** Writing [data] at offset [off] over the contents [old]: bytes before
    the offset stay (a gap reads as zeros), then the data, then whatever
    [old] had beyond. *)
Definition write_at (off : nat) (data old : list byte) : list byte :=
  resize off x00 old ++ data ++ drop (off + length data) old.

(** Writing [data] to an open stream: standard output gets it appended, a
    file gets it at the current offset, which moves on. *)
Definition write_to (f : File) (data : list byte) (w : World) : File * World :=
  match f with
  | Stdout =>
      (Stdout, mkWorld (files w) (denied w) (stdout w ++ data) (writes w ++ [data]))
  | Opened name off =>
      (Opened name (off + length data),
       mkWorld (<[name := write_at off data (default [] (files w !! name))]> (files w))
               (denied w) (stdout w) (writes w ++ [data]))
  end.

(** [f.Write(data)].  A nil [*os.File] gives [os.ErrInvalid]; writes to
    standard output and to an open file are taken to succeed. *)
Definition Write (f : option File) (data : list byte) (w : World)
    : option File * World * option error :=
  match f with
  | None => (None, w, Some ErrInvalid)
  | Some f => let '(f', w') := write_to f data w in (Some f', w', None)
  end.

End OS.

Import OS.

(** ** Arguments *)

(** Command line arguments.  A Go pointer field is an [option], the map
    field may be nil. *)
Record Arguments : Type := mkArguments {
  Data : option string;
  PostWithGet : bool;
  OutputFile : option string;
  UseRemoteName : bool;
  OutputStream : option File;
  HTTPMethod : string;
  Headers : option (gmap string string);
  Information : bool;
  LimitRate : option string;
  LimitRateBytes : Z;
  URL : string;
  MaxDownload : option string;
  MaxDownloadBytes : Z;
  Verbose : list bool
}.

Definition set_Data (v : option string) (a : Arguments) : Arguments :=
  mkArguments v (PostWithGet a) (OutputFile a) (UseRemoteName a) (OutputStream a)
    (HTTPMethod a) (Headers a) (Information a) (LimitRate a) (LimitRateBytes a)
    (URL a) (MaxDownload a) (MaxDownloadBytes a) (Verbose a).

Definition set_OutputFile (v : option string) (a : Arguments) : Arguments :=
  mkArguments (Data a) (PostWithGet a) v (UseRemoteName a) (OutputStream a)
    (HTTPMethod a) (Headers a) (Information a) (LimitRate a) (LimitRateBytes a)
    (URL a) (MaxDownload a) (MaxDownloadBytes a) (Verbose a).

Definition set_OutputStream (v : option File) (a : Arguments) : Arguments :=
  mkArguments (Data a) (PostWithGet a) (OutputFile a) (UseRemoteName a) v
    (HTTPMethod a) (Headers a) (Information a) (LimitRate a) (LimitRateBytes a)
    (URL a) (MaxDownload a) (MaxDownloadBytes a) (Verbose a).

Definition set_HTTPMethod (v : string) (a : Arguments) : Arguments :=
  mkArguments (Data a) (PostWithGet a) (OutputFile a) (UseRemoteName a) (OutputStream a)
    v (Headers a) (Information a) (LimitRate a) (LimitRateBytes a)
    (URL a) (MaxDownload a) (MaxDownloadBytes a) (Verbose a).

Definition set_Headers (v : option (gmap string string)) (a : Arguments) : Arguments :=
  mkArguments (Data a) (PostWithGet a) (OutputFile a) (UseRemoteName a) (OutputStream a)
    (HTTPMethod a) v (Information a) (LimitRate a) (LimitRateBytes a)
    (URL a) (MaxDownload a) (MaxDownloadBytes a) (Verbose a).

Definition set_LimitRateBytes (v : Z) (a : Arguments) : Arguments :=
  mkArguments (Data a) (PostWithGet a) (OutputFile a) (UseRemoteName a) (OutputStream a)
    (HTTPMethod a) (Headers a) (Information a) (LimitRate a) v
    (URL a) (MaxDownload a) (MaxDownloadBytes a) (Verbose a).

Definition set_URL (v : string) (a : Arguments) : Arguments :=
  mkArguments (Data a) (PostWithGet a) (OutputFile a) (UseRemoteName a) (OutputStream a)
    (HTTPMethod a) (Headers a) (Information a) (LimitRate a) (LimitRateBytes a)
    v (MaxDownload a) (MaxDownloadBytes a) (Verbose a).

Definition set_MaxDownloadBytes (v : Z) (a : Arguments) : Arguments :=
  mkArguments (Data a) (PostWithGet a) (OutputFile a) (UseRemoteName a) (OutputStream a)
    (HTTPMethod a) (Headers a) (Information a) (LimitRate a) (LimitRateBytes a)
    (URL a) (MaxDownload a) v (Verbose a).

(** ** parseFlags *)

(** [strings.ToUpper] on the ASCII letters.  The program only compares the
    result with [CONTENT-TYPE] and [CONTENT-LENGTH]; no rune outside ASCII
    has one of their letters as its upper case, so the comparison comes
    out the same as with Go's Unicode mapping. *)
Definition upper_byte (c : ascii) : ascii :=
  if Bytes.between "a" "z" c then ascii_of_N (N_of_ascii c - 32) else c.

Fixpoint ToUpper (s : string) : string :=
  match s with
  | EmptyString => EmptyString
  | String c r => String (upper_byte c) (ToUpper r)
  end.

(** [for key := range headers] looking for a key that is [name] in upper
    case; ranging over a nil map does nothing. *)
Definition header_specified (name : string) (headers : option (gmap string string)) : bool :=
  match headers with
  | Some m => existsb (fun kv => String.eqb (ToUpper (fst kv)) name) (map_to_list m)
  | None => false
  end.

(** [args.Headers[key] = value] *)
Definition assign_header (key value : string) (a : Arguments) : outcome Arguments :=
  match Headers a with
  | Some m => Done (set_Headers (Some (<[key := value]> m)) a)
  | None => Panicked PanicNilMap
  end.

(** [flags.WroteHelp(err)] *)
Definition WroteHelp (err : option error) : bool :=
  match err with Some ErrHelp => true | _ => false end.

(** URLs don't have flags, are unused; no unused parameters means no
    URL.  If the protocol is unmentioned, assume HTTP. *)
Definition take_url (args : Arguments) (unused : list string) : outcome Arguments :=
  match unused with
  | u :: _ =>
      let args := set_URL u args in
      if negb (Bytes.contains "://" (URL args))
      then Done (set_URL ("http://" +:+ URL args) args)
      else Done args
  | [] => Panicked (PanicErr ErrNoURL)
  end.

(** Determine HTTP Method from arguments if unspecified. *)
Definition determine_method (args : Arguments) : Arguments :=
  if String.eqb (HTTPMethod args) EmptyString then
    if Information args then set_HTTPMethod "HEAD" args
    else if bool_decide (Data args <> None) && negb (PostWithGet args)
         then set_HTTPMethod "POST" args
    else args
  else set_HTTPMethod "GET" args.

(** If data begins with '@', assume filename and use file data.  The test
    reads byte 0 of the data, whatever its length. *)
Definition load_data (args : Arguments) (w : World) : outcome Arguments :=
  match Data args with
  | None => Done args
  | Some EmptyString => Panicked PanicIndex
  | Some (String c filename) =>
      if Ascii.eqb c "@" then
        raw ← must (ReadFile filename w);
        Done (set_Data (Some (string_of_list_byte raw)) args)
      else Done args
  end.

(** Check if certain headers are specified by user, and fill in content
    headers if unspecified. *)
Definition content_headers (args : Arguments) : outcome Arguments :=
  let isContentTypeSpecified := header_specified "CONTENT-TYPE" (Headers args) in
  let isContentLengthSpecified := header_specified "CONTENT-LENGTH" (Headers args) in
  args ← match Data args with
         | Some data =>
             if negb isContentTypeSpecified then
               let '(contentType, requiresHeader) := guessDataType data in
               if requiresHeader then assign_header "Content-Type" contentType args
               else Done args
             else Done args
         | None => Done args
         end;
  match Data args with
  | Some data =>
      if negb isContentLengthSpecified
      then assign_header "Content-Length" (pretty (String.length data)) args
      else Done args
  | None => Done args
  end.

(** The rate limit and the maximum download size, in bytes. *)
Definition size_flags (args : Arguments) : outcome Arguments :=
  args ← match LimitRate args with
         | Some rate =>
             bytes ← (r ← parseSize rate; must r);
             Done (set_LimitRateBytes bytes args)
         | None => Done args
         end;
  match MaxDownload args with
  | Some size =>
      bytes ← (r ← parseSize size; must r);
      Done (set_MaxDownloadBytes bytes args)
  | None => Done args
  end.

(** [parseFlags] parses and transforms arguments.  [flags.Parse(&args)]
    is the caller's: [parsed] is [args] as it leaves it, [unused] and [err]
    are what it returns.  The world is read for a body given as [@file]. *)
Definition parseFlags (parsed : Arguments) (unused : list string)
    (err : option error) (w : World) : outcome Arguments :=
  if WroteHelp err then Exited 0   (* asked for help? Exit! *)
  else
    _ ← must (tt, err);
    args ← take_url parsed unused;
    let args := determine_method args in
    args ← load_data args w;
    args ← content_headers args;
    size_flags args.

(** [http.NewRequest(method, ...)] takes the empty method as [GET]; this is
    the method of the request that is sent. *)
Definition request_method (method : string) : string :=
  if String.eqb method EmptyString then "GET" else method.

(** ** main: from the response to the output *)

(** One call of [res.Body.Read(buffer)]: the bytes it puts at the start of
    the buffer and the error it returns. *)
Record read_event : Type := mkRead {
  chunk : list byte;
  rerr : option error
}.

(** What the program looks at in the response: the value of
    [res.Header.Get("Content-Disposition")] (empty when the header is
    absent) and the body, as the successive results of [Read].  A body
    whose events are used up keeps returning [(0, io.EOF)]. *)
Record Response : Type := mkResponse {
  ContentDisposition : string;
  Body : list read_event
}.

Definition eof_read : read_event := mkRead [] (Some EOF).

(** [len(buffer)] *)
Definition buffer_len : nat := 1024.

(** A reader never returns more bytes than the buffer holds. *)
Definition reader_ok (body : list read_event) : Prop :=
  Forall (fun ev => (length (chunk ev) <= buffer_len)%nat) body.

(** The body of a response of [src] bytes read in full buffers: each read
    takes the next 1024 bytes, or what is left.  With [eager] the read
    that takes the last bytes also returns [io.EOF]; without it the end
    shows on the next read.  [fuel] bounds the number of reads; the
    length of [src] is always enough. *)
Fixpoint full_reads (fuel : nat) (eager : bool) (src : list byte) : list read_event :=
  match fuel, src with
  | S fuel', _ :: _ =>
      let r := drop buffer_len src in
      mkRead (take buffer_len src)
             (if eager && bool_decide (r = []) then Some EOF else None)
      :: full_reads fuel' eager r
  | _, _ => []
  end.

Definition body_of (eager : bool) (src : list byte) : list read_event :=
  full_reads (length src) eager src.

(** The bytes a body delivers up to its end of stream. *)
Fixpoint delivered (body : list read_event) : list byte :=
  match body with
  | [] => []
  | ev :: r => chunk ev ++ (if is_EOF (rerr ev) then [] else delivered r)
  end.

(** Prepare output stream for file or stdout (the first [if] of that part
    of [main]). *)
Definition resolveOutput (args : Arguments) (res : Response) : Arguments :=
  match OutputFile args with
  | None =>
      if UseRemoteName args then
        let disposition := ContentDisposition res in
        if negb (String.eqb disposition EmptyString) then
          match Regexp.FindStringSubmatch1 Regexp.filename_pattern disposition with
          | Some name => set_OutputFile (Some name) args
          | None => args
          end
        else set_OutputFile (Some (Path.Base (URL args))) args
      else set_OutputStream (Some Stdout) args
  | Some _ => args
  end.

(** The second [if]: open the output file when there is one. *)
Definition openOutput (args : Arguments) (w : World) : outcome (Arguments * World) :=
  match OutputFile args with
  | Some name =>
      let '(f, w', err) := OpenFile name w in
      _ ← must (f, err);
      Done (set_OutputStream f args, w')
  | None => Done (args, w)
  end.

(** The variables of the copy loop: [total], the contents of [buffer], and
    the output stream with the world it writes to. *)
Record copy_state : Type := mkCopy {
  total : Z;
  buffer : list byte;
  stream : option File;
  world : World
}.

(** [Read] overwrites the start of the buffer and leaves the rest. *)
Definition fill (buf data : list byte) : list byte :=
  data ++ drop (length data) buf.

(** [err != nil && err != io.EOF]: the error, when this holds. *)
Definition fatal (err : option error) : option error :=
  match err with
  | Some EOF => None
  | _ => err
  end.

(** One iteration of the loop on the read [ev]; the [bool] tells whether
    the loop breaks.  [buffer[:n]] panics unless [0 <= n <= cap(buffer)]. *)
Definition iteration (args : Arguments) (ev : read_event) (st : copy_state)
    : outcome (copy_state * bool) :=
  let buffer := fill (buffer st) (chunk ev) in
  let n := Z.of_nat (length (chunk ev)) in
  let err := rerr ev in
  match fatal err with
  | Some e => Panicked (PanicErr e)
  | None =>
      let '(n, err) :=
        if bool_decide (MaxDownload args <> None)
           && (MaxDownloadBytes args <=? wrap64 (total st + n))
        then (* limit based on download size *)
             (wrap64 (MaxDownloadBytes args - total st), Some EOF)
        else (n, err) in
      let total := wrap64 (total st + n) in
      if (n <? 0) || (Z.of_nat buffer_len <? n) then Panicked PanicSlice
      else
        match Write (stream st) (take (Z.to_nat n) buffer) (world st) with
        | (_, _, Some err2) => Panicked (PanicErr err2)
        | (f, w, None) => Done (mkCopy total buffer f w, is_EOF err)
        end
  end.

(** Read response, write to output: the [for] loop. *)
Fixpoint copyLoop (args : Arguments) (body : list read_event) (st : copy_state)
    : outcome copy_state :=
  match body with
  | [] => '(st', _) ← iteration args eof_read st; Done st'
  | ev :: rest =>
      '(st', brk) ← iteration args ev st;
      if (brk : bool) then Done st' else copyLoop args rest st'
  end.

(** The states after each completed iteration of the loop, in order. *)
Fixpoint copyStates (args : Arguments) (body : list read_event) (st : copy_state)
    : list copy_state :=
  match body with
  | [] =>
      match iteration args eof_read st with
      | Done (st', _) => [st']
      | _ => []
      end
  | ev :: rest =>
      match iteration args ev st with
      | Done (st', brk) => st' :: (if (brk : bool) then [] else copyStates args rest st')
      | _ => []
      end
  end.

(** The loop's variables on entry: [total] is 0, the buffer 1024 zero
    bytes. *)
Definition copy_init (args : Arguments) (w : World) : copy_state :=
  mkCopy 0 (replicate buffer_len x00) (OutputStream args) w.

(** [main] from the response on: resolve the output, open it, copy. *)
Definition respond (args : Arguments) (res : Response) (w : World)
    : outcome (Arguments * World) :=
  let args := resolveOutput args res in
  '(args, w) ← openOutput args w;
  st ← copyLoop args (Body res) (copy_init args w);
  Done (args, world st).

(** ** The effect of the writes *)

(** What a run of writes does to a stream and the world. *)
Fixpoint write_all (f : File) (chunks : list (list byte)) (w : World) : File * World :=
  match chunks with
  | [] => (f, w)
  | c :: cs => let '(f1, w1) := write_to f c w in write_all f1 cs w1
  end.

(** The state after an iteration that writes [data] and counts [n]. *)
Definition after (st : copy_state) (f : File) (ev : read_event) (n : Z)
    (data : list byte) : copy_state :=
  mkCopy (wrap64 (total st + n)) (fill (buffer st) (chunk ev))
         (Some (fst (write_to f data (world st)))) (snd (write_to f data (world st))).

(** The bytes written between the world [w] and the later world [w']. *)
Definition written (w w' : World) : list byte :=
  concat (drop (length (writes w)) (writes w')).

(** The output [f] has received [data] between the world [w] and the later
    world [w']: standard output holds [data] after what it held; a file
    open at its start holds [data] over what it held, so exactly [data]
    when it was no longer than that; and nothing else has changed. *)
Definition received (f : File) (data : list byte) (w w' : World) : Prop :=
  (f = Stdout ->
   stdout w' = (stdout w ++ data)%list /\ files w' = files w) /\
  (forall name old, f = Opened name 0 -> files w !! name = Some old ->
     files w' !! name = Some (data ++ drop (length data) old)%list /\
     ((length old <= length data)%nat -> files w' !! name = Some data) /\
     (forall other, other <> name -> files w' !! other = files w !! other) /\
     stdout w' = stdout w).

(** ** Example inputs *)

(** The arguments as [flags.Parse] leaves them when no option is given:
    every field at its zero value, the header map made and empty. *)
Definition example_flags : Arguments :=
  mkArguments None false None false None EmptyString (Some ∅) false None 0
    EmptyString None 0 [].

Definition empty_world : World := mkWorld ∅ ∅ [] [].

Definition limit_2000_flags : Arguments :=
  mkArguments None false None false (Some Stdout) EmptyString (Some ∅) false None 0
    "http://example.com/" (Some "2000") 2000 [].

Definition source_5000 : list byte := replicate 5000 Byte.x41.

(** The output file [out.txt] just created and open at its start, as
    [os.OpenFile] leaves a file that did not exist, and the arguments with
    that file as the output stream. *)
Definition new_file_world : World := mkWorld (<["out.txt" := []]> ∅) ∅ [] [].

Definition new_file_flags : Arguments :=
  mkArguments None false (Some "out.txt") false (Some (Opened "out.txt" 0))
    EmptyString (Some ∅) false None 0 "http://example.com/" None 0 [].

(** The body of [-d] with a JSON object in it. *)
Definition json_object_example : string :=
  "{" +:+ String Bytes.dquote "a" +:+ String Bytes.dquote ":1}".

(** [-O] with a URL. *)
Definition remote_name_flags : Arguments :=
  mkArguments None false None true None EmptyString (Some ∅) false None 0
    "http://example.com/files/a.txt" None 0 [].

(** [-o out.txt], a world where [out.txt] holds six bytes, a response of
    two bytes, and the arguments and the world the run ends with. *)
Definition output_file_flags : Arguments :=
  mkArguments None false (Some "out.txt") false None EmptyString (Some ∅) false None 0
    "http://example.com/" None 0 [].

Definition existing_file_world : World :=
  mkWorld (<["out.txt" := list_byte_of_string "abcdef"]> ∅) ∅ [] [].

Definition short_response : Response :=
  mkResponse EmptyString (body_of true (list_byte_of_string "xy")).

Definition existing_file_run : Arguments * World :=
  match respond output_file_flags short_response existing_file_world with
  | Done r => r
  | _ => (output_file_flags, existing_file_world)
  end.

(** ** Inputs for the further properties *)

(** A maximum download of 4 bytes to standard output, and a body read as
    2, 0 and 3 bytes. *)
Definition short_reads_flags : Arguments :=
  mkArguments None false None false (Some Stdout) EmptyString (Some ∅) false None 0
    "http://example.com/" (Some "4") 4 [].

Definition short_reads : list read_event :=
  [mkRead [Byte.x61; Byte.x62] None; mkRead [] None;
   mkRead [Byte.x63; Byte.x64; Byte.x65] (Some EOF)].

(** [--max-filesize=-5] *)
Definition negative_limit_flags : Arguments :=
  mkArguments None false None false (Some Stdout) EmptyString (Some ∅) false None 0
    "http://example.com/" (Some "-5") (-5) [].

(** The fields of the arguments two values agree on. *)
Definition same_url (a b : Arguments) : Prop := URL a = URL b.
Definition same_data (a b : Arguments) : Prop := Data a = Data b.
Definition same_headers (a b : Arguments) : Prop := Headers a = Headers b.
Definition same_sizes (a b : Arguments) : Prop :=
  LimitRate a = LimitRate b /\ MaxDownload a = MaxDownload b.

(** [--max-filesize 11K] with a URL, before and after [parseFlags]. *)
Definition max_11K_flags : Arguments :=
  mkArguments None false None false None EmptyString (Some ∅) false None 0
    EmptyString (Some "11K") 0 [].

Definition max_11K_parsed : Arguments :=
  mkArguments None false None false None EmptyString (Some ∅) false None 0
    "http://example.com" (Some "11K") 11264 [].


Definition same_output (a b : Arguments) : Prop :=
  OutputFile a = OutputFile b /\ UseRemoteName a = UseRemoteName b /\
  OutputStream a = OutputStream b.

(** The header map [content_headers] leaves for the body [body] when the
    user's map is [m]: both tests on the user's headers are made on [m],
    before anything is added. *)
Definition content_headers_of (body : string) (m : gmap string string)
    : gmap string string :=
  let m1 := if negb (header_specified "CONTENT-TYPE" (Some m)) && snd (guessDataType body)
            then <["Content-Type" := fst (guessDataType body)]> m else m in
  if negb (header_specified "CONTENT-LENGTH" (Some m))
  then <["Content-Length" := pretty (String.length body)]> m1 else m1.

(** [-X PUT]; [-d a=1], for which [flags.Parse] leaves an empty header
    map; and [-d a=1 -H Accept:text/plain]. *)
Definition put_flags : Arguments := set_HTTPMethod "PUT" example_flags.

Definition body_flags : Arguments :=
  set_Data (Some "a=1") example_flags.

Definition accept_header : gmap string string := <["Accept" := "text/plain"]> ∅.

Definition body_header_flags : Arguments :=
  set_Headers (Some accept_header) body_flags.

Definition body_header_run : Arguments :=
  match parseFlags body_header_flags ["example.com"] None empty_world with
  | Done r => r
  | _ => body_header_flags
  end.

(** [-d @body.json -H Accept:text/plain] where [body.json] holds [{}]. *)
Definition data_file_flags : Arguments :=
  set_Headers (Some accept_header) (set_Data (Some "@body.json") example_flags).

Definition data_file_world : World :=
  mkWorld (<["body.json" := list_byte_of_string "{}"]> ∅) ∅ [] [].

Definition data_file_run : Arguments :=
  match parseFlags data_file_flags ["example.com"] None data_file_world with
  | Done r => r
  | _ => data_file_flags
  end.

(** What [parseFlags] needs of the body to get past it: a first byte, the
    file when the body names one, and a header map to put the content
    headers in. *)
Definition body_usable (parsed : Arguments) (w : World) : Prop :=
  match Data parsed with
  | None => True
  | Some EmptyString => False
  | Some (String c name) =>
      (c = "@"%char -> is_Some (files w !! name)) /\ Headers parsed <> None
  end.

(** A size flag is absent, or [parseSize] returns a number for it. *)
Definition size_usable (size : option string) : Prop :=
  match size with
  | None => True
  | Some value => exists n, parseSize value = Done (n, None)
  end.

(** Decimal digit strings and the numbers they write. *)
Fixpoint all_digits (s : string) : bool :=
  match s with
  | EmptyString => true
  | String c r => Bytes.is_digit c && all_digits r
  end.

Fixpoint value_from (n : Z) (s : string) : Z :=
  match s with
  | EmptyString => n
  | String c r => value_from (n * 10 + (Bytes.code c - Bytes.code "0")) r
  end.

Definition decimal_value (s : string) : Z := value_from 0 s.

(** [--max-filesize 2000] and [--max-filesize=-5] with a URL, before and
    after [parseFlags]. *)
Definition max_2000_flags : Arguments :=
  mkArguments None false None false None EmptyString (Some ∅) false None 0
    EmptyString (Some "2000") 0 [].

Definition max_2000_parsed : Arguments :=
  mkArguments None false None false None EmptyString (Some ∅) false None 0
    "http://example.com" (Some "2000") 2000 [].

Definition minus_5_flags : Arguments :=
  mkArguments None false None false None EmptyString (Some ∅) false None 0
    EmptyString (Some "-5") 0 [].

Definition minus_5_parsed : Arguments :=
  mkArguments None false None false None EmptyString (Some ∅) false None 0
    "http://example.com" (Some "-5") (-5) [].

(** What follows [.*?] in the form pattern, and what follows [.+?]. *)
Definition after_lazy_star : Regexp.regex :=
  [Regexp.One (Regexp.Lit "="); Regexp.PlusLazy Regexp.AnyNotNL;
   Regexp.Quest (Regexp.Lit "&"); Regexp.WordBoundary].

Definition after_lazy_plus : Regexp.regex :=
  [Regexp.Quest (Regexp.Lit "&"); Regexp.WordBoundary].

(** A scanner in the middle of a top-level value: no error, the end of
    the value not seen, and inside an array when it may see its end. *)
Definition scanning (s : Json.scanner) : Prop :=
  Json.err s = false /\ Json.endTop s = false /\
  Json.step s <> Json.stateEndTop /\
  (Json.step s = Json.stateBeginValueOrEmpty -> Json.parseState s <> []).

(** The states in which a top-level value may be complete. *)
Definition may_end (st : Json.state) : bool :=
  match st with
  | Json.stateEndValue | Json.state0 | Json.state1 | Json.stateDot0 | Json.stateE0 => true
  | _ => false
  end.

(** What a step keeps of [scanning], besides what [Json.kept] says. *)
Definition kept_inside (r : Json.scanner * Json.scan_code) : Prop :=
  match snd r with
  | Json.scanEnd | Json.scanError | Json.scanEndObject | Json.scanEndArray => True
  | _ => Json.step (fst r) <> Json.stateEndTop /\
         (Json.step (fst r) = Json.stateBeginValueOrEmpty -> Json.parseState (fst r) <> [])
  end.

(** [json.Valid] from a scanner state on. *)
Definition valid_from (s : Json.scanner) (p : string) : bool :=
  match Json.scan_all s p with
  | Some s' => match Json.eof s' with Json.scanError => false | _ => true end
  | None => false
  end.

(** What follows the literal in the file name pattern: an optional quote,
    the group [(.+)] and an optional quote. *)
Definition filename_tail : Regexp.regex :=
  [Regexp.Quest (Regexp.Lit Bytes.dquote); Regexp.CapOpen;
   Regexp.Plus Regexp.AnyNotNL; Regexp.CapClose;
   Regexp.Quest (Regexp.Lit Bytes.dquote)].

(** From [CapOpen] on, and from [CapClose] on. *)
Definition filename_group : Regexp.regex := tail filename_tail.

Definition filename_close : Regexp.regex := tail (tail (tail filename_tail)).

(** What is left of [rest] once an opening quote is taken off: the quote
    is taken only when something follows it. *)
Definition without_opening_quote (rest : string) : string :=
  match rest with
  | String q (String c r) => if Ascii.eqb q Bytes.dquote then String c r else rest
  | _ => rest
  end.

(** [-O] with a URL and a response whose [Content-Disposition] names a
    quoted file. *)
Definition quoted_response : Response :=
  mkResponse ("attachment; " +:+ "filename=" +:+
              String Bytes.dquote "report.csv" +:+ String Bytes.dquote EmptyString)
             (body_of true (list_byte_of_string "xy")).

Definition inline_response : Response :=
  mkResponse "inline" (body_of true (list_byte_of_string "xy")).

(** [-d a=1 -H content-type:text/plain example.com] *)
Definition lower_case_header : gmap string string := <["content-type" := "text/plain"]> ∅.

Definition lower_case_header_flags : Arguments :=
  set_Headers (Some lower_case_header) body_flags.

Definition lower_case_header_run : Arguments :=
  match parseFlags lower_case_header_flags ["example.com"] None empty_world with
  | Done r => r
  | _ => lower_case_header_flags
  end.
(** * Properties *)

(** ** Byte strings *)

Lemma app_nil (s : string) : EmptyString +:+ s = s.
Proof. reflexivity. Qed.

Lemma app_cons (a : ascii) (s t : string) : String a s +:+ t = String a (s +:+ t).
Proof. reflexivity. Qed.

(** ** Size strings *)

(** The last byte of a string and the string before it. *)
Lemma last_app_byte (p : string) (c : ascii) :
  Bytes.last (p +:+ String c EmptyString) = Some c.
Proof.
  induction p as [|a p IH]; simpl; [reflexivity|].
  rewrite IH. destruct p; reflexivity.
Qed.

Lemma init_app_byte (p : string) (c : ascii) :
  Bytes.init (p +:+ String c EmptyString) = p.
Proof.
  induction p as [|a p IH]; simpl; [reflexivity|].
  rewrite IH. destruct p; reflexivity.
Qed.

(** A size with a lower-case letter is the number before the letter: the
    [case] of the lower-case letter has no statements. *)
Lemma parseSize_lower_case (p : string) (c : ascii) (n : Z) :
  In c ["k"; "m"; "g"]%char ->
  Strconv.ParseInt p = (n, None) ->
  parseSize (p +:+ String c EmptyString) = Done (n, None).
Proof.
  intros Hc Hp. unfold parseSize.
  rewrite last_app_byte, init_app_byte, Hp.
  simpl in Hc. destruct Hc as [<-|[<-|[<-|[]]]]; reflexivity.
Qed.

(** A size with an upper-case letter is the number times the letter's
    power of 1024, as an [int64]. *)
Lemma parseSize_upper_case (p : string) (n : Z) :
  Strconv.ParseInt p = (n, None) ->
  parseSize (p +:+ "K") = Done (wrap64 (n * 1024), None) /\
  parseSize (p +:+ "M") = Done (wrap64 (n * (1024 * 1024)), None) /\
  parseSize (p +:+ "G") = Done (wrap64 (n * (1024 * 1024 * 1024)), None).
Proof.
  intros Hp. unfold parseSize.
  rewrite !last_app_byte, !init_app_byte, Hp. repeat split; reflexivity.
Qed.

(** C3: the multiplier letter is not case-insensitive in the code.  On
    the size strings [1k], [1m] and [1g] [parseSize] returns 1, while on
    [1K], [1M] and [1G] it returns 1024, 1024^2 and 1024^3. *)
Theorem C3_lower_case_suffix_not_scaled :
  parseSize "1k" = Done (1, None) /\ parseSize "1K" = Done (1024, None) /\
  parseSize "1m" = Done (1, None) /\ parseSize "1M" = Done (1048576, None) /\
  parseSize "1g" = Done (1, None) /\ parseSize "1G" = Done (1073741824, None).
Proof. repeat split; vm_compute; reflexivity. Qed.

(** C6: the size vectors.  [11K], [5M], [2G] and [100] give 11264,
    5242880, 2147483648 and 100, and [abcK] gives an error; on the empty
    string [parseSize] returns no error: it panics with an index out of
    range. *)
Theorem C6_size_vectors_and_empty_panics :
  parseSize "11K" = Done (11264, None) /\
  parseSize "5M" = Done (5242880, None) /\
  parseSize "2G" = Done (2147483648, None) /\
  parseSize "100" = Done (100, None) /\
  parseSize "abcK" = Done (-1, Some ErrSyntax) /\
  parseSize EmptyString = Panicked PanicIndex.
Proof. repeat split; vm_compute; reflexivity. Qed.

(** ** Flags *)

Lemma bind_Done {A B} (m : outcome A) (k : A -> outcome B) (b : B) :
  m ≫= k = Done b -> exists a, m = Done a /\ k a = Done b.
Proof. destruct m; simpl; intros H; [eauto|discriminate..]. Qed.

(** Splits a hypothesis [m ≫= k = Done b] into its two steps. *)
Ltac bind_inv H :=
  let a := fresh "a" in
  let Ha := fresh "Ha" in
  apply bind_Done in H; destruct H as (a & Ha & H).

Section Flags.

Variables (parsed : Arguments) (unused : list string) (w : World).

Lemma take_url_fields (a : Arguments) :
  take_url parsed unused = Done a ->
  HTTPMethod a = HTTPMethod parsed /\ Data a = Data parsed /\
  Information a = Information parsed /\ PostWithGet a = PostWithGet parsed.
Proof.
  unfold take_url. destruct unused; [discriminate|].
  destruct (negb _); intros [= <-]; repeat split.
Qed.

Lemma load_data_method (a a' : Arguments) :
  load_data a w = Done a' -> HTTPMethod a' = HTTPMethod a.
Proof.
  unfold load_data. destruct (Data a) as [[|c f]|]; try discriminate.
  - destruct (Ascii.eqb c "@"); [|now intros [= <-]].
    intros H. bind_inv H. now injection H as <-.
  - now intros [= <-].
Qed.

Lemma assign_header_method (k v : string) (a a' : Arguments) :
  assign_header k v a = Done a' -> HTTPMethod a' = HTTPMethod a.
Proof. unfold assign_header. destruct (Headers a); [now intros [= <-]|discriminate]. Qed.

Lemma content_headers_method (a a' : Arguments) :
  content_headers a = Done a' -> HTTPMethod a' = HTTPMethod a.
Proof.
  unfold content_headers. intros H. bind_inv H.
  assert (E : HTTPMethod a0 = HTTPMethod a).
  { destruct (Data a); [|now injection Ha as <-].
    destruct (negb _); [|now injection Ha as <-].
    destruct (guessDataType s) as [ct [|]]; [|now injection Ha as <-].
    eauto using assign_header_method. }
  rewrite <- E. clear Ha. destruct (Data a0); [|now injection H as <-].
  destruct (negb _); [|now injection H as <-].
  eauto using assign_header_method.
Qed.

Lemma size_flags_method (a a' : Arguments) :
  size_flags a = Done a' -> HTTPMethod a' = HTTPMethod a.
Proof.
  unfold size_flags. intros H. bind_inv H.
  assert (E : HTTPMethod a0 = HTTPMethod a).
  { destruct (LimitRate a); [|now injection Ha as <-].
    bind_inv Ha. now injection Ha as <-. }
  rewrite <- E. destruct (MaxDownload a0); [|now injection H as <-].
  bind_inv H. now injection H as <-.
Qed.

(** The method [parseFlags] leaves is the one [determine_method] chose. *)
Lemma parseFlags_method (args : Arguments) :
  parseFlags parsed unused None w = Done args ->
  exists a, take_url parsed unused = Done a /\
            HTTPMethod args = HTTPMethod (determine_method a).
Proof.
  unfold parseFlags. simpl. intros H. bind_inv H. exists a. split; [assumption|].
  bind_inv H. bind_inv H.
  apply size_flags_method in H. apply content_headers_method in Ha1.
  apply load_data_method in Ha0. congruence.
Qed.

(** For an explicit method, the method after [parseFlags] is [GET]. *)
Lemma parseFlags_explicit_method (args : Arguments) :
  HTTPMethod parsed <> EmptyString ->
  parseFlags parsed unused None w = Done args ->
  HTTPMethod args = "GET".
Proof.
  intros Hm H. apply parseFlags_method in H as (a & Ha & ->).
  apply take_url_fields in Ha as (E & _). unfold determine_method.
  rewrite E. destruct (String.eqb_spec (HTTPMethod parsed) EmptyString); [contradiction|].
  reflexivity.
Qed.

(** Without an explicit method, the request's method follows the chain:
    [HEAD] for information only, else [POST] for a body not sent with
    [GET], else [GET]. *)
Lemma parseFlags_inferred_method (args : Arguments) :
  HTTPMethod parsed = EmptyString ->
  parseFlags parsed unused None w = Done args ->
  request_method (HTTPMethod args) =
    if Information parsed then "HEAD"
    else if bool_decide (Data parsed <> None) && negb (PostWithGet parsed) then "POST"
    else "GET".
Proof.
  intros Hm H. apply parseFlags_method in H as (a & Ha & ->).
  apply take_url_fields in Ha as (E & ED & EI & EP). unfold determine_method.
  rewrite E, Hm, EI, ED, EP. simpl.
  destruct (Information parsed); [reflexivity|].
  destruct (bool_decide _ && negb _); [reflexivity|].
  simpl. rewrite E, Hm. reflexivity.
Qed.

(** With [-d] given the empty string and a URL, [parseFlags] panics on
    byte 0 of the body. *)
Lemma parseFlags_empty_data :
  Data parsed = Some EmptyString ->
  unused <> [] ->
  parseFlags parsed unused None w = Panicked PanicIndex.
Proof.
  intros HD Hu. unfold parseFlags. simpl.
  destruct (take_url parsed unused) as [a| |] eqn:Ha.
  - apply take_url_fields in Ha as (_ & ED & _). simpl.
    assert (E : Data (determine_method a) = Some EmptyString).
    { unfold determine_method.
      destruct (String.eqb _ _); [destruct (Information a);
        [|destruct (bool_decide _ && negb _)]|]; simpl; congruence. }
    unfold load_data. rewrite E. reflexivity.
  - unfold take_url in Ha. destruct unused; [contradiction|].
    destruct (negb _); discriminate.
  - unfold take_url in Ha. destruct unused; [contradiction|].
    destruct (negb _); discriminate.
Qed.

End Flags.

(** C9: with [-d] given the empty string, flag processing reads byte 0 of
    the empty body: whatever the other flags, the URL and the files,
    [parseFlags] panics with an index out of range once the flags are
    parsed and a URL is there, and in no case does it return, so no
    request with an empty body is built. *)
Theorem C9_empty_data_index_out_of_range (parsed : Arguments)
    (unused : list string) (err : option error) (w : World) :
  Data parsed = Some EmptyString ->
  (err = None -> unused <> [] ->
   parseFlags parsed unused err w = Panicked PanicIndex) /\
  (forall args, parseFlags parsed unused err w <> Done args).
Proof.
  intros HD.
  assert (H : err = None -> unused <> [] ->
              parseFlags parsed unused err w = Panicked PanicIndex)
    by (intros ->; now apply parseFlags_empty_data).
  split; [exact H|]. intros args.
  destruct err as [e|]; [unfold parseFlags; now destruct e|].
  destruct unused as [|u us]; [discriminate|].
  rewrite H; [discriminate|reflexivity|discriminate].
Qed.

(** The command line [-d <empty> example.com]. *)
Lemma C9_empty_data_witness :
  (@None error = None -> ["example.com"] <> [] ->
   parseFlags (set_Data (Some EmptyString) example_flags) ["example.com"] None
     empty_world = Panicked PanicIndex) /\
  (forall args,
     parseFlags (set_Data (Some EmptyString) example_flags) ["example.com"] None
       empty_world <> Done args).
Proof.
  apply C9_empty_data_index_out_of_range. reflexivity.
Defined.

(** C1: an explicit method is not sent.  With [-X POST] and a URL,
    [parseFlags] returns with the method [GET], and so the request goes out
    as [GET]; with no [-X] and a body, the method is [POST]. *)
Theorem C1_explicit_method_replaced_by_GET :
  (exists args,
     parseFlags (set_HTTPMethod "POST" example_flags) ["http://example.com"] None
       empty_world = Done args /\
     HTTPMethod args = "GET" /\ request_method (HTTPMethod args) = "GET") /\
  (exists args,
     parseFlags (set_Data (Some "x") (set_Headers (Some ∅) example_flags))
       ["http://example.com"] None empty_world = Done args /\
     request_method (HTTPMethod args) = "POST").
Proof.
  split; eexists; (split; [vm_compute; reflexivity|]); repeat split.
Qed.

(** ** The copy loop *)

Lemma wrap64_small (z : Z) : min_int64 <= z <= max_int64 -> wrap64 z = z.
Proof.
  unfold wrap64, min_int64, max_int64. intros H.
  rewrite Z.mod_small by lia. lia.
Qed.

Lemma take_fill (buf data : list byte) (n : nat) :
  (n <= length data)%nat -> take n (fill buf data) = take n data.
Proof. intros H. unfold fill. now rewrite take_app_le. Qed.

Lemma writes_write_all (f : File) (cs : list (list byte)) (w : World) :
  writes (snd (write_all f cs w)) = (writes w ++ cs)%list.
Proof.
  revert f w. induction cs as [|c cs IH]; intros f w; simpl.
  - now rewrite app_nil_r.
  - destruct (write_to f c w) as [f1 w1] eqn:E. rewrite IH.
    destruct f; injection E as <- <-; simpl; now rewrite <- app_assoc.
Qed.

Lemma stdout_write_all (cs : list (list byte)) (w : World) :
  write_all Stdout cs w =
    (Stdout, mkWorld (files w) (denied w) (stdout w ++ concat cs) (writes w ++ cs)).
Proof.
  revert w. induction cs as [|c cs IH]; intros w; simpl.
  - rewrite !app_nil_r. now destruct w.
  - rewrite IH. simpl. now rewrite <- !app_assoc.
Qed.

Lemma write_at_nil (off : nat) (old : list byte) :
  (off <= length old)%nat -> write_at off [] old = old.
Proof.
  intros H. unfold write_at. simpl. rewrite Nat.add_0_r, resize_le by lia.
  apply take_drop.
Qed.

Lemma write_at_0 (data old : list byte) :
  write_at 0 data old = (data ++ drop (length data) old)%list.
Proof. unfold write_at. now rewrite resize_0. Qed.

Lemma write_at_app (off : nat) (a b old : list byte) :
  write_at (off + length a) b (write_at off a old) = write_at off (a ++ b) old.
Proof.
  unfold write_at.
  assert (L : length (resize off x00 old ++ a) = (off + length a)%nat)
    by now rewrite length_app, length_resize.
  rewrite (app_assoc (resize off x00 old) a), <- L.
  rewrite resize_app by reflexivity.
  rewrite drop_app_add, L, length_app.
  rewrite drop_drop, <- !app_assoc.
  now rewrite Nat.add_assoc.
Qed.

(** Writing to an open file: the file holds what it held, overwritten
    from the offset of the first write by the chunks in turn; no other
    file changes. *)
Lemma file_write_all (name : string) (off : nat) (cs : list (list byte)) (w : World)
    (old : list byte) :
  files w !! name = Some old -> (off <= length old)%nat ->
  let w' := snd (write_all (Opened name off) cs w) in
  fst (write_all (Opened name off) cs w) = Opened name (off + length (concat cs)) /\
  files w' = <[name := write_at off (concat cs) old]> (files w) /\
  stdout w' = stdout w.
Proof.
  revert off w old. induction cs as [|c cs IH]; intros off w old Hold Hoff; simpl.
  - rewrite Nat.add_0_r, write_at_nil by assumption.
    now rewrite insert_id.
  - rewrite Hold. simpl.
    edestruct (IH (off + length c)%nat) as (E1 & E2 & E3);
      [ | | rewrite E1, E2, E3; clear E1 E2 E3 ].
    + simpl. apply lookup_insert_eq.
    + unfold write_at. rewrite !length_app, length_resize. lia.
    + simpl. rewrite insert_insert_eq, write_at_app, length_app.
      repeat split. f_equal. lia.
Qed.

Lemma wrap64_add_wrap (a b : Z) : wrap64 (a + wrap64 b) = wrap64 (a + b).
Proof.
  unfold wrap64. f_equal.
  replace (a + ((b + 2 ^ 63) mod 2 ^ 64 - 2 ^ 63) + 2 ^ 63)
    with (a + (b + 2 ^ 63) mod 2 ^ 64) by lia.
  rewrite Z.add_mod_idemp_r by lia. f_equal. lia.
Qed.

Section CopyLoop.

Variable args : Arguments.

(** An iteration with no limit writes the chunk read and breaks at the end
    of the stream. *)
Lemma iteration_unlimited (ev : read_event) (st : copy_state) (f : File) :
  MaxDownload args = None ->
  fatal (rerr ev) = None ->
  (length (chunk ev) <= buffer_len)%nat ->
  stream st = Some f ->
  iteration args ev st =
    Done (after st f ev (Z.of_nat (length (chunk ev))) (chunk ev), is_EOF (rerr ev)).
Proof.
  intros HM Hf Hlen Hs. unfold iteration, after. rewrite Hf, HM, Hs. simpl.
  replace (_ <? 0) with false by (symmetry; apply Z.ltb_ge; lia).
  replace (_ <? _) with false by (symmetry; apply Z.ltb_ge; lia).
  simpl. rewrite Nat2Z.id, take_fill, take_ge by lia.
  now destruct (write_to f (chunk ev) (world st)).
Qed.

(** An iteration under a limit [m] that the counter has not passed, when
    the sums fit [int64]: at the limit it writes what is left up to [m]
    and breaks; below it, it writes the chunk read. *)
Lemma iteration_limited (ev : read_event) (st : copy_state) (f : File) (m : Z) :
  MaxDownload args <> None -> MaxDownloadBytes args = m ->
  fatal (rerr ev) = None ->
  (length (chunk ev) <= buffer_len)%nat ->
  stream st = Some f ->
  0 <= total st <= m -> m <= max_int64 ->
  total st + Z.of_nat (length (chunk ev)) <= max_int64 ->
  iteration args ev st =
    if m <=? total st + Z.of_nat (length (chunk ev))
    then Done (after st f ev (m - total st)
                 (take (Z.to_nat (m - total st)) (chunk ev)), true)
    else Done (after st f ev (Z.of_nat (length (chunk ev))) (chunk ev),
               is_EOF (rerr ev)).
Proof.
  intros HM Hm Hf Hlen Hs Ht Hmax Hsum.
  assert (Hmin : min_int64 <= 0) by (unfold min_int64; lia).
  unfold iteration, after. rewrite Hf, Hm, Hs.
  rewrite (bool_decide_eq_true_2 _ HM). simpl.
  rewrite (wrap64_small (total st + _)) by lia.
  destruct (Z.leb_spec m (total st + Z.of_nat (length (chunk ev)))) as [Hle|Hgt].
  - rewrite (wrap64_small (m - total st)) by lia.
    replace (_ <? 0) with false by (symmetry; apply Z.ltb_ge; lia).
    replace (_ <? _) with false
      by (symmetry; apply Z.ltb_ge; unfold buffer_len in *; lia).
    simpl. rewrite take_fill by lia.
    now destruct (write_to f _ (world st)).
  - replace (_ <? 0) with false by (symmetry; apply Z.ltb_ge; lia).
    replace (_ <? _) with false by (symmetry; apply Z.ltb_ge; lia).
    simpl. rewrite Nat2Z.id, take_fill, take_ge by lia.
    rewrite (wrap64_small (total st + _)) by lia.
    now destruct (write_to f (chunk ev) (world st)).
Qed.

(** After any iteration under a limit [m], the counter is at most [m],
    whatever it was before and whatever was read. *)
Lemma iteration_total_le (ev : read_event) (st st' : copy_state) (brk : bool) (m : Z) :
  MaxDownload args <> None -> MaxDownloadBytes args = m ->
  0 <= m <= max_int64 ->
  iteration args ev st = Done (st', brk) ->
  total st' <= m.
Proof.
  intros HM Hm Hrange. unfold iteration.
  destruct (fatal (rerr ev)); [discriminate|].
  rewrite Hm, (bool_decide_eq_true_2 _ HM). simpl.
  destruct (Z.leb_spec m (wrap64 (total st + Z.of_nat (length (chunk ev)))))
    as [Hle|Hgt].
  - destruct (_ || _); [discriminate|].
    destruct (Write _ _ _) as [[f w] [e|]]; [discriminate|].
    intros [= <- _]. simpl.
    rewrite wrap64_add_wrap.
    replace (total st + (m - total st)) with m by lia.
    rewrite wrap64_small; unfold min_int64; lia.
  - destruct (_ || _); [discriminate|].
    destruct (Write _ _ _) as [[f w] [e|]]; [discriminate|].
    intros [= <- _]. simpl. lia.
Qed.

Lemma copyStates_total_le (body : list read_event) (st : copy_state) (m : Z) :
  MaxDownload args <> None -> MaxDownloadBytes args = m ->
  0 <= m <= max_int64 ->
  Forall (fun s => total s <= m) (copyStates args body st).
Proof.
  intros HM Hm Hrange. revert st.
  induction body as [|ev rest IH]; intros st; simpl.
  - destruct (iteration args eof_read st) as [[st' brk]| |] eqn:E; [|constructor..].
    repeat constructor. eauto using iteration_total_le.
  - destruct (iteration args ev st) as [[st' brk]| |] eqn:E; [|constructor..].
    constructor; [eauto using iteration_total_le|].
    destruct brk; [constructor|apply IH].
Qed.

(** The state the loop ends in is the last of the states after its
    iterations. *)
Lemma copyLoop_last_state (body : list read_event) (st st' : copy_state) :
  copyLoop args body st = Done st' ->
  last (copyStates args body st) = Some st'.
Proof.
  revert st. induction body as [|ev rest IH]; intros st; simpl.
  - destruct (iteration args eof_read st) as [[s1 brk]| |]; simpl; [|discriminate..].
    now intros [= <-].
  - destruct (iteration args ev st) as [[s1 brk]| |]; simpl; [|discriminate..].
    destruct brk; [now intros [= <-]|].
    intros H. apply IH in H. rewrite last_cons, H. reflexivity.
Qed.

End CopyLoop.

Section CopyAll.

Variable args : Arguments.
Hypothesis no_limit : MaxDownload args = None.

(** With no limit the loop ends, for any body that keeps to the reader's
    contract and does not fail, having written the chunks of the body up
    to its end of stream. *)
Lemma copyLoop_unlimited (body : list read_event) (st : copy_state) (f : File) :
  reader_ok body ->
  Forall (fun ev => fatal (rerr ev) = None) body ->
  stream st = Some f ->
  exists st' cs,
    copyLoop args body st = Done st' /\
    (stream st', world st') = (Some (fst (write_all f cs (world st))),
                               snd (write_all f cs (world st))) /\
    concat cs = delivered body.
Proof.
  intros Hok Hnf. revert st f.
  induction body as [|ev rest IH]; intros st f Hs; simpl.
  - rewrite (iteration_unlimited args eof_read st f) by (auto; simpl; lia).
    simpl. exists (after st f eof_read 0 []), [[]]. simpl.
    now destruct (write_to f [] (world st)).
  - apply Forall_cons in Hok as [Hev Hok]. apply Forall_cons in Hnf as [Hfev Hnf].
    rewrite (iteration_unlimited args ev st f) by auto. simpl.
    destruct (is_EOF (rerr ev)).
    + eexists _, [chunk ev]. split; [reflexivity|]. simpl.
      destruct (write_to f (chunk ev) (world st)). now rewrite !app_nil_r.
    + destruct (IH Hok Hnf (after st f ev (Z.of_nat (length (chunk ev))) (chunk ev))
                  (fst (write_to f (chunk ev) (world st))) eq_refl)
        as (st' & cs & E & W & C).
      exists st', (chunk ev :: cs). split; [assumption|]. simpl.
      rewrite C. split; [|reflexivity].
      rewrite W. simpl. now destruct (write_to f (chunk ev) (world st)).
Qed.

End CopyAll.

(** The reads of [body_of] keep to the reader's contract, do not fail, and
    deliver the source. *)
Lemma full_reads_ok (fuel : nat) (eager : bool) (src : list byte) :
  reader_ok (full_reads fuel eager src) /\
  Forall (fun ev => fatal (rerr ev) = None) (full_reads fuel eager src).
Proof.
  revert src. induction fuel as [|fuel IH]; intros src; simpl.
  - split; constructor.
  - destruct src as [|b src]; [split; constructor|].
    destruct (IH (drop buffer_len (b :: src))) as [H1 H2].
    split; constructor; try assumption.
    + cbn [chunk]. rewrite length_take. lia.
    + cbn [rerr]. now destruct (eager && _).
Qed.

Lemma full_reads_delivered (fuel : nat) (eager : bool) (src : list byte) :
  (length src <= fuel)%nat ->
  delivered (full_reads fuel eager src) = src.
Proof.
  revert src. induction fuel as [|fuel IH]; intros src Hlen.
  - destruct src; [reflexivity|simpl in Hlen; lia].
  - destruct src as [|b src]; [reflexivity|].
    cbn [full_reads delivered chunk rerr].
    set (r := drop buffer_len (b :: src)).
    assert (Hr : (length r <= fuel)%nat).
    { subst r. rewrite length_drop. simpl in *. unfold buffer_len. lia. }
    destruct (eager && bool_decide (r = [])) eqn:E; cbn [is_EOF].
    + apply andb_prop in E as [_ E]. apply bool_decide_eq_true in E.
      rewrite app_nil_r. rewrite <- (take_drop buffer_len (b :: src)) at 2.
      fold r. now rewrite E, app_nil_r.
    + rewrite IH by assumption. apply take_drop.
Qed.

Lemma full_reads_nil (fuel : nat) (eager : bool) : full_reads fuel eager [] = [].
Proof. now destruct fuel. Qed.

Lemma full_reads_cons (fuel : nat) (eager : bool) (r : list byte) :
  r <> [] ->
  full_reads (S fuel) eager r =
    mkRead (take buffer_len r)
           (if eager && bool_decide (drop buffer_len r = []) then Some EOF else None)
    :: full_reads fuel eager (drop buffer_len r).
Proof. now destruct r. Qed.

Section CopyLimited.

Variables (args : Arguments) (m : Z) (eager : bool).
Hypothesis limit_set : MaxDownload args <> None.
Hypothesis limit_bytes : MaxDownloadBytes args = m.
Hypothesis limit_range : m <= max_int64.

(** At the end of the source the loop writes an empty chunk and ends. *)
Lemma copyLoop_limited_end (st : copy_state) (f : File) :
  stream st = Some f ->
  0 <= total st <= m ->
  exists st',
    copyLoop args [] st = Done st' /\
    (stream st', world st') = (Some (fst (write_all f [[]] (world st))),
                               snd (write_all f [[]] (world st))) /\
    total st' = total st.
Proof.
  intros Hs Ht. cbn [copyLoop].
  rewrite (iteration_limited args eof_read st f m) by (auto; simpl; lia).
  cbn [chunk eof_read length]. rewrite Z.add_0_r, take_nil.
  destruct (Z.leb_spec m (total st)) as [Hle|Hgt]; cbn [mbind outcome_bind Go.bind];
    (eexists; split; [reflexivity|]); cbn [after total stream world write_all];
    destruct (write_to f [] (world st)); (split; [reflexivity|]);
    rewrite wrap64_small by (unfold min_int64; lia); lia.
Qed.

(** Under a limit [m], from a counter that has not passed [m] and with
    [r] left of a source whose length fits [int64], the loop ends having
    written the first [m - total] bytes of [r] (all of [r] when it is
    shorter) in chunks of at most 1024 bytes, and the counter has grown by
    as much. *)
Lemma copyLoop_limited (fuel : nat) (r : list byte) (st : copy_state) (f : File) :
  (length r <= fuel)%nat ->
  stream st = Some f ->
  0 <= total st <= m ->
  total st + Z.of_nat (length r) <= max_int64 ->
  exists st' cs,
    copyLoop args (full_reads fuel eager r) st = Done st' /\
    (stream st', world st') = (Some (fst (write_all f cs (world st))),
                               snd (write_all f cs (world st))) /\
    concat cs = take (Z.to_nat (m - total st)) r /\
    Forall (fun c => (length c <= buffer_len)%nat) cs /\
    total st' = total st + Z.min (Z.of_nat (length r)) (m - total st).
Proof.
  revert r st f. induction fuel as [|fuel IH]; intros r st f Hlen Hs Ht Hsum.
  all: destruct (decide (r = [])) as [->|Hne].
  1, 3: rewrite full_reads_nil;
    destruct (copyLoop_limited_end st f Hs Ht) as (st' & E & W & T);
    exists st', [[]%list]; rewrite take_nil;
    repeat split; [assumption..|apply Forall_singleton; simpl; lia|simpl; lia].
  - destruct r; [contradiction|simpl in Hlen; lia].
  - rewrite full_reads_cons by assumption. cbn [copyLoop].
    set (c := take buffer_len r). set (r1 := drop buffer_len r).
    assert (Hc : length c = Nat.min buffer_len (length r)) by apply length_take.
    assert (Hr1 : length r1 = (length r - buffer_len)%nat) by apply length_drop.
    assert (Hpos : (0 < length r)%nat) by (destruct r; [contradiction|simpl; lia]).
    assert (Hbuf : buffer_len = 1024%nat) by reflexivity.
    rewrite (iteration_limited args _ st f m) by (auto; cbn [chunk rerr]; try lia;
      now destruct (eager && _)).
    cbn [chunk rerr].
    destruct (Z.leb_spec m (total st + Z.of_nat (length c))) as [Hle|Hgt];
      cbn [mbind outcome_bind Go.bind].
    + (* the limit is reached in this chunk *)
      eexists _, [take (Z.to_nat (m - total st)) c]. split; [reflexivity|].
      cbn [after total stream world write_all concat].
      destruct (write_to f _ (world st)). rewrite app_nil_r.
      repeat split.
      * subst c. rewrite take_take. f_equal. lia.
      * apply Forall_singleton. rewrite length_take. lia.
      * rewrite wrap64_small by (unfold min_int64; lia). lia.
    + destruct (eager && bool_decide (r1 = [])) eqn:E; cbn [is_EOF].
      * (* the source ends with this chunk *)
        apply andb_prop in E as [_ E]. apply bool_decide_eq_true in E.
        assert (length r1 = 0%nat) by now rewrite E.
        eexists _, [c]. split; [reflexivity|].
        cbn [after total stream world write_all concat].
        destruct (write_to f c (world st)). rewrite app_nil_r.
        repeat split.
        -- subst c. rewrite !take_ge by lia. reflexivity.
        -- apply Forall_singleton. lia.
        -- rewrite wrap64_small by (unfold min_int64; lia). lia.
      * (* on to the next read *)
        set (st1 := after st f _ _ c).
        assert (Ht1 : total st1 = total st + Z.of_nat (length c)).
        { subst st1. cbn [after total]. apply wrap64_small. unfold min_int64. lia. }
        destruct (IH r1 st1 (fst (write_to f c (world st)))) as (st' & cs & E1 & W & C & F & T).
        { lia. }
        { reflexivity. }
        { lia. }
        { lia. }
        exists st', (c :: cs). split; [assumption|].
        split; [|split; [|split]].
        -- rewrite W. subst st1. cbn [after world write_all].
           now destruct (write_to f c (world st)).
        -- cbn [concat]. rewrite C, Ht1. subst c r1.
           rewrite take_take_drop.
           destruct (decide (buffer_len <= length r)%nat).
           ++ f_equal. lia.
           ++ rewrite !take_ge by lia. reflexivity.
        -- constructor; [lia|assumption].
        -- rewrite T, Ht1. lia.
Qed.

End CopyLimited.

Section CounterAndBytes.

Variables (args : Arguments) (m : Z).
Hypothesis limit_set : MaxDownload args <> None.
Hypothesis limit_bytes : MaxDownloadBytes args = m.
Hypothesis limit_room : m + 1024 <= max_int64.

(** Under a limit with 1024 bytes of room below the largest [int64], an
    iteration adds to the counter the length of the chunk it writes. *)
Lemma iteration_counts (ev : read_event) (st st' : copy_state) (brk : bool) (f : File) :
  (length (chunk ev) <= buffer_len)%nat ->
  stream st = Some f ->
  0 <= total st <= m ->
  iteration args ev st = Done (st', brk) ->
  exists c f',
    stream st' = Some f' /\
    writes (world st') = (writes (world st) ++ [c])%list /\
    total st' = total st + Z.of_nat (length c) /\
    0 <= total st' <= m.
Proof.
  intros Hlen Hs Ht H. unfold buffer_len in Hlen.
  assert (Hf : fatal (rerr ev) = None).
  { unfold iteration in H. now destruct (fatal (rerr ev)). }
  rewrite (iteration_limited args ev st f m) in H
    by (auto; unfold buffer_len; lia).
  assert (Hmin : min_int64 <= 0) by (unfold min_int64; lia).
  destruct (Z.leb_spec m (total st + Z.of_nat (length (chunk ev)))) as [Hle|Hgt];
    injection H as <- _; cbn [after stream world total];
    eexists _, _; (split; [reflexivity|]); (split; [now destruct f|]).
  - rewrite length_take, wrap64_small by lia. lia.
  - rewrite wrap64_small by lia. lia.
Qed.

(** So after every iteration the counter is the number of bytes written
    since the loop began, and that number is at most the limit. *)
Lemma copyStates_written_le (body : list read_event) (st : copy_state) (f : File) :
  reader_ok body ->
  stream st = Some f ->
  0 <= total st <= m ->
  Forall (fun s =>
            total s = total st + Z.of_nat (length (written (world st) (world s))) /\
            total s <= m)
         (copyStates args body st).
Proof.
  intros Hok Hs Ht.
  cut (Forall (fun s => exists cs,
                 writes (world s) = (writes (world st) ++ cs)%list /\
                 total s = total st + Z.of_nat (length (concat cs)) /\
                 total s <= m)
              (copyStates args body st)).
  { intros H. eapply Forall_impl; [exact H|].
    intros s (cs & W & T & M). unfold written.
    now rewrite W, drop_app_length. }
  revert st f Hs Ht.
  induction body as [|ev rest IH]; intros st f Hs Ht; cbn [copyStates].
  - destruct (iteration args eof_read st) as [[s1 brk]| |] eqn:E; [|constructor..].
    destruct (iteration_counts eof_read st s1 brk f) as (c & f' & Hs1 & W & T & R);
      auto; [simpl; lia|].
    apply Forall_singleton. exists [c]. simpl. rewrite app_nil_r. repeat split; auto; lia.
  - apply Forall_cons in Hok as [Hev Hok].
    destruct (iteration args ev st) as [[s1 brk]| |] eqn:E; [|constructor..].
    destruct (iteration_counts ev st s1 brk f) as (c & f' & Hs1 & W & T & R); auto.
    constructor.
    { exists [c]. simpl. rewrite app_nil_r. repeat split; auto; lia. }
    destruct brk; [constructor|].
    eapply Forall_impl; [exact (IH Hok s1 f' Hs1 R)|].
    intros s (cs & Ws & Ts & Ms). exists (c :: cs). simpl.
    rewrite Ws, W, <- app_assoc, length_app. repeat split; auto; lia.
Qed.

End CounterAndBytes.

(** What a run of writes leaves in the output. *)
Lemma write_all_received (f : File) (cs : list (list byte)) (w : World) :
  received f (concat cs) w (snd (write_all f cs w)).
Proof.
  split.
  - intros ->. rewrite stdout_write_all. cbn [snd stdout files]. auto.
  - intros name old -> Hold.
    destruct (file_write_all name 0 cs w old Hold) as (_ & F & S); [lia|].
    rewrite F, S, lookup_insert_eq, write_at_0. repeat split.
    + intros Hlen. now rewrite drop_ge, app_nil_r.
    + intros other Hne. now rewrite lookup_insert_ne by congruence.
Qed.

Lemma body_of_ok (eager : bool) (src : list byte) :
  reader_ok (body_of eager src) /\
  Forall (fun ev => fatal (rerr ev) = None) (body_of eager src) /\
  delivered (body_of eager src) = src.
Proof.
  unfold body_of. destruct (full_reads_ok (length src) eager src).
  auto using full_reads_delivered.
Qed.

(** C2: under a maximum download of [m >= 0] bytes, on a source of [s]
    bytes (a length that fits [int64]) read in full 1024-byte buffers, the
    loop ends and the output has received the first [min(s, m)] bytes of
    the source and nothing more: standard output holds them after what it
    held, an output file open at its start holds them from its start.
    They were written in chunks of 0 to 1024 bytes each, and the counter
    stands at [min(s, m)]. *)
Theorem C2_limited_copy_writes_min (args : Arguments) (eager : bool)
    (src : list byte) (f : File) (w : World) (m : Z) :
  MaxDownload args <> None -> MaxDownloadBytes args = m ->
  OutputStream args = Some f ->
  0 <= m <= max_int64 ->
  Z.of_nat (length src) <= max_int64 ->
  exists st' cs,
    copyLoop args (body_of eager src) (copy_init args w) = Done st' /\
    received f (take (Z.to_nat m) src) w (world st') /\
    Z.of_nat (length (take (Z.to_nat m) src)) = Z.min (Z.of_nat (length src)) m /\
    writes (world st') = (writes w ++ cs)%list /\
    concat cs = take (Z.to_nat m) src /\
    Forall (fun c => 0 <= Z.of_nat (length c) <= 1024) cs /\
    total st' = Z.min (Z.of_nat (length src)) m.
Proof.
  intros HM Hm Hf Hrange Hsrc.
  destruct (copyLoop_limited args m eager HM Hm (proj2 Hrange) (length src) src
              (copy_init args w) f) as (st' & cs & E & W & C & F & T);
    try (cbn [copy_init total stream]; auto; lia).
  cbn [copy_init total world] in *. rewrite Z.sub_0_r in C. rewrite Z.add_0_l, Z.sub_0_r in T.
  exists st', cs. injection W as _ ->.
  split; [assumption|]. split; [rewrite <- C; apply write_all_received|].
  split; [rewrite length_take; lia|]. split; [apply writes_write_all|].
  split; [assumption|]. split; [|assumption].
  eapply Forall_impl; [exact F|]. intros c Hc. unfold buffer_len in Hc. simpl. lia.
Qed.

(** A limit of 2000 bytes against a source of 5000 bytes: standard output
    receives the first 2000 bytes of the source. *)
Lemma C2_limit_2000_source_5000 :
  exists st' cs,
    copyLoop limit_2000_flags (body_of false source_5000)
      (copy_init limit_2000_flags empty_world) = Done st' /\
    received Stdout (take (Z.to_nat 2000) source_5000) empty_world (world st') /\
    Z.of_nat (length (take (Z.to_nat 2000) source_5000)) =
      Z.min (Z.of_nat (length source_5000)) 2000 /\
    writes (world st') = (writes empty_world ++ cs)%list /\
    concat cs = take (Z.to_nat 2000) source_5000 /\
    Forall (fun c => 0 <= Z.of_nat (length c) <= 1024) cs /\
    total st' = Z.min (Z.of_nat (length source_5000)) 2000.
Proof.
  apply (C2_limited_copy_writes_min limit_2000_flags false source_5000 Stdout
           empty_world 2000);
    [discriminate | reflexivity | reflexivity | unfold max_int64; lia | vm_compute; discriminate].
Defined.

(** The same run on its output: standard output holds the first 2000
    bytes of the source and nothing else, and no file exists. *)
Example limited_copy_example :
  exists st',
    copyLoop limit_2000_flags (body_of false source_5000)
      (copy_init limit_2000_flags empty_world) = Done st' /\
    stdout (world st') = replicate 2000 Byte.x41 /\
    files (world st') = ∅.
Proof.
  assert (HM : MaxDownload limit_2000_flags <> None) by discriminate.
  assert (Hr : 2000 <= max_int64) by (unfold max_int64; lia).
  destruct (copyLoop_limited limit_2000_flags 2000 false HM eq_refl Hr
              (length source_5000) source_5000
              (copy_init limit_2000_flags empty_world) Stdout)
    as (st' & cs & E & W & C & F & T);
    try (cbn [copy_init total stream]; auto; lia);
    try (vm_compute; discriminate).
  exists st'. split; [exact E|].
  cbn [copy_init world] in W. injection W as _ ->.
  destruct (write_all_received Stdout cs empty_world) as [R _].
  destruct (R eq_refl) as [-> ->]. rewrite C. split; reflexivity.
Qed.

(** C7: with no maximum download, the loop copies the whole body to the
    output: for any body that keeps to the reader's contract and does not
    fail, it ends and the output has received the bytes the body delivered
    up to its end of stream, all of them and in order; for a source read
    in full buffers these are the bytes of the source.  Standard output
    then holds them after what it held; an output file open at its start
    holds them from its start, and holds exactly them when it was created
    for this run or was no longer than they are. *)
Theorem C7_unlimited_copy_is_identity (args : Arguments) (f : File) (w : World) :
  MaxDownload args = None ->
  OutputStream args = Some f ->
  (forall body,
     reader_ok body -> Forall (fun ev => fatal (rerr ev) = None) body ->
     exists st' cs,
       copyLoop args body (copy_init args w) = Done st' /\
       received f (delivered body) w (world st') /\
       writes (world st') = (writes w ++ cs)%list /\
       concat cs = delivered body) /\
  (forall eager src,
     exists st' cs,
       copyLoop args (body_of eager src) (copy_init args w) = Done st' /\
       received f src w (world st') /\
       writes (world st') = (writes w ++ cs)%list /\
       concat cs = src).
Proof.
  intros HM Hf. split.
  - intros body Hok Hnf.
    destruct (copyLoop_unlimited args HM body (copy_init args w) f Hok Hnf Hf)
      as (st' & cs & E & W & C).
    exists st', cs. injection W as _ ->. cbn [copy_init world].
    split; [assumption|]. split; [rewrite <- C; apply write_all_received|].
    auto using writes_write_all.
  - intros eager src. destruct (body_of_ok eager src) as (Hok & Hnf & Hd).
    destruct (copyLoop_unlimited args HM _ (copy_init args w) f Hok Hnf Hf)
      as (st' & cs & E & W & C).
    exists st', cs. injection W as _ ->. cbn [copy_init world].
    rewrite Hd in C.
    split; [assumption|]. split; [rewrite <- C; apply write_all_received|].
    auto using writes_write_all.
Qed.

(** A source of 5000 bytes copied to the output file [out.txt], created
    for this run: the file holds the 5000 bytes. *)
Lemma C7_unlimited_copy_witness :
  exists st' cs,
    copyLoop new_file_flags (body_of true source_5000)
      (copy_init new_file_flags new_file_world) = Done st' /\
    received (Opened "out.txt" 0) source_5000 new_file_world (world st') /\
    writes (world st') = (writes new_file_world ++ cs)%list /\
    concat cs = source_5000.
Proof.
  exact (proj2 (C7_unlimited_copy_is_identity new_file_flags (Opened "out.txt" 0)
                  new_file_world eq_refl eq_refl) true source_5000).
Defined.

(** The same source copied to standard output: it receives the 5000
    bytes; and in the file of the run above the 5000 bytes are all there
    is. *)
Example unlimited_copy_examples :
  (exists st',
     copyLoop (set_OutputStream (Some Stdout) example_flags) (body_of true source_5000)
       (copy_init (set_OutputStream (Some Stdout) example_flags) empty_world) = Done st' /\
     stdout (world st') = source_5000) /\
  (exists st',
     copyLoop new_file_flags (body_of true source_5000)
       (copy_init new_file_flags new_file_world) = Done st' /\
     files (world st') !! "out.txt" = Some source_5000).
Proof.
  destruct (body_of_ok true source_5000) as (Hok & Hnf & Hd). split.
  - destruct (copyLoop_unlimited (set_OutputStream (Some Stdout) example_flags) eq_refl _
                (copy_init (set_OutputStream (Some Stdout) example_flags) empty_world)
                Stdout Hok Hnf eq_refl) as (st' & cs & E & W & C).
    exists st'. split; [exact E|]. injection W as _ ->. rewrite Hd in C.
    destruct (write_all_received Stdout cs empty_world) as [R _].
    cbn [copy_init world]. destruct (R eq_refl) as [-> _]. now rewrite C.
  - destruct (copyLoop_unlimited new_file_flags eq_refl _
                (copy_init new_file_flags new_file_world)
                (Opened "out.txt" 0) Hok Hnf eq_refl) as (st' & cs & E & W & C).
    exists st'. split; [exact E|]. injection W as _ ->. rewrite Hd in C.
    destruct (write_all_received (Opened "out.txt" 0) cs new_file_world) as [_ R].
    cbn [copy_init world].
    destruct (R "out.txt" [] eq_refl) as (_ & H & _); [reflexivity|].
    rewrite H by (simpl; lia). now rewrite C.
Qed.

(** C10: under a maximum download of [m >= 0] bytes, after every iteration
    of the loop the counter [total] is at most [m], for any body, whatever
    its reads return, and from any state; so it is in the state the loop
    ends in. *)
Theorem C10_counter_never_exceeds_limit (args : Arguments)
    (body : list read_event) (st : copy_state) (m : Z) :
  MaxDownload args <> None -> MaxDownloadBytes args = m ->
  0 <= m <= max_int64 ->
  Forall (fun s => total s <= m) (copyStates args body st) /\
  (forall st', copyLoop args body st = Done st' -> total st' <= m).
Proof.
  intros HM Hm Hrange.
  pose proof (copyStates_total_le args body st m HM Hm Hrange) as H.
  split; [assumption|]. intros st' E.
  apply copyLoop_last_state in E. apply last_Some in E as [l E].
  rewrite E in H. apply Forall_app in H as [_ H].
  now inversion_clear H.
Qed.

(** The counter under a limit of 2000 bytes against 5000 bytes. *)
Lemma C10_counter_witness :
  Forall (fun s => total s <= 2000)
    (copyStates limit_2000_flags (body_of false source_5000)
       (copy_init limit_2000_flags empty_world)) /\
  (forall st',
     copyLoop limit_2000_flags (body_of false source_5000)
       (copy_init limit_2000_flags empty_world) = Done st' -> total st' <= 2000).
Proof.
  apply C10_counter_never_exceeds_limit;
    [discriminate | reflexivity | unfold max_int64; lia].
Defined.

(** ** Content type *)

Section JsonScanner.

Import Json.

(** Case analysis on a scanner step: split every test in the goal. *)
Ltac split_tests :=
  repeat match goal with
  | |- context [if ?b then _ else _] => destruct b eqn:?
  | |- context [match ?x with _ => _ end] => destruct x eqn:?
  end.

Ltac unfold_steps :=
  unfold do_step, do_stateBeginValueOrEmpty, do_stateBeginStringOrEmpty,
    do_stateBeginValue, do_stateBeginString, do_stateInString, do_stateInStringEsc,
    do_hex, do_stateNeg, do_state1, do_state0, do_stateDot, do_stateDot0, do_stateE,
    do_stateESign, do_stateE0, do_letter, do_stateEndValue, do_stateEndTop,
    pushParseState, popParseState, error, set_top, set_step.

(** Each step keeps the scanner as [kept] says. *)
Lemma do_step_keeps (s : scanner) (c : ascii) :
  err s = false -> endTop s = false -> kept (do_step s c).
Proof.
  destruct s as [st et ps er]. cbn [err endTop]. intros -> ->.
  destruct st; unfold_steps; cbn [step endTop parseState err];
    split_tests; unfold kept; cbn [fst snd step endTop parseState err];
    try exact I; try (split; reflexivity).
  all: split; [reflexivity|].
  all: first [ left; split; reflexivity
             | right; repeat split; [reflexivity..|discriminate] ].
Qed.

(** On a space byte, a scanner that has not seen the end of the top-level
    value sees it only by reporting it. *)
Lemma do_step_space_end (s : scanner) :
  endTop s = false ->
  endTop (fst (do_step s " ")) = true ->
  is_scanEnd (do_step s " ") = true.
Proof.
  destruct s as [st et ps er]. cbn [endTop]. intros ->.
  destruct st; unfold_steps; cbn [step endTop parseState err];
    unfold isSpace, isHex, Bytes.is_digit, Bytes.between, Bytes.contains_byte;
    cbn -[Z.of_nat]; split_tests; cbn; congruence.
Qed.

(** Whatever [json.Valid] accepts from a state, the decoder's read of one
    value from that state succeeds. *)
Lemma readValue_of_scan_all (data : string) (s s' : scanner) (n : nat) :
  err s = false -> endTop s = false ->
  scan_all s data = Some s' ->
  eof s' <> scanError ->
  exists k, readValue s n data = Some k.
Proof.
  revert s n. induction data as [|c r IH]; intros s n Herr Htop Hscan Heof.
  - injection Hscan as <-. cbn [readValue].
    unfold eof in Heof. rewrite Herr, Htop in Heof.
    destruct (endTop (fst (do_step s " "))) eqn:E; [|contradiction].
    rewrite (do_step_space_end s Htop E). eauto.
  - cbn [readValue scan_all] in *.
    pose proof (do_step_keeps s c Herr Htop) as K. unfold kept in K.
    destruct (do_step s c) as [s1 code]. cbn [fst snd] in K.
    destruct code; try discriminate; try (destruct K; eauto).
    + (* scanEndObject *)
      destruct H0 as [[Ht Hp]|(Ht & Hst & Hp)].
      * unfold do_stateEndValue. rewrite Hp. cbn. eauto.
      * destruct s1 as [st1 et1 [|p ps] er1]; [contradiction|].
        cbn in Hst, Ht, H. subst. unfold do_stateEndValue. cbn.
        apply IH with (s := mkScanner stateEndValue false (p :: ps) false); auto.
    + (* scanEndArray *)
      destruct H0 as [[Ht Hp]|(Ht & Hst & Hp)].
      * unfold do_stateEndValue. rewrite Hp. cbn. eauto.
      * destruct s1 as [st1 et1 [|p ps] er1]; [contradiction|].
        cbn in Hst, Ht, H. subst. unfold do_stateEndValue. cbn.
        apply IH with (s := mkScanner stateEndValue false (p :: ps) false); auto.
Qed.

(** Every string that is one JSON value is decoded without error. *)
Lemma decode_ok_of_Valid (data : string) :
  Valid data = true -> decode_ok data = true.
Proof.
  unfold Valid, decode_ok. destruct (scan_all reset data) as [s'|] eqn:E; [|discriminate].
  intros H.
  destruct (readValue_of_scan_all data reset s' 0 eq_refl eq_refl E) as [k ->];
    [|reflexivity].
  intros Heof. now rewrite Heof in H.
Qed.

End JsonScanner.

Section NumberPrefix.

Import Json.

Lemma first_digit_step (d : ascii) :
  Bytes.between "1" "9" d = true ->
  do_step reset d = (mkScanner state1 false [] false, scanBeginLiteral).
Proof.
  destruct d as [[] [] [] [] [] [] [] []]; intros H;
    try (vm_compute in H; discriminate H); reflexivity.
Qed.

Lemma digit_step (d : ascii) :
  Bytes.is_digit d = true ->
  do_step (mkScanner state1 false [] false) d =
    (mkScanner state1 false [] false, scanContinue).
Proof.
  intros H. unfold do_step, do_state1. cbn [step]. now rewrite H.
Qed.

Lemma number_end_step (c : ascii) :
  Bytes.is_digit c = false -> c <> "."%char -> c <> "e"%char -> c <> "E"%char ->
  snd (do_step (mkScanner state1 false [] false) c) = scanEnd.
Proof.
  intros H Hdot He HE. unfold do_step, do_state1, do_state0, do_stateEndValue, do_stateEndTop.
  cbn [step parseState]. rewrite H.
  destruct (Ascii.eqb_spec c "."); [contradiction|].
  destruct (Ascii.eqb_spec c "e"); [contradiction|].
  destruct (Ascii.eqb_spec c "E"); [contradiction|].
  cbn [orb]. now destruct (negb (isSpace c)).
Qed.

(** A byte that ends the number and is not white space leaves the scanner
    with an error for the next byte or the end of the input. *)
Lemma number_junk_step (c : ascii) :
  Bytes.is_digit c = false -> c <> "."%char -> c <> "e"%char -> c <> "E"%char ->
  isSpace c = false ->
  do_step (mkScanner state1 false [] false) c =
    (mkScanner stateError true [] true, scanEnd).
Proof.
  intros H Hdot He HE Hs.
  unfold do_step, do_state1, do_state0, do_stateEndValue, do_stateEndTop, error.
  cbn [step parseState err endTop]. rewrite H.
  destruct (Ascii.eqb_spec c "."); [contradiction|].
  destruct (Ascii.eqb_spec c "e"); [contradiction|].
  destruct (Ascii.eqb_spec c "E"); [contradiction|].
  cbn [orb]. rewrite Hs. reflexivity.
Qed.

(** The decoder reads the number and stops at the byte that ends it. *)
Lemma readValue_digits (ds rest : string) (c : ascii) (n : nat) :
  all_digits ds = true ->
  Bytes.is_digit c = false -> c <> "."%char -> c <> "e"%char -> c <> "E"%char ->
  readValue (mkScanner state1 false [] false) n (ds +:+ String c rest) =
    Some (n + String.length ds)%nat.
Proof.
  intros Hd Hc Hdot He HE. revert n. induction ds as [|d ds IH]; intros n.
  - rewrite app_nil. cbn [readValue String.length].
    pose proof (number_end_step c Hc Hdot He HE) as S.
    destruct (do_step _ c) as [s' code]. cbn [snd] in S. subst code.
    now rewrite Nat.add_0_r.
  - cbn [all_digits] in Hd. apply andb_true_iff in Hd as [Hd1 Hd2].
    rewrite app_cons. cbn [readValue]. rewrite (digit_step d Hd1).
    rewrite (IH Hd2). cbn [String.length]. f_equal. lia.
Qed.

Lemma decode_ok_number (d : ascii) (ds rest : string) (c : ascii) :
  Bytes.between "1" "9" d = true -> all_digits ds = true ->
  Bytes.is_digit c = false -> c <> "."%char -> c <> "e"%char -> c <> "E"%char ->
  decode_ok (String d ds +:+ String c rest) = true.
Proof.
  intros H1 Hd Hc Hdot He HE. unfold decode_ok. rewrite app_cons.
  cbn [readValue]. rewrite (first_digit_step d H1).
  now rewrite (readValue_digits ds rest c 1 Hd Hc Hdot He HE).
Qed.

(** The check of the whole input fails at that byte. *)
Lemma valid_from_number_junk (ds rest : string) (c : ascii) :
  all_digits ds = true ->
  Bytes.is_digit c = false -> c <> "."%char -> c <> "e"%char -> c <> "E"%char ->
  isSpace c = false ->
  valid_from (mkScanner state1 false [] false) (ds +:+ String c rest) = false.
Proof.
  intros Hd Hc Hdot He HE Hs. induction ds as [|d ds IH].
  - rewrite app_nil. unfold valid_from. cbn [scan_all].
    rewrite (number_junk_step c Hc Hdot He HE Hs). now destruct rest.
  - cbn [all_digits] in Hd. apply andb_true_iff in Hd as [Hd1 Hd2].
    rewrite app_cons. unfold valid_from. cbn [scan_all]. rewrite (digit_step d Hd1).
    exact (IH Hd2).
Qed.

Lemma Valid_number_junk (d : ascii) (ds rest : string) (c : ascii) :
  Bytes.between "1" "9" d = true -> all_digits ds = true ->
  Bytes.is_digit c = false -> c <> "."%char -> c <> "e"%char -> c <> "E"%char ->
  isSpace c = false ->
  Valid (String d ds +:+ String c rest) = false.
Proof.
  intros H1 Hd Hc Hdot He HE Hs. unfold Valid. rewrite app_cons.
  cbn [scan_all]. rewrite (first_digit_step d H1).
  exact (valid_from_number_junk ds rest c Hd Hc Hdot He HE Hs).
Qed.

End NumberPrefix.

(** C5: form data is typed as JSON.  Every string that is one JSON value
    gets [application/json], as the claim says.  But the JSON test is made
    with a decoder that reads a first value and stops: [1=2] and
    [10=ten&20=twenty] are not JSON values and match the form pattern, and
    they get [application/json], not the form type.  So does every string
    made of a number that begins with a digit from 1 to 9 and of a byte
    that does not go on with the number and is not white space, whatever
    follows: none of them is a JSON value.  And [a=-], a key and a value,
    is no JSON and gets no content type: the pattern asks for a word byte
    next to the end of the value. *)
Theorem C5_form_data_typed_as_json :
  (forall data, Json.Valid data = true ->
     guessDataType data = ("application/json", true)) /\
  (Json.Valid "1=2" = false /\
   Regexp.Match Regexp.form_pattern "1=2" = true /\
   guessDataType "1=2" = ("application/json", true)) /\
  (Json.Valid "10=ten&20=twenty" = false /\
   Regexp.Match Regexp.form_pattern "10=ten&20=twenty" = true /\
   guessDataType "10=ten&20=twenty" = ("application/json", true)) /\
  (forall d ds c rest,
     Bytes.between "1" "9" d = true -> all_digits ds = true ->
     Bytes.is_digit c = false -> c <> "."%char -> c <> "e"%char -> c <> "E"%char ->
     Json.isSpace c = false ->
     Json.Valid (String d ds +:+ String c rest) = false /\
     guessDataType (String d ds +:+ String c rest) = ("application/json", true)) /\
  (Json.decode_ok "a=-" = false /\ guessDataType "a=-" = (EmptyString, false)).
Proof.
  split; [|split; [|split; [|split]]].
  - intros data H. unfold guessDataType. now rewrite (decode_ok_of_Valid data H).
  - repeat split; vm_compute; reflexivity.
  - repeat split; vm_compute; reflexivity.
  - intros d ds c rest H1 Hd Hc Hdot He HE Hs. split.
    + now apply Valid_number_junk.
    + unfold guessDataType.
      now rewrite (decode_ok_number d ds rest c H1 Hd Hc Hdot He HE).
  - split; vm_compute; reflexivity.
Qed.

(** The three kinds of body on examples. *)
Example guessDataType_examples :
  guessDataType json_object_example = ("application/json", true) /\
  guessDataType "a=1&b=2" = ("application/x-www-form-urlencoded", true) /\
  guessDataType "hello" = (EmptyString, false) /\
  guessDataType EmptyString = (EmptyString, false).
Proof. repeat split; vm_compute; reflexivity. Qed.

(** ** The output destination *)

Section Output.

Variables (args : Arguments) (res : Response).
Hypothesis no_output_file : OutputFile args = None.
Hypothesis remote_name : UseRemoteName args = true.

(** With [-O], a [Content-Disposition] header that the pattern matches
    names the file. *)
Lemma resolveOutput_disposition (name : string) :
  ContentDisposition res <> EmptyString ->
  Regexp.FindStringSubmatch1 Regexp.filename_pattern (ContentDisposition res) = Some name ->
  OutputFile (resolveOutput args res) = Some name.
Proof.
  intros Hd Hm. unfold resolveOutput. rewrite no_output_file, remote_name, Hm.
  destruct (String.eqb_spec (ContentDisposition res) EmptyString); [contradiction|].
  reflexivity.
Qed.

(** With [-O] and no [Content-Disposition] header, the last element of the
    URL names the file. *)
Lemma resolveOutput_no_header :
  ContentDisposition res = EmptyString ->
  OutputFile (resolveOutput args res) = Some (Path.Base (URL args)).
Proof.
  intros Hd. unfold resolveOutput. rewrite no_output_file, remote_name, Hd.
  reflexivity.
Qed.

(** With [-O] and a [Content-Disposition] header that the pattern does not
    match, nothing names a file and no stream is set: the arguments stay as
    they were. *)
Lemma resolveOutput_no_match :
  ContentDisposition res <> EmptyString ->
  Regexp.FindStringSubmatch1 Regexp.filename_pattern (ContentDisposition res) = None ->
  resolveOutput args res = args.
Proof.
  intros Hd Hm. unfold resolveOutput. rewrite no_output_file, remote_name, Hm.
  destruct (String.eqb_spec (ContentDisposition res) EmptyString); [contradiction|].
  reflexivity.
Qed.

End Output.

(** C4: no fallback when the header is there and does not match.  With
    [-O] and the response header [Content-Disposition: inline] the file
    name is not taken from the URL: no file name and no output stream are
    set, and the first write of the copy loop panics.  Without the header
    the name is the last element of the URL, and with
    [filename=report.csv] in it the name is [report.csv]. *)
Theorem C4_no_fallback_when_header_does_not_match :
  OutputFile (resolveOutput remote_name_flags (mkResponse "inline" [])) = None /\
  OutputStream (resolveOutput remote_name_flags (mkResponse "inline" [])) = None /\
  respond remote_name_flags
    (mkResponse "inline" (body_of true (list_byte_of_string "data")))
    empty_world = Panicked (PanicErr ErrInvalid) /\
  OutputFile (resolveOutput remote_name_flags (mkResponse EmptyString [])) =
    Some "a.txt" /\
  OutputFile (resolveOutput remote_name_flags
                (mkResponse "attachment; filename=report.csv" [])) =
    Some "report.csv".
Proof. repeat split; vm_compute; reflexivity. Qed.

(** A quoted file name keeps its closing quote: the group [(.+)] takes all
    that is left of the line. *)
Example filename_quoted_keeps_closing_quote :
  Regexp.FindStringSubmatch1 Regexp.filename_pattern
    ("attachment; filename=" +:+ String Bytes.dquote "report.csv" +:+
     String Bytes.dquote EmptyString) =
  Some ("report.csv" +:+ String Bytes.dquote EmptyString).
Proof. vm_compute. reflexivity. Qed.

Section OutputFile.

Variable args : Arguments.

Lemma iteration_writes (ev : read_event) (st st' : copy_state) (brk : bool) (f : File) :
  stream st = Some f ->
  iteration args ev st = Done (st', brk) ->
  exists c, (stream st', world st') =
            (Some (fst (write_to f c (world st))), snd (write_to f c (world st))).
Proof.
  intros Hs. unfold iteration. destruct (fatal (rerr ev)); [discriminate|].
  destruct (_ && _); (destruct (_ || _); [discriminate|]); rewrite Hs; cbn [Write].
  all: match goal with |- context [write_to ?g ?c ?w] =>
         destruct (write_to g c w) eqn:E; intros [= <- _]; exists c; now rewrite E end.
Qed.

(** Whatever the loop does, when it ends it has written some chunks to the
    stream it started with. *)
Lemma copyLoop_writes (body : list read_event) (st st' : copy_state) (f : File) :
  stream st = Some f ->
  copyLoop args body st = Done st' ->
  exists cs, (stream st', world st') =
             (Some (fst (write_all f cs (world st))), snd (write_all f cs (world st))).
Proof.
  revert st f. induction body as [|ev rest IH]; intros st f Hs H; cbn [copyLoop] in H.
  - bind_inv H. destruct a as [s1 brk]. injection H as <-.
    destruct (iteration_writes _ _ _ _ _ Hs Ha) as [c E].
    exists [c]. rewrite E. cbn [write_all]. now destruct (write_to f c (world st)).
  - bind_inv H. destruct a as [s1 brk].
    destruct (iteration_writes _ _ _ _ _ Hs Ha) as [c E].
    destruct brk.
    + injection H as <-. exists [c]. rewrite E. cbn [write_all].
      now destruct (write_to f c (world st)).
    + injection E as E1 E2.
      destruct (IH s1 _ E1 H) as [cs E']. exists (c :: cs).
      rewrite E', E2. cbn [write_all]. now destruct (write_to f c (world st)).
Qed.

End OutputFile.

(** C8: the output file is not truncated.  [os.OpenFile] is called with
    [O_CREATE|O_WRONLY] only, so the file is created when it is missing
    and is left as it is when it exists: there are no create-and-truncate
    semantics.  After a run that ends, the file holds the bytes
    written from this response followed by what it held before beyond their
    length; it holds exactly the bytes written when it did not exist or was
    no longer than them.  No other file changes. *)
Theorem C8_output_file_overwritten_not_truncated (args args' : Arguments)
    (res : Response) (w w' : World) (name : string) :
  respond args res w = Done (args', w') ->
  OutputFile args' = Some name ->
  files w' !! name =
    Some (written w w' ++ drop (length (written w w')) (default [] (files w !! name)))%list /\
  ((length (default [] (files w !! name)) <= length (written w w'))%nat ->
   files w' !! name = Some (written w w')) /\
  (forall other, other <> name -> files w' !! other = files w !! other).
Proof.
  intros H Hname. unfold respond in H.
  apply bind_Done in H as ([a1 w1] & Hopen & H).
  apply bind_Done in H as (st & Hloop & H). injection H as <- <-.
  unfold openOutput in Hopen.
  destruct (OutputFile (resolveOutput args res)) as [n|] eqn:Hn.
  2: { injection Hopen as <- <-. congruence. }
  unfold OpenFile in Hopen. destruct (decide (n ∈ denied w)); [discriminate|].
  cbn in Hopen. injection Hopen as <- <-. cbn [OutputFile set_OutputStream] in Hname.
  assert (n = name) as -> by congruence.
  eapply copyLoop_writes in Hloop as [cs E]; [|reflexivity].
  injection E as _ E. cbn [copy_init world] in E.
  set (old := default [] (files w !! name)) in *.
  set (w1 := mkWorld _ _ _ _) in E.
  destruct (file_write_all name 0 cs w1 old) as (_ & F & _);
    [apply lookup_insert_eq | lia |].
  assert (W : written w (world st) = concat cs).
  { unfold written. rewrite E, writes_write_all. subst w1. cbn [writes].
    now rewrite drop_app_length. }
  assert (L : files (world st) !! name =
              Some (concat cs ++ drop (length (concat cs)) old)%list).
  { rewrite E, F, lookup_insert_eq, write_at_0. reflexivity. }
  rewrite W. repeat split.
  - exact L.
  - intros Hlen. rewrite L, drop_ge, app_nil_r by assumption. reflexivity.
  - intros other Hne. rewrite E, F. subst w1. cbn [files].
    now rewrite !lookup_insert_ne by congruence.
Qed.

(** The run of [-o out.txt] over an existing file. *)
Lemma C8_output_file_witness :
  files (snd (existing_file_run)) !! "out.txt" =
    Some (written existing_file_world (snd existing_file_run) ++
          drop (length (written existing_file_world (snd existing_file_run)))
            (default [] (files existing_file_world !! "out.txt")))%list /\
  ((length (default [] (files existing_file_world !! "out.txt")) <=
    length (written existing_file_world (snd existing_file_run)))%nat ->
   files (snd existing_file_run) !! "out.txt" =
     Some (written existing_file_world (snd existing_file_run))) /\
  (forall other, other <> "out.txt" ->
     files (snd existing_file_run) !! other = files existing_file_world !! other).
Proof.
  apply (C8_output_file_overwritten_not_truncated output_file_flags
           (fst existing_file_run) short_response).
  - unfold existing_file_run.
    destruct (respond output_file_flags short_response existing_file_world)
      as [[a w']|p|c] eqn:E; [reflexivity|vm_compute in E; discriminate..].
  - vm_compute. reflexivity.
Defined.

(** A file that held [abcdef] holds [xycdef] after a response of [xy] was
    written to it: the two bytes written and the old tail, not the bytes
    written alone. *)
Lemma C8_old_tail_remains_counterexample :
  respond output_file_flags short_response existing_file_world = Done existing_file_run /\
  written existing_file_world (snd existing_file_run) = list_byte_of_string "xy" /\
  files (snd existing_file_run) !! "out.txt" = Some (list_byte_of_string "xycdef") /\
  files (snd existing_file_run) !! "out.txt" <>
    Some (written existing_file_world (snd existing_file_run)).
Proof.
  split; [|repeat split; try (vm_compute; reflexivity)].
  - unfold existing_file_run.
    destruct (respond output_file_flags short_response existing_file_world)
      as [[a w']|p|c] eqn:E; [reflexivity|vm_compute in E; discriminate..].
  - intros H. vm_compute in H. discriminate.
Qed.

(** * Further properties *)

(** ** The copy loop, for any reader *)

Section CopyLimitedAny.

Variables (args : Arguments) (m : Z).
Hypothesis limit_set : MaxDownload args <> None.
Hypothesis limit_bytes : MaxDownloadBytes args = m.
Hypothesis limit_range : m <= max_int64.

(** Under a limit [m], whatever the sizes of the reads: from a counter
    that has not passed [m], the loop ends having written the first
    [m - total] bytes the body delivers (all of them when they are
    fewer). *)
Lemma copyLoop_limited_any (body : list read_event) (st : copy_state) (f : File) :
  reader_ok body ->
  Forall (fun ev => fatal (rerr ev) = None) body ->
  stream st = Some f ->
  0 <= total st <= m ->
  total st + Z.of_nat (length (delivered body)) <= max_int64 ->
  exists st' cs,
    copyLoop args body st = Done st' /\
    (stream st', world st') = (Some (fst (write_all f cs (world st))),
                               snd (write_all f cs (world st))) /\
    concat cs = take (Z.to_nat (m - total st)) (delivered body) /\
    Forall (fun c => (length c <= buffer_len)%nat) cs /\
    total st' = total st + Z.min (Z.of_nat (length (delivered body))) (m - total st).
Proof.
  intros Hok Hnf. revert st f.
  induction body as [|ev rest IH]; intros st f Hs Ht Hsum.
  - destruct (copyLoop_limited_end args m limit_set limit_bytes limit_range st f Hs Ht)
      as (st' & E & W & T).
    exists st', [[]%list]. cbn [delivered]. rewrite take_nil.
    repeat split; [assumption..|apply Forall_singleton; simpl; lia|simpl; lia].
  - apply Forall_cons in Hok as [Hev Hok]. apply Forall_cons in Hnf as [Hfev Hnf].
    cbn [delivered] in *. rewrite length_app in Hsum.
    set (c := chunk ev) in *. set (d := if is_EOF (rerr ev) then [] else delivered rest) in *.
    assert (Hbuf : buffer_len = 1024%nat) by reflexivity.
    cbn [copyLoop].
    rewrite (iteration_limited args ev st f m) by (auto; fold c; lia).
    fold c.
    destruct (Z.leb_spec m (total st + Z.of_nat (length c))) as [Hle|Hgt];
      cbn [mbind outcome_bind Go.bind].
    + eexists _, [take (Z.to_nat (m - total st)) c]. split; [reflexivity|].
      cbn [after total stream world write_all concat].
      destruct (write_to f _ (world st)). rewrite app_nil_r.
      repeat split.
      * rewrite take_app_le by lia. reflexivity.
      * apply Forall_singleton. rewrite length_take. lia.
      * rewrite wrap64_small by (unfold min_int64; lia). rewrite length_app. lia.
    + destruct (is_EOF (rerr ev)) eqn:E.
      * subst d. eexists _, [c]. split; [reflexivity|].
        cbn [after total stream world write_all concat].
        destruct (write_to f c (world st)). rewrite !app_nil_r.
        repeat split.
        -- rewrite take_ge by lia. reflexivity.
        -- apply Forall_singleton. assumption.
        -- rewrite wrap64_small by (unfold min_int64; lia). lia.
      * subst d. set (st1 := after st f ev _ c).
        assert (Ht1 : total st1 = total st + Z.of_nat (length c)).
        { subst st1. cbn [after total]. apply wrap64_small. unfold min_int64. lia. }
        destruct (IH Hok Hnf st1 (fst (write_to f c (world st))))
          as (st' & cs & E1 & W & C & F & T); [reflexivity|lia|lia|].
        exists st', (c :: cs). split; [assumption|].
        split; [|split; [|split]].
        -- rewrite W. subst st1. cbn [after world write_all].
           now destruct (write_to f c (world st)).
        -- cbn [concat]. rewrite C, Ht1.
           replace (Z.to_nat (m - total st))
             with (length c + Z.to_nat (m - (total st + Z.of_nat (length c))))%nat by lia.
           now rewrite take_app_add.
        -- constructor; assumption.
        -- rewrite T, Ht1, length_app. lia.
Qed.

End CopyLimitedAny.

(** X1: under a maximum download of [m >= 0] bytes the loop writes the
    first [min(d, m)] bytes the body delivers, whatever the sizes of the
    reads (short and empty reads included), as long as no read fails and
    the [d] bytes delivered fit [int64]; it ends without panic, and no
    chunk written is longer than the buffer. *)
Theorem X1_limited_copy_any_reader (args : Arguments) (body : list read_event)
    (f : File) (w : World) (m : Z) :
  MaxDownload args <> None -> MaxDownloadBytes args = m ->
  OutputStream args = Some f ->
  0 <= m <= max_int64 ->
  reader_ok body ->
  Forall (fun ev => fatal (rerr ev) = None) body ->
  Z.of_nat (length (delivered body)) <= max_int64 ->
  exists st',
    copyLoop args body (copy_init args w) = Done st' /\
    written w (world st') = take (Z.to_nat m) (delivered body) /\
    Forall (fun c => (length c <= 1024)%nat) (drop (length (writes w)) (writes (world st'))) /\
    total st' = Z.min (Z.of_nat (length (delivered body))) m.
Proof.
  intros HM Hm Hf Hrange Hok Hnf Hlen.
  destruct (copyLoop_limited_any args m HM Hm (proj2 Hrange) body (copy_init args w) f)
    as (st' & cs & E & W & C & F & T);
    try (cbn [copy_init total stream]; auto; lia).
  cbn [copy_init total world] in *. rewrite Z.sub_0_r in C.
  rewrite Z.add_0_l, Z.sub_0_r in T.
  exists st'. injection W as _ ->. unfold written.
  rewrite writes_write_all, drop_app_length. auto.
Qed.

(** Reads of 2, 0 and 3 bytes under a limit of 4 bytes. *)
Lemma X1_limited_copy_witness :
  exists st',
    copyLoop short_reads_flags short_reads (copy_init short_reads_flags empty_world) = Done st' /\
    written empty_world (world st') = take (Z.to_nat 4) (delivered short_reads) /\
    Forall (fun c => (length c <= 1024)%nat)
      (drop (length (writes empty_world)) (writes (world st'))) /\
    total st' = Z.min (Z.of_nat (length (delivered short_reads))) 4.
Proof.
  apply (X1_limited_copy_any_reader short_reads_flags short_reads Stdout empty_world 4).
  - discriminate.
  - reflexivity.
  - reflexivity.
  - unfold max_int64. lia.
  - unfold reader_ok, short_reads, buffer_len.
    repeat (apply Forall_cons; split; [simpl; lia|]).
    constructor.
  - unfold short_reads. repeat (apply Forall_cons; split; [reflexivity|]). constructor.
  - vm_compute. discriminate.
Defined.

(** X2: under a maximum download of [m] bytes with [m + 1024] within
    [int64], for a reader that keeps to the buffer size, after every
    iteration the counter [total] is exactly the number of bytes written
    since the loop began, and at most [m]. *)
Theorem X2_counter_is_bytes_written (args : Arguments) (body : list read_event)
    (f : File) (w : World) (m : Z) :
  MaxDownload args <> None -> MaxDownloadBytes args = m ->
  OutputStream args = Some f ->
  0 <= m -> m + 1024 <= max_int64 ->
  reader_ok body ->
  Forall (fun s => total s = Z.of_nat (length (written w (world s))) /\ total s <= m)
         (copyStates args body (copy_init args w)).
Proof.
  intros HM Hm Hf H0 Hroom Hok.
  pose proof (copyStates_written_le args m HM Hm Hroom body (copy_init args w) f Hok Hf) as H.
  cbn [copy_init total world] in H. apply H. lia.
Qed.

Lemma X2_counter_witness :
  Forall (fun s => total s = Z.of_nat (length (written empty_world (world s))) /\ total s <= 4)
         (copyStates short_reads_flags short_reads (copy_init short_reads_flags empty_world)).
Proof.
  apply (X2_counter_is_bytes_written short_reads_flags short_reads Stdout empty_world 4).
  - discriminate.
  - reflexivity.
  - reflexivity.
  - lia.
  - unfold max_int64. lia.
  - unfold reader_ok, short_reads, buffer_len.
    repeat (apply Forall_cons; split; [simpl; lia|]).
    constructor.
Defined.

(** A negative limit: an iteration that starts with the counter at 0
    takes the slice [buffer[:n]] with [n] negative. *)
Lemma iteration_negative_limit (args : Arguments) (ev : read_event) (st : copy_state) :
  MaxDownload args <> None ->
  min_int64 <= MaxDownloadBytes args < 0 ->
  total st = 0 ->
  fatal (rerr ev) = None -> (length (chunk ev) <= buffer_len)%nat ->
  iteration args ev st = Panicked PanicSlice.
Proof.
  intros HM Hneg Ht Hfe Hle. unfold iteration.
  rewrite Hfe, (bool_decide_eq_true_2 _ HM), Ht.
  cbn [andb]. unfold buffer_len in Hle.
  rewrite (wrap64_small (0 + _)) by (unfold min_int64, max_int64; lia).
  destruct (Z.leb_spec (MaxDownloadBytes args) (0 + Z.of_nat (length (chunk ev))));
    [|lia].
  rewrite Z.sub_0_r, wrap64_small by (unfold max_int64; lia).
  destruct (Z.ltb_spec (MaxDownloadBytes args) 0); [reflexivity|lia].
Qed.

Lemma copyLoop_negative_limit (args : Arguments) (body : list read_event)
    (st : copy_state) :
  MaxDownload args <> None ->
  min_int64 <= MaxDownloadBytes args < 0 ->
  total st = 0 ->
  fatal (rerr (default eof_read (head body))) = None ->
  (length (chunk (default eof_read (head body))) <= buffer_len)%nat ->
  copyLoop args body st = Panicked PanicSlice /\ copyStates args body st = [].
Proof.
  intros HM Hneg Ht Hf Hlen.
  destruct body as [|ev rest]; cbn [copyLoop copyStates head default] in *;
    now rewrite iteration_negative_limit.
Qed.

(** X3: a negative maximum download makes the loop panic on its first
    iteration, before anything is written: the clamp sets [n] to the
    negative limit and [buffer[:n]] is out of bounds, so no iteration is
    completed.  This holds for every body whose first read does not fail
    and keeps to the buffer size, and for an exhausted body. *)
Theorem X3_negative_limit_panics (args : Arguments) (body : list read_event)
    (w : World) :
  MaxDownload args <> None ->
  min_int64 <= MaxDownloadBytes args < 0 ->
  fatal (rerr (default eof_read (head body))) = None ->
  (length (chunk (default eof_read (head body))) <= buffer_len)%nat ->
  copyLoop args body (copy_init args w) = Panicked PanicSlice /\
  copyStates args body (copy_init args w) = [].
Proof.
  intros HM Hneg Hf Hlen. now apply copyLoop_negative_limit.
Qed.

Lemma X3_negative_limit_witness :
  copyLoop negative_limit_flags short_reads (copy_init negative_limit_flags empty_world) =
    Panicked PanicSlice /\
  copyStates negative_limit_flags short_reads (copy_init negative_limit_flags empty_world) = [].
Proof.
  apply X3_negative_limit_panics.
  - discriminate.
  - unfold min_int64. simpl. lia.
  - reflexivity.
  - simpl. unfold buffer_len. lia.
Defined.

(** With no limit, the loop panics at the first failing read. *)
Lemma copyLoop_read_error (args : Arguments) (pre rest : list read_event)
    (ev : read_event) (e : error) (st : copy_state) (f : File) :
  MaxDownload args = None ->
  reader_ok pre ->
  Forall (fun r => rerr r = None) pre ->
  fatal (rerr ev) = Some e ->
  stream st = Some f ->
  copyLoop args (pre ++ ev :: rest) st = Panicked (PanicErr e).
Proof.
  intros HM Hok Hnone Hfatal. revert st f.
  induction pre as [|r pre IH]; intros st f Hs; cbn [app copyLoop].
  - unfold iteration. now rewrite Hfatal.
  - apply Forall_cons in Hok as [Hr Hok]. apply Forall_cons in Hnone as [Hn Hnone].
    rewrite (iteration_unlimited args r st f) by (auto; now rewrite Hn).
    rewrite Hn. cbn [is_EOF mbind outcome_bind Go.bind].
    now apply (IH Hok Hnone _ (fst (write_to f (chunk r) (world st)))).
Qed.

(** X4: with no maximum download, a read that fails with an error other
    than [io.EOF] makes the loop panic with that error when the loop comes
    to it, that is when none of the reads before it failed or ended the
    stream; what the reads after it would return does not matter. *)
Theorem X4_read_error_is_fatal (args : Arguments) (pre rest : list read_event)
    (ev : read_event) (e : error) (f : File) (w : World) :
  MaxDownload args = None ->
  OutputStream args = Some f ->
  reader_ok pre ->
  Forall (fun r => rerr r = None) pre ->
  fatal (rerr ev) = Some e ->
  copyLoop args (pre ++ ev :: rest) (copy_init args w) = Panicked (PanicErr e).
Proof.
  intros HM Hf Hok Hnone Hfatal.
  now apply (copyLoop_read_error args pre rest ev e (copy_init args w) f).
Qed.

Lemma X4_read_error_witness :
  copyLoop (set_OutputStream (Some Stdout) example_flags)
    ([mkRead [Byte.x41] None] ++ mkRead [] (Some ErrRead) :: [])
    (copy_init (set_OutputStream (Some Stdout) example_flags) empty_world) =
  Panicked (PanicErr ErrRead).
Proof.
  apply (X4_read_error_is_fatal _ _ _ _ _ Stdout); try reflexivity.
  - apply Forall_singleton. simpl. unfold buffer_len. lia.
  - apply Forall_singleton. reflexivity.
Defined.


(** ** Whole runs, from the response on *)

Section Runs.

Variables (args : Arguments) (res : Response) (w : World).
Hypothesis no_output_file : OutputFile args = None.
Hypothesis no_limit : MaxDownload args = None.
Hypothesis body_ok : reader_ok (Body res).
Hypothesis body_reads : Forall (fun ev => fatal (rerr ev) = None) (Body res).

(** Without [-o] and [-O] the run ends, standard output has received the
    body and the files are as they were. *)
Lemma respond_to_stdout :
  UseRemoteName args = false ->
  exists args' w',
    respond args res w = Done (args', w') /\
    stdout w' = (stdout w ++ delivered (Body res))%list /\
    files w' = files w.
Proof.
  intros Hr. unfold respond, resolveOutput. rewrite no_output_file, Hr.
  unfold openOutput. cbn [OutputFile set_OutputStream]. rewrite no_output_file.
  cbn [mbind outcome_bind Go.bind].
  destruct (copyLoop_unlimited (set_OutputStream (Some Stdout) args) no_limit (Body res)
              (copy_init (set_OutputStream (Some Stdout) args) w) Stdout body_ok body_reads
              eq_refl) as (st' & cs & E & W & C).
  rewrite E. cbn [Go.bind]. eexists _, _. split; [reflexivity|].
  injection W as _ ->. rewrite stdout_write_all. cbn [snd stdout files copy_init world].
  now rewrite C.
Qed.

(** With [-O] and no [Content-Disposition] header the run ends, the file
    named by the last element of the URL holds the body over what it held
    before, and standard output has received nothing. *)
Lemma respond_to_remote_name :
  UseRemoteName args = true ->
  ContentDisposition res = EmptyString ->
  Path.Base (URL args) ∉ denied w ->
  exists args' w',
    respond args res w = Done (args', w') /\
    OutputFile args' = Some (Path.Base (URL args)) /\
    files w' !! Path.Base (URL args) =
      Some (delivered (Body res) ++
            drop (length (delivered (Body res)))
                 (default [] (files w !! Path.Base (URL args))))%list /\
    stdout w' = stdout w.
Proof.
  intros Hr Hd Hden. unfold respond, resolveOutput. rewrite no_output_file, Hr, Hd.
  cbn [String.eqb negb]. set (name := Path.Base (URL args)) in *.
  unfold openOutput. cbn [OutputFile set_OutputFile]. unfold OpenFile.
  destruct (decide (name ∈ denied w)); [contradiction|].
  cbn [must mbind outcome_bind Go.bind].
  set (a1 := set_OutputStream _ _). set (w1 := mkWorld _ _ _ _).
  destruct (copyLoop_unlimited a1 no_limit (Body res) (copy_init a1 w1)
              (Opened name 0) body_ok body_reads eq_refl) as (st' & cs & E & W & C).
  rewrite E. cbn [Go.bind]. eexists _, _. split; [reflexivity|].
  injection W as _ ->. cbn [copy_init world].
  destruct (file_write_all name 0 cs w1 (default [] (files w !! name)))
    as (_ & F & S); [apply lookup_insert_eq | lia |].
  split; [reflexivity|]. rewrite F, S, lookup_insert_eq, write_at_0, C.
  split; reflexivity.
Qed.

End Runs.

(** X5: without [-o] and [-O] and with no maximum download, for every
    body that keeps to the buffer size and does not fail, the run from the
    response on ends normally; standard output has received exactly the
    bytes of the body after what it held, and no file is created or
    changed. *)
Theorem X5_default_run_prints_body (args : Arguments) (res : Response) (w : World) :
  OutputFile args = None ->
  UseRemoteName args = false ->
  MaxDownload args = None ->
  reader_ok (Body res) ->
  Forall (fun ev => fatal (rerr ev) = None) (Body res) ->
  exists args' w',
    respond args res w = Done (args', w') /\
    stdout w' = (stdout w ++ delivered (Body res))%list /\
    files w' = files w.
Proof. intros. now apply respond_to_stdout. Qed.

Lemma X5_default_run_witness :
  exists args' w',
    respond example_flags short_response existing_file_world = Done (args', w') /\
    stdout w' = (stdout existing_file_world ++ delivered (Body short_response))%list /\
    files w' = files existing_file_world.
Proof.
  apply X5_default_run_prints_body; try reflexivity.
  - apply body_of_ok.
  - apply body_of_ok.
Defined.

(** X6: with [-O], no [-o], no maximum download and a response without
    [Content-Disposition] header, for every body that keeps to the buffer
    size and does not fail, when the file named by [path.Base] of the URL
    can be opened the run ends normally with that file as its output; the
    file holds the body, followed by what it held before beyond the body's
    length, and nothing goes to standard output. *)
Theorem X6_remote_name_run_writes_file (args : Arguments) (res : Response) (w : World) :
  OutputFile args = None ->
  UseRemoteName args = true ->
  MaxDownload args = None ->
  ContentDisposition res = EmptyString ->
  Path.Base (URL args) ∉ denied w ->
  reader_ok (Body res) ->
  Forall (fun ev => fatal (rerr ev) = None) (Body res) ->
  exists args' w',
    respond args res w = Done (args', w') /\
    OutputFile args' = Some (Path.Base (URL args)) /\
    files w' !! Path.Base (URL args) =
      Some (delivered (Body res) ++
            drop (length (delivered (Body res)))
                 (default [] (files w !! Path.Base (URL args))))%list /\
    stdout w' = stdout w.
Proof. intros. now apply respond_to_remote_name. Qed.

Lemma X6_remote_name_run_witness :
  exists args' w',
    respond remote_name_flags short_response empty_world = Done (args', w') /\
    OutputFile args' = Some (Path.Base (URL remote_name_flags)) /\
    files w' !! Path.Base (URL remote_name_flags) =
      Some (delivered (Body short_response) ++
            drop (length (delivered (Body short_response)))
                 (default [] (files empty_world !! Path.Base (URL remote_name_flags))))%list /\
    stdout w' = stdout empty_world.
Proof.
  apply X6_remote_name_run_writes_file; try reflexivity.
  - apply not_elem_of_empty.
  - apply body_of_ok.
  - apply body_of_ok.
Defined.


(** ** Flags: what [parseFlags] leaves in the arguments *)

Section FlagsFrame.

Variable w : World.

Lemma determine_method_frame (a : Arguments) :
  same_url (determine_method a) a /\ same_data (determine_method a) a /\
  same_headers (determine_method a) a /\ same_sizes (determine_method a) a /\
  LimitRateBytes (determine_method a) = LimitRateBytes a /\
  MaxDownloadBytes (determine_method a) = MaxDownloadBytes a.
Proof.
  unfold determine_method, same_url, same_data, same_headers, same_sizes.
  destruct (String.eqb _ _); [destruct (Information a);
    [|destruct (bool_decide _ && negb _)]|]; repeat split.
Qed.

Lemma load_data_frame (a a' : Arguments) :
  load_data a w = Done a' ->
  same_url a' a /\ same_headers a' a /\ same_sizes a' a /\
  LimitRateBytes a' = LimitRateBytes a /\ MaxDownloadBytes a' = MaxDownloadBytes a.
Proof.
  unfold load_data, same_url, same_headers, same_sizes.
  destruct (Data a) as [[|c f]|]; try discriminate.
  - destruct (Ascii.eqb c "@"); [|intros [= <-]; repeat split].
    intros H. bind_inv H. injection H as <-. repeat split.
  - intros [= <-]. repeat split.
Qed.

Lemma assign_header_frame (k v : string) (a a' : Arguments) :
  assign_header k v a = Done a' ->
  same_url a' a /\ same_data a' a /\ same_sizes a' a /\
  LimitRateBytes a' = LimitRateBytes a /\ MaxDownloadBytes a' = MaxDownloadBytes a /\
  exists m, Headers a = Some m /\ Headers a' = Some (<[k := v]> m).
Proof.
  unfold assign_header, same_url, same_data, same_sizes.
  destruct (Headers a) as [m|]; [|discriminate].
  intros [= <-]. repeat split. now exists m.
Qed.

Lemma content_headers_frame (a a' : Arguments) :
  content_headers a = Done a' ->
  same_url a' a /\ same_data a' a /\ same_sizes a' a /\
  LimitRateBytes a' = LimitRateBytes a /\ MaxDownloadBytes a' = MaxDownloadBytes a.
Proof.
  unfold content_headers. intros H. apply bind_Done in H as (a1 & H1 & H2).
  assert (F1 : same_url a1 a /\ same_data a1 a /\ same_sizes a1 a /\
               LimitRateBytes a1 = LimitRateBytes a /\
               MaxDownloadBytes a1 = MaxDownloadBytes a).
  { unfold same_url, same_data, same_sizes.
    destruct (Data a) eqn:D; [|injection H1 as <-; repeat split; assumption].
    destruct (negb _); [|injection H1 as <-; repeat split; assumption].
    destruct (guessDataType s) as [ct [|]]; [|injection H1 as <-; repeat split; assumption].
    apply assign_header_frame in H1. unfold same_url, same_data, same_sizes in H1.
    destruct H1 as (? & ? & (? & ?) & ? & ? & _). repeat split; congruence. }
  clear H1.
  assert (F2 : same_url a' a1 /\ same_data a' a1 /\ same_sizes a' a1 /\
               LimitRateBytes a' = LimitRateBytes a1 /\
               MaxDownloadBytes a' = MaxDownloadBytes a1).
  { unfold same_url, same_data, same_sizes.
    destruct (Data a1) eqn:D; [|injection H2 as <-; repeat split; assumption].
    destruct (negb _); [|injection H2 as <-; repeat split; assumption].
    apply assign_header_frame in H2. unfold same_url, same_data, same_sizes in H2.
    destruct H2 as (? & ? & (? & ?) & ? & ? & _). repeat split; congruence. }
  unfold same_url, same_data, same_sizes in *.
  destruct F1 as (? & ? & (? & ?) & ? & ?), F2 as (? & ? & (? & ?) & ? & ?).
  repeat split; congruence.
Qed.

(** The size flags, when they return: each size given is the one
    [parseSize] returns without error, each size not given is left. *)
Lemma size_flags_spec (a a' : Arguments) :
  size_flags a = Done a' ->
  same_url a' a /\ same_data a' a /\ same_headers a' a /\ same_sizes a' a /\
  match LimitRate a with
  | Some s => parseSize s = Done (LimitRateBytes a', None)
  | None => LimitRateBytes a' = LimitRateBytes a
  end /\
  match MaxDownload a with
  | Some s => parseSize s = Done (MaxDownloadBytes a', None)
  | None => MaxDownloadBytes a' = MaxDownloadBytes a
  end.
Proof.
  unfold size_flags. intros H. apply bind_Done in H as (a1 & H1 & H2).
  assert (F1 : same_url a1 a /\ same_data a1 a /\ same_headers a1 a /\ same_sizes a1 a /\
               MaxDownloadBytes a1 = MaxDownloadBytes a /\
               match LimitRate a with
               | Some s => parseSize s = Done (LimitRateBytes a1, None)
               | None => LimitRateBytes a1 = LimitRateBytes a
               end).
  { unfold same_url, same_data, same_headers, same_sizes.
    destruct (LimitRate a) as [s|] eqn:LR;
      [|injection H1 as <-; repeat split; assumption].
    apply bind_Done in H1 as (b & Hb & H1). injection H1 as <-.
    apply bind_Done in Hb as ([z e] & Hp & Hm).
    destruct e; [discriminate|]. injection Hm as ->. repeat split; assumption. }
  clear H1. unfold same_url, same_data, same_headers, same_sizes in *.
  destruct F1 as (U & D & Hh & (L & M) & MB & LR). rewrite <- M.
  destruct (MaxDownload a1) as [s|] eqn:MD.
  - apply bind_Done in H2 as (b & Hb & H2). injection H2 as <-.
    apply bind_Done in Hb as ([z e] & Hp & Hm).
    destruct e; [discriminate|]. injection Hm as ->.
    cbn [URL Data Headers LimitRate MaxDownload LimitRateBytes MaxDownloadBytes
         set_MaxDownloadBytes].
    repeat split; try assumption; try congruence.
  - injection H2 as <-. repeat split; try assumption; try congruence.
Qed.

End FlagsFrame.

(** The steps of [parseFlags], when it returns. *)
Lemma parseFlags_steps (parsed : Arguments) (unused : list string)
    (err : option error) (w : World) (args : Arguments) :
  parseFlags parsed unused err w = Done args ->
  err = None /\
  exists a1 a2 a3,
    take_url parsed unused = Done a1 /\
    load_data (determine_method a1) w = Done a2 /\
    content_headers a2 = Done a3 /\
    size_flags a3 = Done args.
Proof.
  unfold parseFlags. destruct (WroteHelp err); [discriminate|].
  destruct err as [e|]; [discriminate|]. cbn [must mbind outcome_bind Go.bind].
  intros H. split; [reflexivity|].
  apply bind_Done in H as (a1 & H1 & H).
  apply bind_Done in H as (a2 & H2 & H).
  apply bind_Done in H as (a3 & H3 & H).
  eauto 8.
Qed.

Lemma contains_scheme_http (u : string) : Bytes.contains "://" ("http://" +:+ u) = true.
Proof. reflexivity. Qed.

(** X7: when [parseFlags] returns, the URL is the first unused argument,
    with [http://] put before it when it contained no [://]; so the URL
    the request is built from always contains [://]. *)
Theorem X7_url_always_has_scheme (parsed : Arguments) (unused : list string)
    (err : option error) (w : World) (args : Arguments) :
  parseFlags parsed unused err w = Done args ->
  exists u rest,
    unused = u :: rest /\
    URL args = (if Bytes.contains "://" u then u else "http://" +:+ u) /\
    Bytes.contains "://" (URL args) = true.
Proof.
  intros H. apply parseFlags_steps in H as (_ & a1 & a2 & a3 & H1 & H2 & H3 & H4).
  apply load_data_frame in H2 as (U2 & _). apply content_headers_frame in H3 as (U3 & _).
  apply size_flags_spec in H4 as (U4 & _).
  destruct (determine_method_frame a1) as (U1 & _).
  assert (E : URL args = URL a1) by (unfold same_url in *; congruence).
  unfold take_url in H1. destruct unused as [|u rest]; [discriminate|].
  exists u, rest. split; [reflexivity|]. rewrite E. cbn [URL set_URL] in H1.
  destruct (Bytes.contains "://" u) eqn:C; cbn [negb] in H1; injection H1 as <-;
    cbn [URL set_URL]; auto using contains_scheme_http.
Qed.

Lemma X7_url_witness :
  exists u rest,
    ["example.com"] = u :: rest /\
    URL (set_HTTPMethod "GET" (set_URL "http://example.com" example_flags)) =
      (if Bytes.contains "://" u then u else "http://" +:+ u) /\
    Bytes.contains "://"
      (URL (set_HTTPMethod "GET" (set_URL "http://example.com" example_flags))) = true.
Proof.
  apply (X7_url_always_has_scheme (set_HTTPMethod "PUT" example_flags) ["example.com"]
           None empty_world).
  reflexivity.
Defined.

(** The size flags when [parseFlags] returns. *)
Lemma parseFlags_sizes (parsed : Arguments) (unused : list string)
    (err : option error) (w : World) (args : Arguments) :
  parseFlags parsed unused err w = Done args ->
  match MaxDownload parsed with
  | Some s => parseSize s = Done (MaxDownloadBytes args, None)
  | None => MaxDownloadBytes args = MaxDownloadBytes parsed
  end /\
  match LimitRate parsed with
  | Some s => parseSize s = Done (LimitRateBytes args, None)
  | None => LimitRateBytes args = LimitRateBytes parsed
  end /\
  MaxDownload args = MaxDownload parsed /\ LimitRate args = LimitRate parsed.
Proof.
  intros H. apply parseFlags_steps in H as (_ & a1 & a2 & a3 & H1 & H2 & H3 & H4).
  apply load_data_frame in H2 as (_ & _ & (L2 & M2) & LB2 & MB2).
  apply content_headers_frame in H3 as (_ & _ & (L3 & M3) & LB3 & MB3).
  apply size_flags_spec in H4 as (_ & _ & _ & (L4 & M4) & SL & SM).
  destruct (determine_method_frame a1) as (_ & _ & _ & (L1 & M1) & LB1 & MB1).
  assert (F : LimitRate a1 = LimitRate parsed /\ MaxDownload a1 = MaxDownload parsed /\
              LimitRateBytes a1 = LimitRateBytes parsed /\
              MaxDownloadBytes a1 = MaxDownloadBytes parsed).
  { unfold take_url in H1. destruct unused; [discriminate|].
    destruct (negb _); injection H1 as <-; repeat split. }
  destruct F as (L0 & M0 & LB0 & MB0).
  assert (EL : LimitRate a3 = LimitRate parsed) by congruence.
  assert (EM : MaxDownload a3 = MaxDownload parsed) by congruence.
  rewrite EL in SL. rewrite EM in SM.
  repeat split; try congruence.
  - destruct (MaxDownload parsed); [assumption|congruence].
  - destruct (LimitRate parsed); [assumption|congruence].
Qed.

(** X8: when [parseFlags] returns, the size flags hold what [parseSize]
    returned without error: for [--max-filesize s], [MaxDownloadBytes] is
    the value of [parseSize s], and for [--limit-rate s], [LimitRateBytes]
    is; a size that was not given keeps its value.  So a size that
    [parseSize] rejects, or on which it panics, never lets [parseFlags]
    return. *)
Theorem X8_size_flags_are_parsed (parsed : Arguments) (unused : list string)
    (err : option error) (w : World) (args : Arguments) :
  parseFlags parsed unused err w = Done args ->
  match MaxDownload parsed with
  | Some s => parseSize s = Done (MaxDownloadBytes args, None)
  | None => MaxDownloadBytes args = MaxDownloadBytes parsed
  end /\
  match LimitRate parsed with
  | Some s => parseSize s = Done (LimitRateBytes args, None)
  | None => LimitRateBytes args = LimitRateBytes parsed
  end /\
  MaxDownload args = MaxDownload parsed /\ LimitRate args = LimitRate parsed.
Proof. apply parseFlags_sizes. Qed.

Lemma X8_size_flags_witness :
  match MaxDownload max_11K_flags with
  | Some s => parseSize s = Done (MaxDownloadBytes max_11K_parsed, None)
  | None => MaxDownloadBytes max_11K_parsed = MaxDownloadBytes max_11K_flags
  end /\
  match LimitRate max_11K_flags with
  | Some s => parseSize s = Done (LimitRateBytes max_11K_parsed, None)
  | None => LimitRateBytes max_11K_parsed = LimitRateBytes max_11K_flags
  end /\
  MaxDownload max_11K_parsed = MaxDownload max_11K_flags /\
  LimitRate max_11K_parsed = LimitRate max_11K_flags.
Proof.
  apply (X8_size_flags_are_parsed max_11K_flags ["http://example.com"] None empty_world).
  reflexivity.
Defined.


(** ** Flags: the method, the body and the content headers *)

Section FlagsData.

Variable w : World.

Lemma take_url_frame (parsed a : Arguments) (unused : list string) :
  take_url parsed unused = Done a ->
  Data a = Data parsed /\ Headers a = Headers parsed /\ same_output a parsed /\
  same_sizes a parsed /\ LimitRateBytes a = LimitRateBytes parsed /\
  MaxDownloadBytes a = MaxDownloadBytes parsed.
Proof.
  unfold take_url, same_output, same_sizes. destruct unused; [discriminate|].
  destruct (negb _); intros [= <-]; repeat split.
Qed.

Lemma determine_method_output (a : Arguments) : same_output (determine_method a) a.
Proof.
  unfold determine_method, same_output.
  destruct (String.eqb _ _); [destruct (Information a);
    [|destruct (bool_decide _ && negb _)]|]; repeat split.
Qed.

Lemma load_data_output (a a' : Arguments) :
  load_data a w = Done a' -> same_output a' a.
Proof.
  unfold load_data, same_output.
  destruct (Data a) as [[|c f]|]; try discriminate.
  - destruct (Ascii.eqb c "@"); [|intros [= <-]; repeat split].
    intros H. bind_inv H. injection H as <-. repeat split.
  - intros [= <-]. repeat split.
Qed.

Lemma assign_header_output (k v : string) (a a' : Arguments) :
  assign_header k v a = Done a' -> same_output a' a.
Proof.
  unfold assign_header, same_output.
  destruct (Headers a); [intros [= <-]; repeat split|discriminate].
Qed.

Lemma same_output_trans (a b c : Arguments) :
  same_output a b -> same_output b c -> same_output a c.
Proof. unfold same_output. intros (? & ? & ?) (? & ? & ?). repeat split; congruence. Qed.

Lemma same_output_refl (a : Arguments) : same_output a a.
Proof. repeat split. Qed.

Lemma content_headers_output (a a' : Arguments) :
  content_headers a = Done a' -> same_output a' a.
Proof.
  unfold content_headers. intros H. apply bind_Done in H as (a1 & H1 & H2).
  apply same_output_trans with a1.
  - clear H1. destruct (Data a1); [|injection H2 as <-; apply same_output_refl].
    destruct (negb _); [|injection H2 as <-; apply same_output_refl].
    eauto using assign_header_output.
  - clear H2. destruct (Data a); [|injection H1 as <-; apply same_output_refl].
    destruct (negb _); [|injection H1 as <-; apply same_output_refl].
    destruct (guessDataType s) as [ct [|]]; [|injection H1 as <-; apply same_output_refl].
    eauto using assign_header_output.
Qed.

Lemma size_flags_output (a a' : Arguments) :
  size_flags a = Done a' -> same_output a' a.
Proof.
  unfold size_flags. intros H. apply bind_Done in H as (a1 & H1 & H2).
  apply same_output_trans with a1.
  - clear H1. destruct (MaxDownload a1); [|injection H2 as <-; apply same_output_refl].
    bind_inv H2. injection H2 as <-. repeat split.
  - clear H2. destruct (LimitRate a); [|injection H1 as <-; apply same_output_refl].
    bind_inv H1. injection H1 as <-. repeat split.
Qed.

(** What [load_data] leaves as the body. *)
Lemma load_data_data (a a' : Arguments) :
  load_data a w = Done a' ->
  match Data a with
  | Some (String c name) =>
      if Ascii.eqb c "@"
      then exists raw, files w !! name = Some raw /\
                       Data a' = Some (string_of_list_byte raw)
      else Data a' = Data a
  | _ => Data a' = Data a
  end.
Proof.
  unfold load_data. destruct (Data a) as [[|c f]|] eqn:D; try discriminate.
  - destruct (Ascii.eqb c "@").
    + unfold ReadFile. destruct (files w !! f) as [raw|]; [|discriminate].
      cbn. intros [= <-]. eauto.
    + intros [= <-]. assumption.
  - intros [= <-]. assumption.
Qed.

Lemma load_data_keeps_body (a a' : Arguments) :
  load_data a w = Done a' -> Data a <> None -> Data a' <> None.
Proof.
  intros H Hd. apply load_data_data in H.
  destruct (Data a) as [[|c f]|]; [congruence| |congruence].
  destruct (Ascii.eqb c "@"); [|congruence].
  destruct H as (raw & _ & ->). discriminate.
Qed.

Lemma content_headers_no_body (a : Arguments) :
  Data a = None -> content_headers a = Done a.
Proof. intros D. unfold content_headers. rewrite D. cbn. now rewrite D. Qed.

(** With a body, the headers after [content_headers] are the user's map
    with the content headers it lacked. *)
Lemma content_headers_headers (a a' : Arguments) (body : string) :
  content_headers a = Done a' -> Data a = Some body ->
  exists m, Headers a = Some m /\ Headers a' = Some (content_headers_of body m).
Proof.
  unfold content_headers, content_headers_of. intros H D. rewrite D in H.
  apply bind_Done in H as (a1 & H1 & H2).
  destruct (Headers a) as [m|] eqn:Hm.
  - exists m. split; [reflexivity|].
    destruct (negb (header_specified "CONTENT-TYPE" (Some m)));
      destruct (guessDataType body) as [ct [|]]; cbn [fst snd andb];
      unfold assign_header in H1; try rewrite Hm in H1; injection H1 as <-;
      cbn [Data set_Headers] in H2; rewrite D in H2;
      destruct (negb (header_specified "CONTENT-LENGTH" (Some m)));
      unfold assign_header in H2; cbn [Headers set_Headers] in H2;
      try rewrite Hm in H2; injection H2 as <-; cbn [Headers set_Headers];
      auto.
  - cbn [header_specified negb] in H1, H2.
    destruct (guessDataType body) as [ct [|]].
    + unfold assign_header in H1. rewrite Hm in H1. discriminate.
    + injection H1 as <-. rewrite D in H2.
      unfold assign_header in H2. rewrite Hm in H2. discriminate.
Qed.

End FlagsData.

(** No key of the user's map is a content header in any spelling, when the
    test for it says so. *)
Lemma header_specified_false (name key : string) (m : gmap string string) :
  header_specified name (Some m) = false ->
  ToUpper key = name -> m !! key = None.
Proof.
  unfold header_specified. intros H Hk.
  destruct (m !! key) as [v|] eqn:E; [|reflexivity].
  apply elem_of_map_to_list in E.
  assert (existsb (fun kv => String.eqb (ToUpper kv.1) name) (map_to_list m) = true).
  { apply existsb_exists. exists (key, v). split.
    - now apply list_elem_of_In.
    - cbn. rewrite Hk. apply String.eqb_refl. }
  congruence.
Qed.

Lemma content_headers_of_subseteq (body : string) (m : gmap string string) :
  m ⊆ content_headers_of body m.
Proof.
  unfold content_headers_of.
  destruct (header_specified "CONTENT-TYPE" (Some m)) eqn:T;
    destruct (header_specified "CONTENT-LENGTH" (Some m)) eqn:L;
    destruct (snd (guessDataType body)); cbn [negb andb]; try reflexivity.
  - apply insert_subseteq. now apply (header_specified_false "CONTENT-LENGTH").
  - apply insert_subseteq. now apply (header_specified_false "CONTENT-LENGTH").
  - apply insert_subseteq. now apply (header_specified_false "CONTENT-TYPE").
  - etrans; [|apply insert_subseteq].
    + apply insert_subseteq. now apply (header_specified_false "CONTENT-TYPE").
    + rewrite lookup_insert_ne by discriminate.
      now apply (header_specified_false "CONTENT-LENGTH").
  - apply insert_subseteq. now apply (header_specified_false "CONTENT-LENGTH").
Qed.

Lemma content_headers_of_keys (body : string) (m : gmap string string) (k : string) :
  is_Some (content_headers_of body m !! k) ->
  is_Some (m !! k) \/ k = "Content-Type" \/ k = "Content-Length".
Proof.
  unfold content_headers_of.
  destruct (negb (header_specified "CONTENT-LENGTH" (Some m)));
    destruct (negb (header_specified "CONTENT-TYPE" (Some m)) && snd (guessDataType body));
    intros H; auto.
  - destruct (decide (k = "Content-Length")) as [->|N1]; [auto|].
    destruct (decide (k = "Content-Type")) as [->|N2]; [auto|].
    rewrite !lookup_insert_ne in H by congruence. auto.
  - destruct (decide (k = "Content-Length")) as [->|N1]; [auto|].
    rewrite !lookup_insert_ne in H by congruence. auto.
  - destruct (decide (k = "Content-Type")) as [->|N2]; [auto|].
    rewrite !lookup_insert_ne in H by congruence. auto.
Qed.

Lemma content_headers_of_length (body : string) (m : gmap string string) :
  content_headers_of body m !! "Content-Length" =
    if header_specified "CONTENT-LENGTH" (Some m) then m !! "Content-Length"
    else Some (pretty (String.length body)).
Proof.
  unfold content_headers_of.
  destruct (header_specified "CONTENT-LENGTH" (Some m)); cbn [negb].
  - destruct (_ && _); [|reflexivity]. now rewrite lookup_insert_ne by discriminate.
  - apply lookup_insert_eq.
Qed.

Lemma content_headers_of_type (body : string) (m : gmap string string) :
  content_headers_of body m !! "Content-Type" =
    if header_specified "CONTENT-TYPE" (Some m) then m !! "Content-Type"
    else if snd (guessDataType body) then Some (fst (guessDataType body))
    else None.
Proof.
  unfold content_headers_of.
  assert (E : forall m1 : gmap string string,
            (if negb (header_specified "CONTENT-LENGTH" (Some m))
             then <["Content-Length" := pretty (String.length body)]> m1 else m1)
              !! "Content-Type" = m1 !! "Content-Type").
  { intros m1. destruct (negb _); [|reflexivity].
    now rewrite lookup_insert_ne by discriminate. }
  rewrite E.
  destruct (header_specified "CONTENT-TYPE" (Some m)) eqn:T; cbn [negb andb];
    [reflexivity|].
  destruct (snd (guessDataType body)); [apply lookup_insert_eq|].
  now apply (header_specified_false "CONTENT-TYPE").
Qed.

(** The body and the headers when [parseFlags] returns. *)
Lemma parseFlags_body (parsed : Arguments) (unused : list string)
    (err : option error) (w : World) (args : Arguments) :
  parseFlags parsed unused err w = Done args ->
  exists a1 a2,
    Data a1 = Data parsed /\
    load_data a1 w = Done a2 /\
    Data args = Data a2 /\
    match Data a2 with
    | None => Headers args = Headers parsed
    | Some body =>
        exists m, Headers parsed = Some m /\
                  Headers args = Some (content_headers_of body m)
    end /\
    same_output args parsed.
Proof.
  intros H. apply parseFlags_steps in H as (_ & a1 & a2 & a3 & H1 & H2 & H3 & H4).
  apply take_url_frame in H1 as (D1 & Hh1 & O1 & _).
  destruct (determine_method_frame a1) as (_ & D1' & Hh1' & _).
  pose proof (determine_method_output a1) as O1'.
  pose proof (load_data_output w _ _ H2) as O2.
  pose proof (load_data_frame w _ _ H2) as (_ & Hh2 & _).
  pose proof (content_headers_output _ _ H3) as O3.
  pose proof (content_headers_frame _ _ H3) as (_ & D3 & _).
  pose proof (size_flags_output _ _ H4) as O4.
  pose proof (size_flags_spec _ _ H4) as (_ & D4 & Hh4 & _).
  unfold same_data, same_headers in *.
  exists (determine_method a1), a2.
  split; [congruence|]. split; [assumption|]. split; [congruence|].
  split; [|eauto using same_output_trans].
  destruct (Data a2) as [body|] eqn:D2.
  - destruct (content_headers_headers _ _ body H3 D2) as (m & Hm & Hm').
    exists m. split; congruence.
  - rewrite (content_headers_no_body _ D2) in H3. injection H3 as <-. congruence.
Qed.

(** Proves [m = Done r] where [r] is defined as the result of [m]. *)
Ltac run_eq :=
  match goal with
  | |- ?m = Done ?r =>
      unfold r; destruct m eqn:?E; [reflexivity|vm_compute in E; discriminate..]
  end.

(** X9: whatever the command line, the method of the request is [GET],
    [HEAD] or [POST]: [GET] for every method given with [-X], else [HEAD]
    for [-I], else [POST] for a body not sent with [-G], else [GET]. *)
Theorem X9_method_is_GET_HEAD_or_POST (parsed : Arguments) (unused : list string)
    (err : option error) (w : World) (args : Arguments) :
  parseFlags parsed unused err w = Done args ->
  request_method (HTTPMethod args) =
    (if negb (String.eqb (HTTPMethod parsed) EmptyString) then "GET"
     else if Information parsed then "HEAD"
     else if bool_decide (Data parsed <> None) && negb (PostWithGet parsed) then "POST"
     else "GET") /\
  In (request_method (HTTPMethod args)) ["GET"; "HEAD"; "POST"].
Proof.
  intros H. pose proof (parseFlags_steps _ _ _ _ _ H) as (-> & _).
  assert (E : request_method (HTTPMethod args) =
              (if negb (String.eqb (HTTPMethod parsed) EmptyString) then "GET"
               else if Information parsed then "HEAD"
               else if bool_decide (Data parsed <> None) && negb (PostWithGet parsed)
                    then "POST"
               else "GET")).
  { destruct (String.eqb_spec (HTTPMethod parsed) EmptyString) as [Hm|Hm]; cbn [negb].
    - now apply (parseFlags_inferred_method parsed unused w).
    - now rewrite (parseFlags_explicit_method parsed unused w args Hm H). }
  split; [exact E|]. rewrite E.
  destruct (negb _); [|destruct (Information parsed); [|destruct (_ && _)]];
    simpl; auto.
Qed.

(** [-X PUT example.com] *)
Lemma X9_method_witness :
  request_method (HTTPMethod (set_HTTPMethod "GET" (set_URL "http://example.com" put_flags))) =
    (if negb (String.eqb (HTTPMethod put_flags) EmptyString) then "GET"
     else if Information put_flags then "HEAD"
     else if bool_decide (Data put_flags <> None) && negb (PostWithGet put_flags)
          then "POST"
     else "GET") /\
  In (request_method (HTTPMethod (set_HTTPMethod "GET" (set_URL "http://example.com" put_flags))))
     ["GET"; "HEAD"; "POST"].
Proof.
  apply (X9_method_is_GET_HEAD_or_POST put_flags ["example.com"] None empty_world).
  reflexivity.
Defined.

(** X11: [parseFlags] keeps the user's headers.  When it returns, every
    header the user gave is there with its value; a key that was not the
    user's is [Content-Type] or [Content-Length]; and without a body the
    headers are the user's. *)
Theorem X11_user_headers_are_kept (parsed : Arguments) (unused : list string)
    (err : option error) (w : World) (args : Arguments) (m : gmap string string) :
  parseFlags parsed unused err w = Done args ->
  Headers parsed = Some m ->
  exists m', Headers args = Some m' /\ m ⊆ m' /\
    (forall k, is_Some (m' !! k) ->
               is_Some (m !! k) \/ k = "Content-Type" \/ k = "Content-Length") /\
    (Data parsed = None -> m' = m).
Proof.
  intros H Hm.
  destruct (parseFlags_body _ _ _ _ _ H) as (a1 & a2 & D1 & L & D & M & _).
  destruct (Data a2) as [body|] eqn:D2.
  - destruct M as (m0 & Hm0 & Hm'). assert (m0 = m) as -> by congruence.
    exists (content_headers_of body m). split; [assumption|].
    split; [apply content_headers_of_subseteq|].
    split; [apply content_headers_of_keys|].
    intros Dn. apply load_data_data in L. rewrite D1, Dn in L. congruence.
  - exists m. split; [congruence|]. split; [reflexivity|]. split; auto.
Qed.

(** [-d a=1 -H Accept:text/plain example.com] *)
Lemma X11_user_headers_witness :
  exists m', Headers body_header_run = Some m' /\ accept_header ⊆ m' /\
    (forall k, is_Some (m' !! k) ->
               is_Some (accept_header !! k) \/ k = "Content-Type" \/ k = "Content-Length") /\
    (Data body_header_flags = None -> m' = accept_header).
Proof.
  apply (X11_user_headers_are_kept body_header_flags ["example.com"] None empty_world).
  - run_eq.
  - reflexivity.
Defined.

(** X12: the content headers describe the body that is sent.  When
    [parseFlags] returns with a body, [Content-Length] is the decimal
    length of that body and [Content-Type] is the type [guessDataType]
    finds for it (absent when it finds none), unless the user gave a header
    of that name in some spelling: then nothing is set for it. *)
Theorem X12_content_headers_describe_body (parsed : Arguments)
    (unused : list string) (err : option error) (w : World) (args : Arguments)
    (body : string) :
  parseFlags parsed unused err w = Done args ->
  Data args = Some body ->
  exists m m', Headers parsed = Some m /\ Headers args = Some m' /\
    m' !! "Content-Length" =
      (if header_specified "CONTENT-LENGTH" (Some m) then m !! "Content-Length"
       else Some (pretty (String.length body))) /\
    m' !! "Content-Type" =
      (if header_specified "CONTENT-TYPE" (Some m) then m !! "Content-Type"
       else if snd (guessDataType body) then Some (fst (guessDataType body))
       else None).
Proof.
  intros H Hb.
  destruct (parseFlags_body _ _ _ _ _ H) as (a1 & a2 & D1 & L & D & M & _).
  rewrite <- D, Hb in M. destruct M as (m & Hm & Hm').
  exists m, (content_headers_of body m). repeat split; try assumption.
  - apply content_headers_of_length.
  - apply content_headers_of_type.
Qed.

Lemma X12_content_headers_witness :
  exists m m', Headers body_header_flags = Some m /\ Headers body_header_run = Some m' /\
    m' !! "Content-Length" =
      (if header_specified "CONTENT-LENGTH" (Some m) then m !! "Content-Length"
       else Some (pretty (String.length "a=1"))) /\
    m' !! "Content-Type" =
      (if header_specified "CONTENT-TYPE" (Some m) then m !! "Content-Type"
       else if snd (guessDataType "a=1") then Some (fst (guessDataType "a=1"))
       else None).
Proof.
  apply (X12_content_headers_describe_body body_header_flags ["example.com"] None
           empty_world).
  - run_eq.
  - vm_compute. reflexivity.
Defined.

(** A body that names a missing file stops [parseFlags]. *)
Lemma parseFlags_missing_file (parsed : Arguments) (unused : list string) (w : World)
    (name : string) :
  Data parsed = Some (String "@" name) ->
  files w !! name = None ->
  unused <> [] ->
  parseFlags parsed unused None w = Panicked (PanicErr (ErrNotExist name)).
Proof.
  intros D Hf Hu. unfold parseFlags. cbn [WroteHelp must mbind outcome_bind Go.bind].
  destruct unused as [|u rest]; [contradiction|].
  destruct (take_url parsed (u :: rest)) as [a1| |] eqn:T.
  2,3: unfold take_url in T; destruct (negb _); discriminate.
  apply take_url_frame in T as (D1 & _).
  destruct (determine_method_frame a1) as (_ & D1' & _). unfold same_data in *.
  cbn [mbind outcome_bind Go.bind]. unfold load_data, ReadFile. rewrite D1', D1, D, Hf. reflexivity.
Qed.

(** X13: the body of the request.  When [parseFlags] returns, a body
    given as [@name] has been replaced by the contents of the file [name],
    which exists, and any other body is as given; when the file is missing
    [parseFlags] panics with the error of [ReadFile]. *)
Theorem X13_body_is_data_or_file (parsed : Arguments) (unused : list string)
    (err : option error) (w : World) :
  (forall args, parseFlags parsed unused err w = Done args ->
     match Data parsed with
     | Some (String c name) =>
         if Ascii.eqb c "@"
         then exists raw, files w !! name = Some raw /\
                          Data args = Some (string_of_list_byte raw)
         else Data args = Data parsed
     | _ => Data args = Data parsed
     end) /\
  (forall name, Data parsed = Some (String "@" name) -> files w !! name = None ->
     err = None -> unused <> [] ->
     parseFlags parsed unused err w = Panicked (PanicErr (ErrNotExist name))).
Proof.
  split.
  - intros args H.
    destruct (parseFlags_body _ _ _ _ _ H) as (a1 & a2 & D1 & L & D & _).
    apply load_data_data in L. rewrite D1 in L. rewrite D.
    exact L.
  - intros name D Hf -> Hu. now apply parseFlags_missing_file.
Qed.

(** [-d @body.json -H Accept:text/plain example.com] where the file holds
    [{}], and where it is missing. *)
Lemma X13_body_witness :
  (exists raw, files data_file_world !! "body.json" = Some raw /\
               Data data_file_run = Some (string_of_list_byte raw)) /\
  parseFlags data_file_flags ["example.com"] None empty_world =
    Panicked (PanicErr (ErrNotExist "body.json")).
Proof.
  split.
  - apply (proj1 (X13_body_is_data_or_file data_file_flags ["example.com"] None
                    data_file_world) data_file_run).
    run_eq.
  - apply (proj2 (X13_body_is_data_or_file data_file_flags ["example.com"] None
                    empty_world) "body.json"); [reflexivity..|discriminate].
Defined.


(** ** Sizes: what [parseSize] makes of a decimal number *)

Section Decimal.

Import Strconv.

Lemma digit_range (c : ascii) :
  Bytes.is_digit c = true -> 0 <= Bytes.code c - Bytes.code "0" <= 9.
Proof.
  unfold Bytes.is_digit, Bytes.between.
  assert (Bytes.code "0" = 48) as -> by reflexivity.
  assert (Bytes.code "9" = 57) as -> by reflexivity.
  intros H. apply andb_true_iff in H as [H1 H2]. lia.
Qed.

Lemma digit_no_letter (c : ascii) :
  Bytes.is_digit c = true ->
  Bytes.contains_byte "kKmMgG" c = false /\
  Ascii.eqb c "+" = false /\ Ascii.eqb c "-" = false.
Proof.
  destruct c as [[] [] [] [] [] [] [] []]; intros H;
    try (vm_compute in H; discriminate H); repeat split.
Qed.

Lemma value_from_ge (s : string) (n : Z) :
  all_digits s = true -> 0 <= n -> n <= value_from n s.
Proof.
  revert n. induction s as [|c r IH]; intros n Hd Hn; cbn [value_from all_digits] in *.
  - lia.
  - apply andb_true_iff in Hd as [Hc Hr]. pose proof (digit_range c Hc).
    specialize (IH (n * 10 + (Bytes.code c - Bytes.code "0")) Hr). lia.
Qed.

(** The digit loop of [ParseUint] on a digit string: the number written,
    or a range error when it is beyond [uint64]. *)
Lemma parse_digits_spec (s : string) (n : Z) :
  all_digits s = true -> 0 <= n <= max_uint64 ->
  parse_digits n s =
    if value_from n s <=? max_uint64 then (value_from n s, None)
    else (max_uint64, Some ErrRange).
Proof.
  assert (M : max_uint64 = 18446744073709551615) by reflexivity.
  assert (C : cutoff10 = 1844674407370955162) by reflexivity.
  revert n. induction s as [|c r IH]; intros n Hd Hn;
    cbn [parse_digits value_from all_digits] in *.
  - destruct (Z.leb_spec n max_uint64); [reflexivity|lia].
  - apply andb_true_iff in Hd as [Hc Hr]. rewrite Hc.
    pose proof (digit_range c Hc) as Hdr.
    set (d := Bytes.code c - Bytes.code "0") in *.
    pose proof (value_from_ge r (n * 10 + d) Hr ltac:(lia)) as Hge.
    destruct (Z.leb_spec cutoff10 n).
    + destruct (Z.leb_spec (value_from (n * 10 + d) r) max_uint64); [lia|reflexivity].
    + destruct (Z.ltb_spec max_uint64 (n * 10 + d)).
      * destruct (Z.leb_spec (value_from (n * 10 + d) r) max_uint64); [lia|reflexivity].
      * apply IH; [assumption|lia].
Qed.

Lemma ParseUint_digits (s : string) :
  s <> EmptyString -> all_digits s = true ->
  ParseUint s =
    if decimal_value s <=? max_uint64 then (decimal_value s, None)
    else (max_uint64, Some ErrRange).
Proof.
  intros Hs Hd. unfold ParseUint, decimal_value. destruct s; [contradiction|].
  apply parse_digits_spec; [assumption|]. unfold max_uint64. lia.
Qed.

Lemma decimal_value_nonneg (s : string) : all_digits s = true -> 0 <= decimal_value s.
Proof. intros H. now apply value_from_ge. Qed.

(** [ParseInt] on a digit string with an optional sign. *)
Lemma ParseInt_digits (s : string) :
  s <> EmptyString -> all_digits s = true ->
  ParseInt s =
    (if decimal_value s <=? max_int64 then (decimal_value s, None)
     else (max_int64, Some ErrRange)) /\
  ParseInt (String "+" s) = ParseInt s /\
  ParseInt (String "-" s) =
    (if decimal_value s <=? 2 ^ 63 then (- decimal_value s, None)
     else (min_int64, Some ErrRange)).
Proof.
  intros Hs Hd. pose proof (ParseUint_digits s Hs Hd) as U.
  pose proof (decimal_value_nonneg s Hd) as H0.
  assert (M : max_uint64 = 18446744073709551615) by reflexivity.
  assert (I : max_int64 = 9223372036854775807) by reflexivity.
  assert (P : 2 ^ 63 = 9223372036854775808) by reflexivity.
  assert (E : ParseInt s =
              (if decimal_value s <=? max_int64 then (decimal_value s, None)
               else (max_int64, Some ErrRange))).
  { unfold ParseInt. destruct s as [|c r]; [contradiction|].
    cbn [all_digits] in Hd. apply andb_true_iff in Hd as [Hc _].
    destruct (digit_no_letter c Hc) as (_ & -> & ->). rewrite U.
    destruct (Z.leb_spec (decimal_value (String c r)) max_uint64);
      destruct (Z.leb_spec (decimal_value (String c r)) max_int64); try lia;
      cbn [negb andb]; rewrite P.
    - destruct (Z.leb_spec 9223372036854775808 (decimal_value (String c r))); [lia|].
      rewrite wrap64_small by (unfold min_int64; lia). reflexivity.
    - destruct (Z.leb_spec 9223372036854775808 (decimal_value (String c r))); [|lia].
      rewrite I. reflexivity.
    - rewrite M, I. reflexivity. }
  split; [exact E|]. split.
  - rewrite E. unfold ParseInt. cbn [Ascii.eqb Bool.eqb]. rewrite U.
    destruct s as [|c r]; [contradiction|].
    destruct (Z.leb_spec (decimal_value (String c r)) max_uint64);
      destruct (Z.leb_spec (decimal_value (String c r)) max_int64); try lia;
      cbn [negb andb]; rewrite P.
    + destruct (Z.leb_spec 9223372036854775808 (decimal_value (String c r))); [lia|].
      rewrite wrap64_small by (unfold min_int64; lia). reflexivity.
    + destruct (Z.leb_spec 9223372036854775808 (decimal_value (String c r))); [|lia].
      rewrite I. reflexivity.
    + rewrite M, I. reflexivity.
  - unfold ParseInt. cbn [Ascii.eqb Bool.eqb]. rewrite U.
    destruct (Z.leb_spec (decimal_value s) max_uint64);
      destruct (Z.leb_spec (decimal_value s) (2 ^ 63)); try lia;
      cbn [negb andb]; rewrite ?P in *.
    + destruct (Z.ltb_spec 9223372036854775808 (decimal_value s)); [lia|].
      f_equal. unfold wrap64. rewrite P.
      assert (decimal_value s = 9223372036854775808 \/
              decimal_value s < 9223372036854775808) as [->|Hlt] by lia;
        [reflexivity|].
      rewrite (Z.mod_small (decimal_value s + _)) by lia.
      replace (- (decimal_value s + 9223372036854775808 - 9223372036854775808) +
               9223372036854775808) with (9223372036854775808 - decimal_value s) by lia.
      rewrite Z.mod_small by lia. lia.
    + destruct (Z.ltb_spec 9223372036854775808 (decimal_value s)); [|lia].
      reflexivity.
    + rewrite M. reflexivity.
Qed.

Lemma last_digit (s : string) :
  s <> EmptyString -> all_digits s = true ->
  exists c, Bytes.last s = Some c /\ Bytes.is_digit c = true.
Proof.
  induction s as [|c r IH]; intros Hs Hd; [contradiction|].
  cbn [all_digits] in Hd. apply andb_true_iff in Hd as [Hc Hr].
  destruct r as [|c' r']; [exists c; split; [reflexivity|assumption]|].
  destruct IH as (x & Hx & Hdx); [discriminate|assumption|].
  exists x. split; [|assumption]. cbn [Bytes.last] in *. exact Hx.
Qed.

(** A size without a letter is [ParseInt] of the whole string. *)
Lemma parseSize_no_letter (s : string) (c : ascii) :
  Bytes.last s = Some c -> Bytes.contains_byte "kKmMgG" c = false ->
  parseSize s = Done (ParseInt s).
Proof. intros Hl Hc. unfold parseSize. now rewrite Hl, Hc. Qed.

Lemma last_cons (c : ascii) (s : string) :
  s <> EmptyString -> Bytes.last (String c s) = Bytes.last s.
Proof. destruct s; [contradiction|reflexivity]. Qed.

Lemma parseSize_digits (s : string) :
  s <> EmptyString -> all_digits s = true ->
  parseSize s = Done (ParseInt s) /\
  parseSize (String "+" s) = Done (ParseInt (String "+" s)) /\
  parseSize (String "-" s) = Done (ParseInt (String "-" s)).
Proof.
  intros Hs Hd. destruct (last_digit s Hs Hd) as (c & Hl & Hc).
  destruct (digit_no_letter c Hc) as (Hn & _).
  repeat split; apply (parseSize_no_letter _ c); rewrite ?last_cons; assumption.
Qed.

End Decimal.

(** X14: sizes without a letter.  For every non-empty string of decimal
    digits writing the number [v]: [parseSize] returns [v] when [v] fits
    [int64] and a range error otherwise; with a [+] before it the same;
    with a [-] before it, it returns [-v] without error (down to
    [-2^63]): a negative size is accepted. *)
Theorem X14_parseSize_decimal (ds : string) :
  ds <> EmptyString -> all_digits ds = true ->
  parseSize ds =
    Done (if decimal_value ds <=? max_int64 then (decimal_value ds, None)
          else (max_int64, Some ErrRange)) /\
  parseSize (String "+" ds) = parseSize ds /\
  parseSize (String "-" ds) =
    Done (if decimal_value ds <=? 2 ^ 63 then (- decimal_value ds, None)
          else (min_int64, Some ErrRange)).
Proof.
  intros Hs Hd. destruct (parseSize_digits ds Hs Hd) as (-> & -> & ->).
  destruct (ParseInt_digits ds Hs Hd) as (-> & -> & ->). repeat split.
Qed.

Lemma X14_parseSize_decimal_witness :
  parseSize "2000" =
    Done (if decimal_value "2000" <=? max_int64 then (decimal_value "2000", None)
          else (max_int64, Some ErrRange)) /\
  parseSize (String "+" "2000") = parseSize "2000" /\
  parseSize (String "-" "2000") =
    Done (if decimal_value "2000" <=? 2 ^ 63 then (- decimal_value "2000", None)
          else (min_int64, Some ErrRange)).
Proof. apply X14_parseSize_decimal; [discriminate|reflexivity]. Defined.

(** X15: sizes with an upper-case letter.  For a non-empty digit string
    writing [v <= MaxInt64], the letters [K], [M] and [G] give
    [v * 1024], [v * 1024^2] and [v * 1024^3] reduced to [int64]: the
    product is the size when it fits and wraps around silently when it
    does not (there is no range check after the multiplication).  When [v]
    itself is beyond [int64] the result is [-1] with a range error, for
    each of the three letters. *)
Theorem X15_parseSize_scaled_wraps (ds : string) :
  ds <> EmptyString -> all_digits ds = true ->
  (decimal_value ds <= max_int64 ->
   parseSize (ds +:+ "K") = Done (wrap64 (decimal_value ds * 1024), None) /\
   parseSize (ds +:+ "M") = Done (wrap64 (decimal_value ds * (1024 * 1024)), None) /\
   parseSize (ds +:+ "G") =
     Done (wrap64 (decimal_value ds * (1024 * 1024 * 1024)), None)) /\
  (forall k, 0 <= k -> decimal_value ds * k <= max_int64 ->
             wrap64 (decimal_value ds * k) = decimal_value ds * k) /\
  (max_int64 < decimal_value ds ->
   parseSize (ds +:+ "K") = Done (-1, Some ErrRange) /\
   parseSize (ds +:+ "M") = Done (-1, Some ErrRange) /\
   parseSize (ds +:+ "G") = Done (-1, Some ErrRange)).
Proof.
  intros Hs Hd. destruct (ParseInt_digits ds Hs Hd) as (E & _).
  pose proof (decimal_value_nonneg ds Hd) as H0.
  split; [|split].
  - intros Hle. apply parseSize_upper_case. rewrite E.
    destruct (Z.leb_spec (decimal_value ds) max_int64); [reflexivity|lia].
  - intros k Hk Hle. apply wrap64_small. unfold min_int64. nia.
  - intros Hgt. unfold parseSize. rewrite !last_app_byte, !init_app_byte, E.
    destruct (Z.leb_spec (decimal_value ds) max_int64); [lia|]. repeat split.
Qed.

(** [9007199254740992K] is [2^53 * 2^10]: the size wraps to [-2^63]. *)
Lemma X15_parseSize_scaled_witness :
  parseSize ("9007199254740992" +:+ "K") = Done (min_int64, None) /\
  wrap64 (decimal_value "11" * 1024) = decimal_value "11" * 1024 /\
  parseSize ("9223372036854775808" +:+ "K") = Done (-1, Some ErrRange).
Proof.
  split; [|split].
  - destruct (X15_parseSize_scaled_wraps "9007199254740992") as (H & _);
      [discriminate|reflexivity|].
    destruct H as (-> & _); [vm_compute; discriminate|reflexivity].
  - destruct (X15_parseSize_scaled_wraps "11") as (_ & H & _);
      [discriminate|reflexivity|].
    apply H; vm_compute; discriminate.
  - destruct (X15_parseSize_scaled_wraps "9223372036854775808") as (_ & _ & H);
      [discriminate|reflexivity|].
    destruct H as (HK & _); [reflexivity|exact HK].
Defined.


(** ** Flags: when [parseFlags] returns *)

Section FlagsReturn.

Variable w : World.

Lemma load_data_returns (a : Arguments) :
  body_usable a w -> exists a', load_data a w = Done a'.
Proof.
  unfold body_usable, load_data. destruct (Data a) as [[|c name]|]; [contradiction| |eauto].
  intros (Hf & _). destruct (Ascii.eqb_spec c "@") as [->|]; [|eauto].
  destruct (Hf eq_refl) as [raw Hraw]. unfold ReadFile. rewrite Hraw. cbn. eauto.
Qed.

Lemma content_headers_returns (a : Arguments) :
  (Data a <> None -> Headers a <> None) -> exists a', content_headers a = Done a'.
Proof.
  intros H. destruct (Data a) as [body|] eqn:D.
  - destruct (Headers a) as [m|] eqn:Hm; [|now destruct H].
    unfold content_headers. rewrite D.
    assert (S1 : exists a1, (if negb (header_specified "CONTENT-TYPE" (Headers a))
                             then let '(contentType, requiresHeader) := guessDataType body in
                                  if requiresHeader
                                  then assign_header "Content-Type" contentType a
                                  else Done a
                             else Done a) = Done a1 /\
                            Data a1 = Some body /\ Headers a1 <> None).
    { destruct (negb _); [|exists a; repeat split; congruence].
      destruct (guessDataType body) as [ct [|]]; [|exists a; repeat split; congruence].
      unfold assign_header. rewrite Hm. eexists. split; [reflexivity|].
      cbn [Data Headers set_Headers]. split; [assumption|discriminate]. }
    destruct S1 as (a1 & -> & D1 & H1). cbn [mbind outcome_bind Go.bind]. rewrite D1.
    destruct (negb _); [|eauto].
    unfold assign_header. destruct (Headers a1); [eauto|contradiction].
  - exists a. now apply content_headers_no_body.
Qed.

Lemma size_flags_returns (a : Arguments) :
  size_usable (LimitRate a) -> size_usable (MaxDownload a) ->
  exists a', size_flags a = Done a'.
Proof.
  unfold size_usable, size_flags. intros HL HM.
  destruct (LimitRate a) as [r|].
  - destruct HL as [n ->]. cbn [must mbind outcome_bind Go.bind].
    cbn [MaxDownload set_LimitRateBytes].
    destruct (MaxDownload a) as [s|]; [|eauto].
    destruct HM as [k ->]. cbn [must mbind outcome_bind Go.bind]. eauto.
  - cbn [mbind outcome_bind Go.bind].
    destruct (MaxDownload a) as [s|]; [|eauto].
    destruct HM as [k ->]. cbn [must mbind outcome_bind Go.bind]. eauto.
Qed.

(** [parseFlags] returns exactly when the flags were parsed, a URL is
    there, the body is usable and the sizes are. *)
Lemma parseFlags_returns (parsed : Arguments) (unused : list string)
    (err : option error) :
  (exists args, parseFlags parsed unused err w = Done args) <->
  err = None /\ unused <> [] /\ body_usable parsed w /\
  size_usable (LimitRate parsed) /\ size_usable (MaxDownload parsed).
Proof.
  split.
  - intros [args H].
    pose proof (parseFlags_steps _ _ _ _ _ H) as (-> & a1 & a2 & a3 & H1 & H2 & H3 & H4).
    split; [reflexivity|]. split.
    { intros ->. discriminate. }
    destruct (parseFlags_sizes _ _ _ _ _ H) as (SM & SL & _).
    split; [|split].
    + pose proof (parseFlags_body _ _ _ _ _ H) as (b1 & b2 & D1 & L & D & M & _).
      unfold body_usable. destruct (Data parsed) as [[|c name]|] eqn:Dp; [| |exact I].
      * rewrite (parseFlags_empty_data parsed unused w Dp) in H; [discriminate|].
        intros ->. discriminate.
      * pose proof (load_data_data w _ _ L) as LD. rewrite D1 in LD.
        split.
        -- intros ->. cbn in LD. destruct LD as (raw & -> & _). eauto.
        -- assert (Data b2 <> None) as Hb
             by (apply (load_data_keeps_body w b1); [assumption|congruence]).
           destruct (Data b2); [|contradiction]. destruct M as (m & -> & _). discriminate.
    + unfold size_usable. destruct (LimitRate parsed); eauto.
    + unfold size_usable. destruct (MaxDownload parsed); eauto.
  - intros (-> & Hu & Hb & HL & HM).
    destruct unused as [|u rest]; [contradiction|].
    unfold parseFlags. cbn [WroteHelp must mbind outcome_bind Go.bind].
    destruct (take_url parsed (u :: rest)) as [a1| |] eqn:T.
    2,3: unfold take_url in T; destruct (negb _); discriminate.
    apply take_url_frame in T as (D1 & Hh1 & _ & (L1 & M1) & _).
    destruct (determine_method_frame a1) as (_ & D1' & Hh1' & (L1' & M1') & _).
    unfold same_data, same_headers in *. cbn [mbind outcome_bind Go.bind].
    destruct (load_data_returns (determine_method a1)) as [a2 H2].
    { unfold body_usable in *. now rewrite D1', D1, Hh1', Hh1. }
    rewrite H2. cbn [mbind outcome_bind Go.bind].
    pose proof (load_data_frame w _ _ H2) as (_ & Hh2 & (L2 & M2) & _).
    unfold same_headers in *.
    destruct (content_headers_returns a2) as [a3 H3].
    { intros Hd2. rewrite Hh2, Hh1', Hh1.
      pose proof (load_data_data w _ _ H2) as LD. rewrite D1', D1 in LD.
      unfold body_usable in Hb.
      destruct (Data parsed) as [[|c name]|]; [contradiction|tauto|congruence]. }
    rewrite H3. cbn [mbind outcome_bind Go.bind].
    pose proof (content_headers_frame _ _ H3) as (_ & _ & (L3 & M3) & _).
    apply size_flags_returns.
    + now rewrite L3, L2, L1', L1.
    + now rewrite M3, M2, M1', M1.
Qed.

End FlagsReturn.

(** X16: when [parseFlags] returns.  It returns arguments exactly when
    [flags.Parse] gave no error, there is a non-flag argument (the URL),
    the body if any is not empty, names an existing file when it starts
    with [@] and comes with a header map, and [parseSize] returns a number
    for each size given.  In every other case it exits or panics. *)
Theorem X16_parseFlags_returns_exactly_when (parsed : Arguments)
    (unused : list string) (err : option error) (w : World) :
  (exists args, parseFlags parsed unused err w = Done args) <->
  err = None /\ unused <> [] /\ body_usable parsed w /\
  size_usable (LimitRate parsed) /\ size_usable (MaxDownload parsed).
Proof. apply parseFlags_returns. Qed.

(** [--max-filesize 11K http://example.com] gets past [parseFlags]. *)
Lemma X16_parseFlags_returns_witness :
  exists args, parseFlags max_11K_flags ["http://example.com"] None empty_world = Done args.
Proof.
  apply X16_parseFlags_returns_exactly_when.
  split; [reflexivity|]. split; [discriminate|]. split; [exact I|].
  split; [exact I|]. exists 11264. reflexivity.
Defined.


(** ** Whole runs: from the command line to the output *)

Section LimitedRun.

Variables (args : Arguments) (res : Response) (w : World) (m : Z).
Hypothesis no_output_file : OutputFile args = None.
Hypothesis no_remote_name : UseRemoteName args = false.
Hypothesis limit_set : MaxDownload args <> None.
Hypothesis limit_bytes : MaxDownloadBytes args = m.

(** Under a limit that fits, standard output gets the first [m] bytes. *)
Lemma respond_to_stdout_limited :
  0 <= m <= max_int64 ->
  reader_ok (Body res) ->
  Forall (fun ev => fatal (rerr ev) = None) (Body res) ->
  Z.of_nat (length (delivered (Body res))) <= max_int64 ->
  exists args' w',
    respond args res w = Done (args', w') /\
    stdout w' = (stdout w ++ take (Z.to_nat m) (delivered (Body res)))%list /\
    files w' = files w.
Proof.
  intros Hm Hok Hnf Hlen. unfold respond, resolveOutput.
  rewrite no_output_file, no_remote_name.
  unfold openOutput. cbn [OutputFile set_OutputStream]. rewrite no_output_file.
  cbn [mbind outcome_bind Go.bind].
  destruct (copyLoop_limited_any (set_OutputStream (Some Stdout) args) m limit_set
              limit_bytes (proj2 Hm) (Body res)
              (copy_init (set_OutputStream (Some Stdout) args) w) Stdout Hok Hnf eq_refl)
    as (st' & cs & E & W & C & _ & _);
    [cbn [copy_init total]; lia..|].
  rewrite E. cbn [Go.bind]. eexists _, _. split; [reflexivity|].
  injection W as _ ->. rewrite stdout_write_all. cbn [snd stdout files copy_init world total] in *.
  rewrite Z.sub_0_r in C. now rewrite C.
Qed.

(** Under a negative limit nothing is written. *)
Lemma respond_negative_limit :
  min_int64 <= m < 0 ->
  fatal (rerr (default eof_read (head (Body res)))) = None ->
  (length (chunk (default eof_read (head (Body res)))) <= buffer_len)%nat ->
  respond args res w = Panicked PanicSlice.
Proof.
  intros Hm Hf Hlen. unfold respond, resolveOutput.
  rewrite no_output_file, no_remote_name.
  unfold openOutput. cbn [OutputFile set_OutputStream]. rewrite no_output_file.
  cbn [mbind outcome_bind Go.bind].
  assert (Hneg : min_int64 <= MaxDownloadBytes (set_OutputStream (Some Stdout) args) < 0)
    by (cbn [MaxDownloadBytes set_OutputStream]; now rewrite limit_bytes).
  now rewrite (proj1 (copyLoop_negative_limit (set_OutputStream (Some Stdout) args)
                        (Body res) (copy_init (set_OutputStream (Some Stdout) args) w)
                        limit_set Hneg eq_refl Hf Hlen)).
Qed.

End LimitedRun.

(** What [parseFlags] hands to the rest of [main] for [--max-filesize]. *)
Lemma parseFlags_limit (parsed : Arguments) (unused : list string)
    (err : option error) (w : World) (args : Arguments) (size : string) :
  parseFlags parsed unused err w = Done args ->
  MaxDownload parsed = Some size ->
  OutputFile parsed = None -> UseRemoteName parsed = false ->
  OutputFile args = None /\ UseRemoteName args = false /\
  MaxDownload args <> None /\ parseSize size = Done (MaxDownloadBytes args, None).
Proof.
  intros H HM Ho Hr.
  destruct (parseFlags_body _ _ _ _ _ H) as (_ & _ & _ & _ & _ & _ & (O1 & O2 & _)).
  destruct (parseFlags_sizes _ _ _ _ _ H) as (S & _ & M & _). rewrite HM in S.
  repeat split; congruence.
Qed.

(** X17: a run with [--max-filesize].  For a size given as a non-empty
    digit string writing [v <= MaxInt64], without [-o] and [-O]: once
    [parseFlags] has returned, for every response body that keeps to the
    buffer size, does not fail and delivers a number of bytes within
    [int64], the run ends normally and standard output has received
    exactly the first [v] bytes of the body (all of it when it is
    shorter); no file changes. *)
Theorem X17_max_filesize_run (parsed : Arguments) (unused : list string)
    (err : option error) (w : World) (args : Arguments) (res : Response)
    (ds : string) :
  parseFlags parsed unused err w = Done args ->
  MaxDownload parsed = Some ds ->
  ds <> EmptyString -> all_digits ds = true -> decimal_value ds <= max_int64 ->
  OutputFile parsed = None -> UseRemoteName parsed = false ->
  reader_ok (Body res) ->
  Forall (fun ev => fatal (rerr ev) = None) (Body res) ->
  Z.of_nat (length (delivered (Body res))) <= max_int64 ->
  exists args' w',
    respond args res w = Done (args', w') /\
    stdout w' =
      (stdout w ++ take (Z.to_nat (decimal_value ds)) (delivered (Body res)))%list /\
    files w' = files w.
Proof.
  intros H HM Hs Hd Hv Ho Hr Hok Hnf Hlen.
  destruct (parseFlags_limit _ _ _ _ _ _ H HM Ho Hr) as (O & R & L & P).
  destruct (parseSize_digits ds Hs Hd) as (E & _).
  destruct (ParseInt_digits ds Hs Hd) as (E' & _).
  rewrite E, E' in P.
  destruct (Z.leb_spec (decimal_value ds) max_int64); [|lia].
  injection P as P.
  apply (respond_to_stdout_limited args res w (decimal_value ds)); auto.
  split; [now apply decimal_value_nonneg|assumption].
Qed.

(** [--max-filesize 2000 http://example.com] and a body of two bytes. *)
Lemma X17_max_filesize_run_witness :
  exists args' w',
    respond max_2000_parsed short_response empty_world = Done (args', w') /\
    stdout w' =
      (stdout empty_world ++
       take (Z.to_nat (decimal_value "2000")) (delivered (Body short_response)))%list /\
    files w' = files empty_world.
Proof.
  apply (X17_max_filesize_run max_2000_flags ["http://example.com"] None empty_world
           max_2000_parsed short_response "2000"); try reflexivity.
  - discriminate.
  - vm_compute. discriminate.
  - apply body_of_ok.
  - apply body_of_ok.
  - vm_compute. discriminate.
Defined.

(** X18: a run with a negative [--max-filesize].  A size given as [-]
    and a non-empty digit string writing [0 < v <= 2^63] gets past
    [parseFlags]; without [-o] and [-O] the run then panics in the first
    iteration of the copy loop with a slice bound out of range, for every
    response body whose first read does not fail and keeps to the buffer
    size. *)
Theorem X18_negative_max_filesize_run (parsed : Arguments) (unused : list string)
    (err : option error) (w : World) (args : Arguments) (res : Response)
    (ds : string) :
  parseFlags parsed unused err w = Done args ->
  MaxDownload parsed = Some (String "-" ds) ->
  ds <> EmptyString -> all_digits ds = true -> 0 < decimal_value ds <= 2 ^ 63 ->
  OutputFile parsed = None -> UseRemoteName parsed = false ->
  fatal (rerr (default eof_read (head (Body res)))) = None ->
  (length (chunk (default eof_read (head (Body res)))) <= buffer_len)%nat ->
  MaxDownloadBytes args = - decimal_value ds /\
  respond args res w = Panicked PanicSlice.
Proof.
  intros H HM Hs Hd Hv Ho Hr Hf Hlen.
  destruct (parseFlags_limit _ _ _ _ _ _ H HM Ho Hr) as (O & R & L & P).
  destruct (parseSize_digits ds Hs Hd) as (_ & _ & E).
  destruct (ParseInt_digits ds Hs Hd) as (_ & _ & E').
  rewrite E, E' in P.
  destruct (Z.leb_spec (decimal_value ds) (2 ^ 63)); [|lia].
  injection P as P. split; [now symmetry|].
  apply (respond_negative_limit args res w (- decimal_value ds)); auto.
  unfold min_int64. lia.
Qed.

(** [--max-filesize=-5 http://example.com] *)
Lemma X18_negative_max_filesize_witness :
  MaxDownloadBytes minus_5_parsed = - decimal_value "5" /\
  respond minus_5_parsed short_response empty_world = Panicked PanicSlice.
Proof.
  apply (X18_negative_max_filesize_run minus_5_flags ["http://example.com"] None
           empty_world minus_5_parsed short_response "5"); try reflexivity.
  - discriminate.
  - vm_compute. split; [reflexivity|discriminate].
  - vm_compute. lia.
Defined.


(** ** Content type: the form pattern *)

Section FormPattern.

Import Regexp.

Lemma star_lazy_no_equals (k : cont) (s : string) (p : option ascii) (i cs ce : nat) :
  Bytes.contains_byte s "=" = false ->
  star_lazy AnyNotNL (eat (Lit "=") k) p s i cs ce = None.
Proof.
  revert p i. induction s as [|c r IH]; intros p i H; cbn [star_lazy].
  - reflexivity.
  - cbn [Bytes.contains_byte] in H. apply orb_false_iff in H as [Hc Hr].
    unfold eat at 1. cbn [rest matches]. rewrite Ascii.eqb_sym, Hc. cbn [orelse].
    destruct (negb _); [now apply IH|reflexivity].
Qed.

Lemma search_no_equals (s : string) (p : option ascii) (i : nat) :
  Bytes.contains_byte s "=" = false ->
  search form_pattern p s i = None.
Proof.
  revert p i. induction s as [|c r IH]; intros p i H; cbn [search].
  - reflexivity.
  - change (run form_pattern (mkCursor p (String c r) i) 0%nat 0%nat)
      with (star_lazy AnyNotNL (eat (Lit "=") (run (tail after_lazy_star)))
              p (String c r) i 0%nat 0%nat).
    rewrite star_lazy_no_equals by assumption. cbn [orelse].
    cbn [Bytes.contains_byte] in H. apply orb_false_iff in H as [_ Hr]. now apply IH.
Qed.

Lemma word_not_newline (c : ascii) :
  is_word c = true -> matches AnyNotNL c = true /\ Ascii.eqb "&" c = false.
Proof.
  destruct c as [[] [] [] [] [] [] [] []]; intros H;
    try (vm_compute in H; discriminate H); split; reflexivity.
Qed.

(** Between a word byte and a byte that is not one, [&?\b] matches. *)
Lemma after_lazy_plus_boundary (s : string) (c : ascii) (i cs ce : nat) :
  is_word c = true -> is_word_opt (head s) = false ->
  run after_lazy_plus (mkCursor (Some c) s i) cs ce <> None.
Proof.
  intros Hc Hs.
  change (run after_lazy_plus (mkCursor (Some c) s i) cs ce)
    with (orelse (eat (Lit "&") (run [WordBoundary]) (mkCursor (Some c) s i) cs ce)
                 (run [WordBoundary] (mkCursor (Some c) s i) cs ce)).
  assert (E : run [WordBoundary] (mkCursor (Some c) s i) cs ce = Some (mkFound i cs ce)).
  { cbn [run prev rest pos is_word_opt]. rewrite Hc, Hs. reflexivity. }
  rewrite E. destruct (eat _ _ _ cs ce); discriminate.
Qed.

(** After a word byte, [.+?&?\b] finds its end: at the end of the run of
    word bytes at the latest. *)
Lemma lazy_plus_word (s : string) (c : ascii) (i cs ce : nat) :
  is_word c = true ->
  star_lazy AnyNotNL (run after_lazy_plus) (Some c) s i cs ce <> None.
Proof.
  revert c i. induction s as [|c' r IH]; intros c i Hc; cbn [star_lazy].
  - pose proof (after_lazy_plus_boundary EmptyString c i cs ce Hc eq_refl) as E.
    destruct (run after_lazy_plus _ cs ce); [discriminate|contradiction].
  - destruct (is_word c') eqn:Hc'.
    + destruct (word_not_newline c' Hc') as (-> & _).
      destruct (run after_lazy_plus _ cs ce); [discriminate|]. cbn [orelse].
      now apply IH.
    + pose proof (after_lazy_plus_boundary (String c' r) c i cs ce Hc Hc') as E.
      destruct (run after_lazy_plus _ cs ce); [discriminate|contradiction].
Qed.

Lemma run_form_at_equals (c : ascii) (r : string) (p : option ascii) (i cs ce : nat) :
  is_word c = true ->
  run form_pattern (mkCursor p (String "=" (String c r)) i) cs ce <> None.
Proof.
  intros Hc.
  change (run form_pattern (mkCursor p (String "=" (String c r)) i) cs ce)
    with (star_lazy AnyNotNL (eat (Lit "=") (run (tail after_lazy_star)))
            p (String "=" (String c r)) i cs ce).
  cbn [star_lazy]. unfold eat at 1. cbn [rest matches Ascii.eqb Bool.eqb pos].
  change (run (tail after_lazy_star))
    with (eat AnyNotNL (star false AnyNotNL (run after_lazy_plus))).
  unfold eat at 1. cbn [rest pos]. destruct (word_not_newline c Hc) as (-> & _).
  unfold star. cbn [prev rest pos].
  pose proof (lazy_plus_word r c (S (S i)) cs ce Hc) as H.
  destruct (star_lazy AnyNotNL (run after_lazy_plus) (Some c) r (S (S i)) cs ce);
    [discriminate|contradiction].
Qed.

Lemma search_found_later (re : regex) (pre s : string) (p : option ascii) (i : nat) :
  (forall p' i', run re (mkCursor p' s i') 0%nat 0%nat <> None) ->
  search re p (pre +:+ s) i <> None.
Proof.
  intros H. revert p i. induction pre as [|a pre IH]; intros p i.
  - change (EmptyString +:+ s) with s. specialize (H p i).
    destruct s; cbn [search]; destruct (run re _ 0%nat 0%nat) eqn:E;
      try discriminate; congruence.
  - change (String a pre +:+ s) with (String a (pre +:+ s)). cbn [search].
    destruct (run re _ 0%nat 0%nat); [discriminate|].
    cbn [orelse]. apply IH.
Qed.

Lemma Match_no_equals (data : string) :
  Bytes.contains_byte data "=" = false -> Match form_pattern data = false.
Proof. intros H. unfold Match. now rewrite search_no_equals. Qed.

Lemma Match_equals_word (pre r : string) (c : ascii) :
  is_word c = true ->
  Match form_pattern (pre +:+ String "=" (String c r)) = true.
Proof.
  intros Hc. unfold Match.
  pose proof (search_found_later form_pattern pre (String "=" (String c r)) None 0
                (fun p' i' => run_form_at_equals c r p' i' 0%nat 0%nat Hc)) as H.
  destruct (search form_pattern None _ 0); [reflexivity|contradiction].
Qed.

End FormPattern.

(** X19: which bodies are form data.  A body with no [=] in it never
    matches the pattern: it is JSON or gets no content type.  A body in
    which some [=] is followed at once by a word byte (a letter, a digit
    or [_]) always matches: it gets a content type, the form type unless
    a JSON value can be read from its start. *)
Theorem X19_form_data_needs_equals (data pre r : string) (c : ascii) :
  (Bytes.contains_byte data "=" = false ->
   Regexp.Match Regexp.form_pattern data = false /\
   (guessDataType data = ("application/json", true) \/
    guessDataType data = (EmptyString, false))) /\
  (Regexp.is_word c = true ->
   Regexp.Match Regexp.form_pattern (pre +:+ String "=" (String c r)) = true /\
   (guessDataType (pre +:+ String "=" (String c r)) = ("application/json", true) \/
    guessDataType (pre +:+ String "=" (String c r)) =
      ("application/x-www-form-urlencoded", true))).
Proof.
  split.
  - intros H. pose proof (Match_no_equals data H) as M. split; [exact M|].
    unfold guessDataType. rewrite M. destruct (Json.decode_ok data); auto.
  - intros Hc. pose proof (Match_equals_word pre r c Hc) as M. split; [exact M|].
    unfold guessDataType. rewrite M. destruct (Json.decode_ok _); auto.
Qed.

(** [hello world] has no [=]; in [name=Ann] the [=] is followed by [A]. *)
Lemma X19_form_data_witness :
  (Regexp.Match Regexp.form_pattern "hello world" = false /\
   (guessDataType "hello world" = ("application/json", true) \/
    guessDataType "hello world" = (EmptyString, false))) /\
  (Regexp.Match Regexp.form_pattern ("name" +:+ String "=" (String "A" "nn")) = true /\
   (guessDataType ("name" +:+ String "=" (String "A" "nn")) = ("application/json", true) \/
    guessDataType ("name" +:+ String "=" (String "A" "nn")) =
      ("application/x-www-form-urlencoded", true))).
Proof.
  split.
  - apply (proj1 (X19_form_data_needs_equals "hello world" EmptyString EmptyString "a")).
    reflexivity.
  - apply (proj2 (X19_form_data_needs_equals EmptyString "name" "nn" "A")).
    reflexivity.
Defined.


(** ** Content type: what the decoder has read *)

Section JsonPrefix.

Import Json.

Ltac split_tests :=
  repeat match goal with
  | |- context [if ?b then _ else _] => destruct b eqn:?
  | |- context [match ?x with _ => _ end] => destruct x eqn:?
  end.

Ltac unfold_steps :=
  unfold do_step, do_stateBeginValueOrEmpty, do_stateBeginStringOrEmpty,
    do_stateBeginValue, do_stateBeginString, do_stateInString, do_stateInStringEsc,
    do_hex, do_stateNeg, do_state1, do_state0, do_stateDot, do_stateDot0, do_stateE,
    do_stateESign, do_stateE0, do_letter, do_stateEndValue, do_stateEndTop,
    pushParseState, popParseState, error, set_top, set_step.

Lemma do_step_keeps_inside (s : scanner) (c : ascii) :
  scanning s -> kept_inside (do_step s c).
Proof.
  destruct s as [st et ps er]. unfold scanning. cbn [err endTop step parseState].
  intros (-> & -> & H1 & H2).
  destruct st; try (now destruct H1); unfold_steps; cbn [step endTop parseState err];
    split_tests; unfold kept_inside; cbn [fst snd step endTop parseState err];
    try exact I; (split; [discriminate|]); try (intros E; discriminate E); auto.
Qed.

(** The end of the top-level value is reported only at top level, from a
    state in which a value may be complete. *)
Lemma do_step_end (s : scanner) (c : ascii) :
  scanning s -> snd (do_step s c) = scanEnd ->
  parseState s = [] /\ may_end (step s) = true.
Proof.
  destruct s as [st et ps er]. unfold scanning. cbn [err endTop step parseState].
  intros (-> & -> & H1 & H2).
  destruct st; try (now destruct H1); destruct ps as [|p0 ps];
    try (now destruct (H2 eq_refl));
    unfold_steps; cbn [step endTop parseState err tail length];
    split_tests; cbn [fst snd may_end]; intros E; try discriminate E; split; reflexivity.
Qed.

Lemma may_end_eof (s : scanner) :
  err s = false -> parseState s = [] -> may_end (step s) = true -> eof s = scanEnd.
Proof.
  destruct s as [st et ps er]. cbn [err step parseState]. intros -> -> H.
  destruct st; try discriminate H; destruct et; reflexivity.
Qed.

(** When the decoder reads a value, what it has read is one JSON value. *)
Lemma readValue_prefix (data : string) (s : scanner) (n k : nat) :
  scanning s -> readValue s n data = Some k ->
  exists p r, data = p +:+ r /\ valid_from s p = true.
Proof.
  revert s n. induction data as [|c r IH]; intros s n HI H; cbn [readValue] in H.
  - destruct (is_scanEnd (do_step s " ")) eqn:E; [|discriminate].
    exists EmptyString, EmptyString. split; [reflexivity|].
    unfold is_scanEnd in E.
    destruct (snd (do_step s " ")) eqn:E'; try discriminate E.
    destruct (do_step_end s " " HI E') as (Hp & Hm).
    unfold valid_from. cbn [scan_all]. destruct HI as (He & _).
    now rewrite (may_end_eof s He Hp Hm).
  - pose proof (do_step_keeps s c (proj1 HI) (proj1 (proj2 HI))) as K.
    pose proof (do_step_keeps_inside s c HI) as K'.
    pose proof (do_step_end s c HI) as End.
    unfold kept in K. unfold kept_inside in K'.
    destruct (do_step s c) as [s1 code] eqn:E. cbn [fst snd] in K, K', End.
    assert (Step : forall p, valid_from s (String c p) =
                             match code with scanError => false | _ => valid_from s1 p end).
    { intros p. unfold valid_from. cbn [scan_all]. rewrite E. now destruct code. }
    assert (Go : code <> scanEnd -> code <> scanError ->
                 scanning s1 -> readValue s1 (S n) r = Some k ->
                 exists p r', String c r = p +:+ r' /\ valid_from s p = true).
    { intros N1 N2 HI1 H1. destruct (IH s1 (S n) HI1 H1) as (p & r' & -> & V).
      exists (String c p), r'. split; [reflexivity|]. rewrite Step.
      destruct code; congruence. }
    destruct code; try discriminate H;
      try (apply Go; [discriminate|discriminate| |exact H];
           destruct K as (? & ?), K' as (? & ?); repeat split; assumption).
    + (* scanEndObject *)
      destruct K as (He & [[Ht Hp]|(Ht & Hst & Hp)]).
      * exists (String c EmptyString), r. split; [reflexivity|].
        rewrite Step. unfold valid_from. cbn [scan_all]. unfold eof.
        now rewrite He, Ht.
      * destruct s1 as [st1 et1 [|p0 ps1] er1]; [contradiction|].
        cbn [step endTop err] in Hst, Ht, He. subst.
        unfold do_stateEndValue in H. cbn in H.
        apply Go; [discriminate|discriminate| |exact H].
        repeat split; cbn; try discriminate.
    + (* scanEndArray *)
      destruct K as (He & [[Ht Hp]|(Ht & Hst & Hp)]).
      * exists (String c EmptyString), r. split; [reflexivity|].
        rewrite Step. unfold valid_from. cbn [scan_all]. unfold eof.
        now rewrite He, Ht.
      * destruct s1 as [st1 et1 [|p0 ps1] er1]; [contradiction|].
        cbn [step endTop err] in Hst, Ht, He. subst.
        unfold do_stateEndValue in H. cbn in H.
        apply Go; [discriminate|discriminate| |exact H].
        repeat split; cbn; try discriminate.
    + (* scanEnd *)
      exists EmptyString, (String c r). split; [reflexivity|].
      destruct (End eq_refl) as (Hp & Hm).
      unfold valid_from. cbn [scan_all]. destruct HI as (He & _).
      now rewrite (may_end_eof s He Hp Hm).
Qed.

Lemma decode_ok_prefix (data : string) :
  decode_ok data = true ->
  exists p r, data = p +:+ r /\ Valid p = true.
Proof.
  unfold decode_ok. destruct (readValue reset 0 data) as [k|] eqn:E; [|discriminate].
  intros _. apply (readValue_prefix data reset 0 k); [|exact E].
  repeat split; cbn; discriminate.
Qed.

End JsonPrefix.

(** X20: what the JSON content type means.  A body gets
    [application/json] exactly when the decoder reads a value from it, and
    then the body begins with one complete JSON value: it is that value
    followed by bytes the decoder did not look at.  A body that is one
    JSON value always gets the type. *)
Theorem X20_json_type_means_json_prefix (data : string) :
  (guessDataType data = ("application/json", true) <-> Json.decode_ok data = true) /\
  (Json.decode_ok data = true ->
   exists p r, data = p +:+ r /\ Json.Valid p = true) /\
  (Json.Valid data = true -> Json.decode_ok data = true).
Proof.
  split; [|split].
  - unfold guessDataType. destruct (Json.decode_ok data); [tauto|].
    destruct (Regexp.Match _ _); split; discriminate.
  - apply decode_ok_prefix.
  - apply decode_ok_of_Valid.
Qed.

(** The body [{"a":1} trailing] begins with the JSON value [{"a":1}]. *)
Lemma X20_json_prefix_witness :
  exists p r, json_object_example +:+ " trailing" = p +:+ r /\ Json.Valid p = true.
Proof.
  apply (proj1 (proj2 (X20_json_type_means_json_prefix
                         (json_object_example +:+ " trailing")))).
  vm_compute. reflexivity.
Defined.


(** ** The output file: the name taken from [Content-Disposition] *)

Lemma append_assoc (a b c : string) : (a +:+ b) +:+ c = a +:+ b +:+ c.
Proof.
  induction a as [|x a IH]; rewrite ?app_cons, ?app_nil; [reflexivity|now rewrite IH].
Qed.

Lemma length_append (a b : string) :
  String.length (a +:+ b) = (String.length a + String.length b)%nat.
Proof.
  induction a as [|x a IH]; rewrite ?app_cons, ?app_nil; cbn [String.length Nat.add];
    [reflexivity|now rewrite IH].
Qed.

Lemma substring_skip (a b : string) (k n : nat) :
  substring (String.length a + k) n (a +:+ b) = substring k n b.
Proof.
  induction a as [|x a IH]; rewrite ?app_cons, ?app_nil;
    cbn [String.length Nat.add substring]; [reflexivity|exact IH].
Qed.

Lemma substring_all (s : string) : substring 0 (String.length s) s = s.
Proof. induction s as [|x s IH]; cbn [String.length substring]; [reflexivity|now rewrite IH]. Qed.

Lemma has_prefix_app (lit s t : string) :
  (String.length lit <= String.length s)%nat ->
  Bytes.has_prefix lit (s +:+ t) = Bytes.has_prefix lit s.
Proof.
  revert s. induction lit as [|a lit IH]; intros s H; [reflexivity|].
  destruct s as [|c s]; cbn [String.length] in H; [lia|].
  rewrite app_cons. cbn [Bytes.has_prefix]. rewrite IH by lia. reflexivity.
Qed.

Section FilenamePattern.

Import Regexp.

(** A literal at the head of a pattern: it is taken off the text, or the
    match fails. *)
Lemma run_literal (lit : string) (re : regex) (s : string) (pv : option ascii)
    (i cs ce : nat) :
  exists pv',
    run (literal lit ++ re)%list (mkCursor pv (lit +:+ s) i) cs ce =
    run re (mkCursor pv' s (i + String.length lit)) cs ce.
Proof.
  revert pv i. induction lit as [|a lit IH]; intros pv i.
  - exists pv. rewrite app_nil. cbn [literal app String.length]. now rewrite Nat.add_0_r.
  - destruct (IH (Some a) (S i)) as [pv' E]. exists pv'.
    change (literal (String a lit) ++ re)%list with (One (Lit a) :: (literal lit ++ re))%list.
    change (String a lit +:+ s) with (String a (lit +:+ s)).
    cbn [run]. unfold eat. cbn [rest matches pos]. rewrite Ascii.eqb_refl, E.
    cbn [String.length]. now rewrite Nat.add_succ_r.
Qed.

Lemma run_literal_fails (lit : string) (re : regex) (s : string) (pv : option ascii)
    (i cs ce : nat) :
  Bytes.has_prefix lit s = false ->
  run (literal lit ++ re)%list (mkCursor pv s i) cs ce = None.
Proof.
  revert s pv i. induction lit as [|a lit IH]; intros s pv i H; [discriminate|].
  change (literal (String a lit) ++ re)%list with (One (Lit a) :: (literal lit ++ re))%list.
  cbn [run]. unfold eat. cbn [rest matches pos].
  destruct s as [|c s]; [reflexivity|]. cbn [Bytes.has_prefix] in H.
  destruct (Ascii.eqb a c); [|reflexivity]. now apply IH.
Qed.

(** [.+] takes all that is left of a line. *)
Lemma greedy_to_the_end (s : string) (pv : option ascii) (i cs ce : nat) :
  Bytes.contains_byte s "010" = false ->
  star_greedy AnyNotNL (run filename_close) pv s i cs ce =
    Some (mkFound (i + String.length s) cs (i + String.length s)).
Proof.
  revert pv i. induction s as [|c r IH]; intros pv i H; cbn [star_greedy].
  - cbn. now rewrite Nat.add_0_r.
  - cbn [Bytes.contains_byte] in H. apply orb_false_iff in H as [Hc Hr].
    cbn [matches]. rewrite Hc. cbn [negb]. rewrite IH by assumption.
    cbn [orelse String.length]. now rewrite Nat.add_succ_r.
Qed.

Lemma run_group (s : string) (pv : option ascii) (i cs ce : nat) :
  s <> EmptyString -> Bytes.contains_byte s "010" = false ->
  run filename_group (mkCursor pv s i) cs ce =
    Some (mkFound (i + String.length s) i (i + String.length s)).
Proof.
  intros Hs H. destruct s as [|c r]; [contradiction|].
  cbn [Bytes.contains_byte] in H. apply orb_false_iff in H as [Hc Hr].
  change (run filename_group (mkCursor pv (String c r) i) cs ce)
    with (eat AnyNotNL (star true AnyNotNL (run filename_close))
            (mkCursor pv (String c r) i) i ce).
  unfold eat, star. cbn [rest matches pos prev]. rewrite Hc. cbn [negb].
  rewrite greedy_to_the_end by assumption.
  cbn [String.length]. now rewrite Nat.add_succ_r.
Qed.

Lemma run_group_empty (pv : option ascii) (i cs ce : nat) :
  run filename_group (mkCursor pv EmptyString i) cs ce = None.
Proof. reflexivity. Qed.

(** What the pattern makes of the text after [filename=]. *)
Lemma run_tail (s : string) (pv : option ascii) (i cs ce : nat) :
  s <> EmptyString -> Bytes.contains_byte s "010" = false ->
  run filename_tail (mkCursor pv s i) cs ce =
    Some (mkFound (i + String.length s)
            (i + String.length s - String.length (without_opening_quote s))
            (i + String.length s)).
Proof.
  intros Hs H.
  change (run filename_tail (mkCursor pv s i) cs ce)
    with (orelse (eat (Lit Bytes.dquote) (run filename_group) (mkCursor pv s i) cs ce)
                 (run filename_group (mkCursor pv s i) cs ce)).
  rewrite (run_group s pv i cs ce Hs H).
  destruct s as [|q r]; [contradiction|].
  unfold eat. cbn [rest matches pos without_opening_quote].
  rewrite (Ascii.eqb_sym Bytes.dquote q).
  destruct (Ascii.eqb q Bytes.dquote).
  - destruct r as [|c r].
    + rewrite run_group_empty. cbn [orelse String.length]. f_equal. f_equal; lia.
    + cbn [Bytes.contains_byte] in H. apply orb_false_iff in H as [_ Hr].
      rewrite run_group by (try discriminate; assumption).
      cbn [orelse String.length]. f_equal. f_equal; lia.
  - cbn [orelse]. f_equal. f_equal. destruct r; cbn [String.length]; lia.
Qed.

(** The leftmost [filename=] decides, when something follows it. *)
Lemma search_filename (pre rest : string) (p : option ascii) (i : nat) :
  Bytes.contains "filename=" (pre +:+ "filename") = false ->
  rest <> EmptyString -> Bytes.contains_byte rest "010" = false ->
  search filename_pattern p (pre +:+ "filename=" +:+ rest) i =
    Some (mkFound (i + String.length pre + 9 + String.length rest)
            (i + String.length pre + 9 + String.length rest -
             String.length (without_opening_quote rest))
            (i + String.length pre + 9 + String.length rest)).
Proof.
  intros Hpre Hr Hnl. revert p i Hpre. induction pre as [|a pre IH]; intros p i Hpre.
  - change (EmptyString +:+ "filename=" +:+ rest) with (String "f" ("ilename=" +:+ rest)).
    cbn [search].
    destruct (run_literal "filename=" filename_tail rest p i 0 0) as [pv' E].
    change (run filename_pattern (mkCursor p (String "f" ("ilename=" +:+ rest)) i) 0%nat 0%nat)
      with (run (literal "filename=" ++ filename_tail)%list
              (mkCursor p ("filename=" +:+ rest) i) 0%nat 0%nat).
    rewrite E, run_tail by assumption. cbn [orelse String.length].
    rewrite Nat.add_0_r. reflexivity.
  - change (String a pre +:+ "filename=" +:+ rest)
      with (String a (pre +:+ "filename=" +:+ rest)).
    cbn [search].
    change (String a pre +:+ "filename") with (String a (pre +:+ "filename")) in Hpre.
    cbn [Bytes.contains] in Hpre. apply orb_false_iff in Hpre as [Hp Hpre].
    change (run filename_pattern ?cu 0%nat 0%nat)
      with (run (literal "filename=" ++ filename_tail)%list cu 0%nat 0%nat).
    rewrite run_literal_fails.
    + cbn [orelse]. rewrite IH by assumption. cbn [String.length].
      do 2 f_equal; lia.
    + replace (String a (pre +:+ "filename=" +:+ rest))
        with (String a (pre +:+ "filename") +:+ String "=" rest).
      * rewrite has_prefix_app; [assumption|].
        cbn [String.length]. rewrite length_append. cbn [String.length]. lia.
      * change (String a (pre +:+ "filename") +:+ String "=" rest)
          with (String a ((pre +:+ "filename") +:+ String "=" rest)).
        now rewrite append_assoc.
Qed.

Lemma search_no_filename (s : string) (p : option ascii) (i : nat) :
  Bytes.contains "filename=" s = false ->
  search filename_pattern p s i = None.
Proof.
  revert p i. induction s as [|c r IH]; intros p i H; cbn [search].
  - change (run filename_pattern ?cu 0%nat 0%nat)
      with (run (literal "filename=" ++ filename_tail)%list cu 0%nat 0%nat).
    now rewrite run_literal_fails.
  - cbn [Bytes.contains] in H. apply orb_false_iff in H as [Hp Hr].
    change (run filename_pattern ?cu 0%nat 0%nat)
      with (run (literal "filename=" ++ filename_tail)%list cu 0%nat 0%nat).
    rewrite run_literal_fails by assumption. cbn [orelse]. now apply IH.
Qed.

Lemma length_without_opening_quote (s : string) :
  (String.length (without_opening_quote s) <= String.length s)%nat.
Proof.
  destruct s as [|q [|c r]]; cbn; try lia. destruct (Ascii.eqb q Bytes.dquote); cbn; lia.
Qed.

Lemma substring_without_opening_quote (s : string) :
  substring (String.length s - String.length (without_opening_quote s))
            (String.length (without_opening_quote s)) s = without_opening_quote s.
Proof.
  destruct s as [|q [|c r]].
  - reflexivity.
  - reflexivity.
  - cbn [without_opening_quote]. destruct (Ascii.eqb q Bytes.dquote).
    + replace (String.length (String q (String c r)) - String.length (String c r))%nat
        with 1%nat by (cbn [String.length]; lia).
      exact (substring_all (String c r)).
    + rewrite Nat.sub_diag. apply substring_all.
Qed.

Lemma FindStringSubmatch1_filename (pre rest : string) :
  Bytes.contains "filename=" (pre +:+ "filename") = false ->
  rest <> EmptyString -> Bytes.contains_byte rest "010" = false ->
  FindStringSubmatch1 filename_pattern (pre +:+ "filename=" +:+ rest) =
    Some (without_opening_quote rest).
Proof.
  intros Hpre Hr Hnl. unfold FindStringSubmatch1.
  rewrite search_filename by assumption. cbn [cap_start cap_end]. f_equal.
  pose proof (length_without_opening_quote rest) as L.
  rewrite <- append_assoc.
  replace (0 + String.length pre + 9 + String.length rest -
           String.length (without_opening_quote rest))%nat
    with (String.length (pre +:+ "filename=") +
          (String.length rest - String.length (without_opening_quote rest)))%nat
    by (rewrite length_append; cbn [String.length]; lia).
  rewrite substring_skip.
  replace (0 + String.length pre + 9 + String.length rest -
           (String.length (pre +:+ "filename=") +
            (String.length rest - String.length (without_opening_quote rest))))%nat
    with (String.length (without_opening_quote rest))
    by (rewrite length_append; cbn [String.length]; lia).
  apply substring_without_opening_quote.
Qed.

Lemma FindStringSubmatch1_no_filename (s : string) :
  Bytes.contains "filename=" s = false ->
  FindStringSubmatch1 filename_pattern s = None.
Proof. intros H. unfold FindStringSubmatch1. now rewrite search_no_filename. Qed.

End FilenamePattern.

Lemma contains_filename_not_empty (pre rest : string) :
  pre +:+ "filename=" +:+ rest <> EmptyString.
Proof. destruct pre; discriminate. Qed.

(** X21: the file name taken from the response.  With [-O] and no [-o],
    for a [Content-Disposition] value in which something without a
    newline follows the first [filename=], the output file is named by
    all that follows, less one opening quote: a closing quote, and
    whatever parameters come after the name, are part of the file name. *)
Theorem X21_disposition_names_the_file (args : Arguments) (res : Response)
    (pre rest : string) :
  OutputFile args = None -> UseRemoteName args = true ->
  ContentDisposition res = pre +:+ "filename=" +:+ rest ->
  Bytes.contains "filename=" (pre +:+ "filename") = false ->
  rest <> EmptyString -> Bytes.contains_byte rest "010" = false ->
  OutputFile (resolveOutput args res) = Some (without_opening_quote rest).
Proof.
  intros Ho Hr Hd Hpre Hrest Hnl.
  apply (resolveOutput_disposition args res Ho Hr).
  - rewrite Hd. apply contains_filename_not_empty.
  - rewrite Hd. now apply FindStringSubmatch1_filename.
Qed.

(** A [Content-Disposition] value with the quoted file name [report.csv]
    after [attachment; filename=] names the file [report.csv] followed by
    the closing quote. *)
Lemma X21_disposition_witness :
  OutputFile (resolveOutput remote_name_flags quoted_response) =
    Some (without_opening_quote
            (String Bytes.dquote "report.csv" +:+ String Bytes.dquote EmptyString)).
Proof.
  apply (X21_disposition_names_the_file remote_name_flags quoted_response
           "attachment; "); try reflexivity.
  discriminate.
Defined.


(** ** The output file: no name, and the name taken from the URL *)

(** With no output stream, the first write of the loop fails. *)
Lemma copyLoop_nil_stream (args : Arguments) (body : list read_event)
    (st : copy_state) :
  stream st = None -> total st = 0 ->
  (MaxDownload args <> None -> 0 <= MaxDownloadBytes args <= max_int64) ->
  fatal (rerr (default eof_read (head body))) = None ->
  (length (chunk (default eof_read (head body))) <= buffer_len)%nat ->
  copyLoop args body st = Panicked (PanicErr ErrInvalid).
Proof.
  intros Hs Ht Hm Hf Hlen.
  assert (I : forall ev, fatal (rerr ev) = None -> (length (chunk ev) <= buffer_len)%nat ->
            iteration args ev st = Panicked (PanicErr ErrInvalid)).
  { intros ev Hfe Hle. unfold iteration. rewrite Hfe, Ht, Hs. unfold buffer_len in *.
    rewrite (wrap64_small (0 + _)) by (unfold min_int64, max_int64; lia).
    destruct (bool_decide (MaxDownload args <> None)) eqn:B; cbn [andb].
    - apply bool_decide_eq_true_1 in B. specialize (Hm B).
      destruct (Z.leb_spec (MaxDownloadBytes args) (0 + Z.of_nat (length (chunk ev)))).
      + rewrite Z.sub_0_r, wrap64_small by (unfold min_int64; lia).
        destruct (Z.ltb_spec (MaxDownloadBytes args) 0); [lia|].
        destruct (Z.ltb_spec (Z.of_nat 1024) (MaxDownloadBytes args)); [lia|].
        reflexivity.
      + destruct (Z.ltb_spec (Z.of_nat (length (chunk ev))) 0); [lia|].
        destruct (Z.ltb_spec (Z.of_nat 1024) (Z.of_nat (length (chunk ev)))); [lia|].
        reflexivity.
    - destruct (Z.ltb_spec (Z.of_nat (length (chunk ev))) 0); [lia|].
      destruct (Z.ltb_spec (Z.of_nat 1024) (Z.of_nat (length (chunk ev)))); [lia|].
      reflexivity. }
  destruct body as [|ev rest]; cbn [copyLoop head default] in *; now rewrite I.
Qed.

(** X22: a [Content-Disposition] without [filename=].  With [-O], no
    [-o] and a response whose [Content-Disposition] value is not empty and
    does not contain [filename=], no file name and no output stream are
    set, and the run panics at the first write with the error of a nil
    file, for every body whose first read does not fail and keeps to the
    buffer size: the name is never taken from the URL in this case. *)
Theorem X22_disposition_without_filename_panics (args : Arguments)
    (res : Response) (w : World) :
  OutputFile args = None -> UseRemoteName args = true -> OutputStream args = None ->
  ContentDisposition res <> EmptyString ->
  Bytes.contains "filename=" (ContentDisposition res) = false ->
  (MaxDownload args <> None -> 0 <= MaxDownloadBytes args <= max_int64) ->
  fatal (rerr (default eof_read (head (Body res)))) = None ->
  (length (chunk (default eof_read (head (Body res)))) <= buffer_len)%nat ->
  resolveOutput args res = args /\
  respond args res w = Panicked (PanicErr ErrInvalid).
Proof.
  intros Ho Hr Hs Hd Hc Hm Hf Hlen.
  assert (E : resolveOutput args res = args).
  { apply resolveOutput_no_match; auto. now apply FindStringSubmatch1_no_filename. }
  split; [exact E|]. unfold respond. rewrite E. unfold openOutput. rewrite Ho.
  cbn [mbind outcome_bind Go.bind].
  rewrite copyLoop_nil_stream; auto.
Qed.

(** [-O] and [Content-Disposition: inline] *)
Lemma X22_disposition_without_filename_witness :
  resolveOutput remote_name_flags inline_response = remote_name_flags /\
  respond remote_name_flags inline_response empty_world = Panicked (PanicErr ErrInvalid).
Proof.
  apply X22_disposition_without_filename_panics; try reflexivity.
  - discriminate.
  - intros H. exfalso. apply H. reflexivity.
  - vm_compute. lia.
Defined.

Section PathBase.

Import Path.

Lemma last_element_no_slash (s : string) :
  Bytes.contains_byte (last_element s) "/" = false.
Proof.
  induction s as [|c r IH]; [reflexivity|]. cbn [last_element].
  destruct (Bytes.contains_byte r "/") eqn:Hr; [exact IH|].
  destruct (Ascii.eqb c "/") eqn:Hc; [exact Hr|].
  cbn [Bytes.contains_byte]. now rewrite Hc, Hr.
Qed.

Lemma last_element_empty (s : string) :
  last_element s = EmptyString -> s = EmptyString \/ Bytes.last s = Some "/"%char.
Proof.
  induction s as [|c r IH]; [auto|]. cbn [last_element]. right.
  destruct (Bytes.contains_byte r "/") eqn:Hr.
  - destruct (IH H) as [->|Hl]; [discriminate Hr|].
    destruct r; [discriminate Hl|exact Hl].
  - destruct (Ascii.eqb_spec c "/") as [->|]; [|discriminate H].
    subst r. reflexivity.
Qed.

Lemma strip_slashes_last (s : string) :
  Bytes.last (strip_slashes s) <> Some "/"%char.
Proof.
  induction s as [|c r IH]; [discriminate|]. cbn [strip_slashes].
  destruct (strip_slashes r) as [|c' r'] eqn:E.
  - destruct (Ascii.eqb_spec c "/"); [discriminate|]. cbn. congruence.
  - exact IH.
Qed.

Lemma strip_slashes_empty (s : string) :
  strip_slashes s = EmptyString -> Bytes.contains "://" s = false.
Proof.
  induction s as [|c r IH]; [reflexivity|]. cbn [strip_slashes].
  destruct (strip_slashes r) eqn:E; [|discriminate].
  destruct (Ascii.eqb_spec c "/") as [->|]; [|discriminate].
  intros _. cbn [Bytes.contains Bytes.has_prefix Ascii.eqb Bool.eqb andb orb].
  now apply IH.
Qed.

Lemma strip_slashes_id (s : string) :
  Bytes.contains_byte s "/" = false -> strip_slashes s = s.
Proof.
  induction s as [|c r IH]; [reflexivity|]. cbn [Bytes.contains_byte strip_slashes].
  intros H. apply orb_false_iff in H as [Hc Hr]. rewrite (IH Hr).
  destruct r; [now rewrite Hc|reflexivity].
Qed.

Lemma strip_slashes_app (a b : string) :
  strip_slashes b <> EmptyString -> strip_slashes (a +:+ b) = a +:+ strip_slashes b.
Proof.
  intros Hb. induction a as [|c a IH]; [reflexivity|].
  rewrite !app_cons. cbn [strip_slashes]. rewrite IH.
  destruct (a +:+ strip_slashes b) eqn:E; [|reflexivity].
  destruct a; [rewrite app_nil in E; contradiction|discriminate E].
Qed.

Lemma contains_byte_app (a b : string) (c : ascii) :
  Bytes.contains_byte (a +:+ b) c = Bytes.contains_byte a c || Bytes.contains_byte b c.
Proof.
  induction a as [|x a IH]; [reflexivity|].
  rewrite app_cons. cbn [Bytes.contains_byte]. now rewrite IH, orb_assoc.
Qed.

Lemma last_element_app (dir name : string) :
  Bytes.contains_byte name "/" = false ->
  last_element (dir +:+ String "/" name) = name.
Proof.
  intros Hn. induction dir as [|c dir IH].
  - rewrite app_nil. cbn [last_element]. now rewrite Hn.
  - rewrite app_cons. cbn [last_element].
    rewrite contains_byte_app. cbn [Bytes.contains_byte Ascii.eqb Bool.eqb].
    rewrite orb_true_r. exact IH.
Qed.

(** [path.Base] returns a name: not empty, without a slash unless it is
    the root. *)
Lemma Base_is_a_name (p : string) :
  Base p <> EmptyString /\
  (Bytes.contains_byte (Base p) "/" = true -> Base p = "/").
Proof.
  unfold Base. destruct p as [|c r]; [split; [discriminate|intros H; discriminate H]|].
  pose proof (last_element_no_slash (strip_slashes (String c r))) as N.
  destruct (last_element (strip_slashes (String c r))) eqn:E.
  - split; [discriminate|reflexivity].
  - split; [discriminate|]. intros H. congruence.
Qed.

Lemma Base_of_url (url : string) :
  Bytes.contains "://" url = true ->
  Bytes.contains_byte (Base url) "/" = false.
Proof.
  intros H. unfold Base. destruct url as [|c r]; [discriminate H|].
  pose proof (last_element_no_slash (strip_slashes (String c r))) as N.
  destruct (last_element (strip_slashes (String c r))) eqn:E; [|exact N].
  apply last_element_empty in E as [E|E].
  - apply strip_slashes_empty in E. congruence.
  - now apply strip_slashes_last in E.
Qed.

Lemma Base_last_segment (dir name : string) :
  name <> EmptyString -> Bytes.contains_byte name "/" = false ->
  Base (dir +:+ String "/" name) = name.
Proof.
  intros Hn Hs. unfold Base.
  assert (S1 : strip_slashes (String "/" name) = String "/" name).
  { cbn [strip_slashes]. rewrite (strip_slashes_id name Hs).
    destruct name; [contradiction|reflexivity]. }
  rewrite strip_slashes_app by (rewrite S1; discriminate).
  rewrite S1, last_element_app by assumption.
  destruct (dir +:+ String "/" name) eqn:E;
    [destruct dir; discriminate E|].
  destruct name; [contradiction|reflexivity].
Qed.

End PathBase.

(** X23: the file name taken from the URL.  With [-O], no [-o] and no
    [Content-Disposition] header the output file is named [path.Base] of
    the URL.  That name is never empty; for a URL that contains [://], as
    every URL is once [parseFlags] has returned, it contains no slash, so
    the file is created in the working directory; and it is all that
    follows the last slash of the URL when something does (a query string
    included). *)
Theorem X23_remote_name_is_last_segment (args : Arguments) (res : Response) :
  OutputFile args = None -> UseRemoteName args = true ->
  ContentDisposition res = EmptyString ->
  OutputFile (resolveOutput args res) = Some (Path.Base (URL args)) /\
  Path.Base (URL args) <> EmptyString /\
  (Bytes.contains "://" (URL args) = true ->
   Bytes.contains_byte (Path.Base (URL args)) "/" = false) /\
  (forall dir name, URL args = dir +:+ String "/" name ->
     name <> EmptyString -> Bytes.contains_byte name "/" = false ->
     Path.Base (URL args) = name).
Proof.
  intros Ho Hr Hd. split; [now apply resolveOutput_no_header|].
  split; [apply Base_is_a_name|]. split; [apply Base_of_url|].
  intros dir name -> Hn Hs. now apply Base_last_segment.
Qed.

(** [-O http://example.com/files/a.txt] *)
Lemma X23_remote_name_witness :
  OutputFile (resolveOutput remote_name_flags short_response) =
    Some (Path.Base (URL remote_name_flags)) /\
  Path.Base (URL remote_name_flags) <> EmptyString /\
  (Bytes.contains "://" (URL remote_name_flags) = true ->
   Bytes.contains_byte (Path.Base (URL remote_name_flags)) "/" = false) /\
  (forall dir name, URL remote_name_flags = dir +:+ String "/" name ->
     name <> EmptyString -> Bytes.contains_byte name "/" = false ->
     Path.Base (URL remote_name_flags) = name).
Proof. apply X23_remote_name_is_last_segment; reflexivity. Defined.


(** ** Runs with [-o] *)

Section OutputFileRun.

Variables (args : Arguments) (res : Response) (w : World) (name : string).
Hypothesis output_file : OutputFile args = Some name.

Lemma resolveOutput_output_file : resolveOutput args res = args.
Proof. unfold resolveOutput. now rewrite output_file. Qed.

(** With [-o] the run ends with the body in the named file. *)
Lemma respond_to_output_file :
  MaxDownload args = None ->
  name ∉ denied w ->
  reader_ok (Body res) ->
  Forall (fun ev => fatal (rerr ev) = None) (Body res) ->
  exists args' w',
    respond args res w = Done (args', w') /\
    OutputFile args' = Some name /\
    files w' !! name =
      Some (delivered (Body res) ++
            drop (length (delivered (Body res))) (default [] (files w !! name)))%list /\
    (forall other, other <> name -> files w' !! other = files w !! other) /\
    stdout w' = stdout w.
Proof.
  intros no_limit Hden body_ok body_reads.
  unfold respond. rewrite resolveOutput_output_file.
  unfold openOutput. rewrite output_file. unfold OpenFile.
  destruct (decide (name ∈ denied w)); [contradiction|].
  cbn [must mbind outcome_bind Go.bind].
  set (a1 := set_OutputStream _ _). set (w1 := mkWorld _ _ _ _).
  destruct (copyLoop_unlimited a1 no_limit (Body res) (copy_init a1 w1)
              (Opened name 0) body_ok body_reads eq_refl) as (st' & cs & E & W & C).
  rewrite E. cbn [Go.bind]. eexists _, _. split; [reflexivity|].
  injection W as _ ->. cbn [copy_init world].
  destruct (file_write_all name 0 cs w1 (default [] (files w !! name)))
    as (_ & F & S); [apply lookup_insert_eq | lia |].
  split; [exact output_file|]. rewrite F, S.
  split; [now rewrite lookup_insert_eq, write_at_0, C|].
  split; [|reflexivity].
  intros other Hne. subst w1. cbn [files].
  now rewrite !lookup_insert_ne by congruence.
Qed.

(** With [-o] and a file that cannot be opened, the run panics before the
    body is read. *)
Lemma respond_output_denied :
  name ∈ denied w ->
  respond args res w = Panicked (PanicErr (ErrPermission name)).
Proof.
  intros Hden. unfold respond. rewrite resolveOutput_output_file.
  unfold openOutput. rewrite output_file. unfold OpenFile.
  destruct (decide (name ∈ denied w)); [reflexivity|contradiction].
Qed.

End OutputFileRun.

(** X24: a run with [-o].  With an output file given and no maximum
    download, whatever [-O] and the [Content-Disposition] header say: for
    every body that keeps to the buffer size and does not fail, when the
    file can be opened the run ends normally, the file holds the body
    followed by what it held before beyond the body's length, no other
    file changes and nothing goes to standard output; when the file
    cannot be opened the run panics with the error of [os.OpenFile]. *)
Theorem X24_output_file_run (args : Arguments) (res : Response) (w : World)
    (name : string) :
  OutputFile args = Some name ->
  MaxDownload args = None ->
  reader_ok (Body res) ->
  Forall (fun ev => fatal (rerr ev) = None) (Body res) ->
  (name ∉ denied w ->
   exists args' w',
     respond args res w = Done (args', w') /\
     OutputFile args' = Some name /\
     files w' !! name =
       Some (delivered (Body res) ++
             drop (length (delivered (Body res))) (default [] (files w !! name)))%list /\
     (forall other, other <> name -> files w' !! other = files w !! other) /\
     stdout w' = stdout w) /\
  (name ∈ denied w ->
   respond args res w = Panicked (PanicErr (ErrPermission name))).
Proof.
  intros Ho Hm Hok Hnf. split.
  - intros Hden. now apply respond_to_output_file.
  - intros Hden. now apply respond_output_denied.
Qed.

(** [-o out.txt] over a file that holds six bytes, with a body of two. *)
Lemma X24_output_file_run_witness :
  exists args' w',
    respond output_file_flags short_response existing_file_world = Done (args', w') /\
    OutputFile args' = Some "out.txt" /\
    files w' !! "out.txt" =
      Some (delivered (Body short_response) ++
            drop (length (delivered (Body short_response)))
                 (default [] (files existing_file_world !! "out.txt")))%list /\
    (forall other, other <> "out.txt" ->
       files w' !! other = files existing_file_world !! other) /\
    stdout w' = stdout existing_file_world.
Proof.
  apply (proj1 (X24_output_file_run output_file_flags short_response
                  existing_file_world "out.txt" eq_refl eq_refl
                  (proj1 (body_of_ok _ _)) (proj1 (proj2 (body_of_ok _ _))))).
  apply not_elem_of_empty.
Defined.

(** ** Headers the user spelled differently *)

Lemma header_specified_true (name key value : string) (m : gmap string string) :
  m !! key = Some value -> ToUpper key = name ->
  header_specified name (Some m) = true.
Proof.
  intros Hk Hn. destruct (header_specified name (Some m)) eqn:E; [reflexivity|].
  rewrite (header_specified_false name key m E Hn) in Hk. discriminate.
Qed.

(** X25: a content header given by the user in any spelling stops the
    inference.  When the user's headers have a key whose upper-case form
    is [CONTENT-TYPE] (or [CONTENT-LENGTH]), [parseFlags] sets no
    [Content-Type] (or [Content-Length]): the key with that exact spelling
    holds what the user gave for it, or nothing, whatever the body is. *)
Theorem X25_user_spelling_stops_inference (parsed : Arguments)
    (unused : list string) (err : option error) (w : World) (args : Arguments)
    (m : gmap string string) (key value : string) :
  parseFlags parsed unused err w = Done args ->
  Headers parsed = Some m -> m !! key = Some value ->
  exists m', Headers args = Some m' /\ m' !! key = Some value /\
    (ToUpper key = "CONTENT-TYPE" -> m' !! "Content-Type" = m !! "Content-Type") /\
    (ToUpper key = "CONTENT-LENGTH" -> m' !! "Content-Length" = m !! "Content-Length").
Proof.
  intros H Hm Hk.
  destruct (parseFlags_body _ _ _ _ _ H) as (a1 & a2 & D1 & L & D & M & _).
  destruct (Data a2) as [body|] eqn:D2.
  - destruct M as (m0 & Hm0 & Hm'). assert (m0 = m) as -> by congruence.
    exists (content_headers_of body m). split; [assumption|]. split; [|split].
    + eapply lookup_weaken; [exact Hk|apply content_headers_of_subseteq].
    + intros Hu. rewrite content_headers_of_type.
      now rewrite (header_specified_true _ _ _ _ Hk Hu).
    + intros Hu. rewrite content_headers_of_length.
      now rewrite (header_specified_true _ _ _ _ Hk Hu).
  - exists m. split; [congruence|]. auto.
Qed.

Lemma X25_user_spelling_witness :
  exists m', Headers lower_case_header_run = Some m' /\
    m' !! "content-type" = Some "text/plain" /\
    (ToUpper "content-type" = "CONTENT-TYPE" ->
     m' !! "Content-Type" = lower_case_header !! "Content-Type") /\
    (ToUpper "content-type" = "CONTENT-LENGTH" ->
     m' !! "Content-Length" = lower_case_header !! "Content-Length").
Proof.
  apply (X25_user_spelling_stops_inference lower_case_header_flags ["example.com"]
           None empty_world lower_case_header_run lower_case_header).
  - run_eq.
  - reflexivity.
  - reflexivity.
Defined.


(** ** Sizes: every input *)

Lemma last_some (s : string) :
  s <> EmptyString -> exists c, Bytes.last s = Some c.
Proof.
  induction s as [|c r IH]; intros H; [contradiction|].
  destruct r as [|c' r']; [now exists c|].
  destruct IH as [x Hx]; [discriminate|]. exists x. exact Hx.
Qed.

Lemma ParseInt_errors (s : string) :
  snd (Strconv.ParseInt s) = None \/ snd (Strconv.ParseInt s) = Some ErrSyntax \/
  snd (Strconv.ParseInt s) = Some ErrRange.
Proof.
  unfold Strconv.ParseInt. destruct s as [|c r]; [cbn; auto|].
  destruct (Ascii.eqb c "+"); [|destruct (Ascii.eqb c "-")];
    match goal with
    | |- context [Strconv.ParseUint ?x] => destruct (Strconv.ParseUint x) as [un [[]|]]
    end;
    repeat match goal with
    | |- context [if ?b then _ else _] => destruct b
    end; cbn; auto.
Qed.

(** X26: [parseSize] on every input.  It panics on the empty string and
    on no other; on every other string it returns, with no error or with
    the syntax or the range error of [strconv.ParseInt], and next to an
    error found before a multiplier letter the size is [-1]. *)
Theorem X26_parseSize_panics_only_on_empty (value : string) :
  (parseSize value = Panicked PanicIndex <-> value = EmptyString) /\
  (value <> EmptyString ->
   exists n e, parseSize value = Done (n, e) /\
     (e = None \/ e = Some ErrSyntax \/ e = Some ErrRange) /\
     (forall c, Bytes.last value = Some c ->
                Bytes.contains_byte "kKmMgG" c = true -> e <> None -> n = -1)).
Proof.
  assert (R : value <> EmptyString ->
              exists n e, parseSize value = Done (n, e) /\
                (e = None \/ e = Some ErrSyntax \/ e = Some ErrRange) /\
                (forall c, Bytes.last value = Some c ->
                           Bytes.contains_byte "kKmMgG" c = true -> e <> None -> n = -1)).
  { intros Hv. destruct (last_some value Hv) as [c Hc]. unfold parseSize. rewrite Hc.
    destruct (Bytes.contains_byte "kKmMgG" c) eqn:Hl.
    - pose proof (ParseInt_errors (Bytes.init value)) as E.
      destruct (Strconv.ParseInt (Bytes.init value)) as [n [e|]]; cbn [snd] in E.
      + exists (-1), (Some e). split; [reflexivity|]. split; [exact E|]. reflexivity.
      + eexists _, None. split; [reflexivity|]. split; [auto|].
        intros _ _ _ H. now destruct H.
    - pose proof (ParseInt_errors value) as E.
      destruct (Strconv.ParseInt value) as [n e]; cbn [snd] in E.
      exists n, e. split; [reflexivity|]. split; [exact E|].
      intros c' Hc' Hl'. congruence. }
  split; [|exact R]. split.
  - intros H. destruct value as [|c r]; [reflexivity|].
    destruct R as (n & e & E & _); [discriminate|]. congruence.
  - intros ->. reflexivity.
Qed.

(** X27: a lower-case letter is accepted and ignored.  For a non-empty
    digit string writing [v <= MaxInt64], with [k], [m] or [g] after it
    [parseSize] returns [v] itself, without error. *)
Theorem X27_lower_case_letter_is_ignored (ds : string) (c : ascii) :
  ds <> EmptyString -> all_digits ds = true -> decimal_value ds <= max_int64 ->
  In c ["k"; "m"; "g"]%char ->
  parseSize (ds +:+ String c EmptyString) = Done (decimal_value ds, None).
Proof.
  intros Hs Hd Hv Hc. apply parseSize_lower_case; [exact Hc|].
  destruct (ParseInt_digits ds Hs Hd) as (-> & _).
  destruct (Z.leb_spec (decimal_value ds) max_int64); [reflexivity|lia].
Qed.

(** [11k] is 11 bytes. *)
Lemma X27_lower_case_witness :
  parseSize ("11" +:+ String "k" EmptyString) = Done (decimal_value "11", None).
Proof.
  apply X27_lower_case_letter_is_ignored.
  - discriminate.
  - reflexivity.
  - vm_compute. discriminate.
  - simpl. auto.
Defined.

(** [abcK] *)
Lemma X26_parseSize_witness :
  exists n e, parseSize "abcK" = Done (n, e) /\
    (e = None \/ e = Some ErrSyntax \/ e = Some ErrRange) /\
    (forall c, Bytes.last "abcK" = Some c ->
               Bytes.contains_byte "kKmMgG" c = true -> e <> None -> n = -1).
Proof.
  apply (proj2 (X26_parseSize_panics_only_on_empty "abcK")). discriminate.
Defined.


(** ** Runs with [-O] and a file name in the response *)

Lemma resolveOutput_named (args : Arguments) (res : Response) (name : string) :
  OutputFile args = None -> UseRemoteName args = true ->
  ContentDisposition res <> EmptyString ->
  Regexp.FindStringSubmatch1 Regexp.filename_pattern (ContentDisposition res) = Some name ->
  resolveOutput args res = set_OutputFile (Some name) args.
Proof.
  intros Ho Hr Hd Hm. unfold resolveOutput. rewrite Ho, Hr, Hm.
  destruct (String.eqb_spec (ContentDisposition res) EmptyString); [contradiction|].
  reflexivity.
Qed.

(** X28: a run with [-O] and a file name in the response.  With [-O], no
    [-o], no maximum download and a [Content-Disposition] value in which a
    non-empty text without newline follows the first [filename=], for
    every body that keeps to the buffer size and does not fail, the run
    ends normally when the file can be opened: the file named by that
    text less one opening quote holds the body, followed by what it held
    before beyond the body's length, and nothing goes to standard
    output. *)
Theorem X28_disposition_run_writes_file (args : Arguments) (res : Response)
    (w : World) (pre rest : string) :
  OutputFile args = None -> UseRemoteName args = true -> MaxDownload args = None ->
  ContentDisposition res = pre +:+ "filename=" +:+ rest ->
  Bytes.contains "filename=" (pre +:+ "filename") = false ->
  rest <> EmptyString -> Bytes.contains_byte rest "010" = false ->
  without_opening_quote rest ∉ denied w ->
  reader_ok (Body res) ->
  Forall (fun ev => fatal (rerr ev) = None) (Body res) ->
  exists args' w',
    respond args res w = Done (args', w') /\
    OutputFile args' = Some (without_opening_quote rest) /\
    files w' !! without_opening_quote rest =
      Some (delivered (Body res) ++
            drop (length (delivered (Body res)))
                 (default [] (files w !! without_opening_quote rest)))%list /\
    stdout w' = stdout w.
Proof.
  intros Ho Hr Hm Hd Hpre Hrest Hnl Hden Hok Hnf.
  set (name := without_opening_quote rest) in *.
  assert (E : resolveOutput args res = set_OutputFile (Some name) args).
  { apply resolveOutput_named; auto.
    - rewrite Hd. apply contains_filename_not_empty.
    - rewrite Hd. now apply FindStringSubmatch1_filename. }
  assert (R : respond args res w = respond (set_OutputFile (Some name) args) res w).
  { unfold respond. rewrite E.
    now rewrite (resolveOutput_output_file (set_OutputFile (Some name) args) res name). }
  rewrite R.
  destruct (respond_to_output_file (set_OutputFile (Some name) args) res w name eq_refl
              Hm Hden Hok Hnf) as (args' & w' & H1 & H2 & H3 & _ & H5).
  exists args', w'. auto.
Qed.

Lemma X28_disposition_run_witness :
  exists args' w',
    respond remote_name_flags quoted_response empty_world = Done (args', w') /\
    OutputFile args' =
      Some (without_opening_quote
              (String Bytes.dquote "report.csv" +:+ String Bytes.dquote EmptyString)) /\
    files w' !! without_opening_quote
                  (String Bytes.dquote "report.csv" +:+ String Bytes.dquote EmptyString) =
      Some (delivered (Body quoted_response) ++
            drop (length (delivered (Body quoted_response)))
                 (default [] (files empty_world !!
                    without_opening_quote
                      (String Bytes.dquote "report.csv" +:+
                       String Bytes.dquote EmptyString))))%list /\
    stdout w' = stdout empty_world.
Proof.
  apply (X28_disposition_run_writes_file remote_name_flags quoted_response empty_world
           "attachment; "); try reflexivity.
  - discriminate.
  - apply not_elem_of_empty.
  - apply body_of_ok.
  - apply body_of_ok.
Defined.

(** ** Content type: bodies that begin with a number *)

(** X29: a body that begins with a number is sent as JSON.  Every body
    made of a digit from 1 to 9, any digits, and then a byte that does not
    go on with the number (not a digit, [.], [e] or [E]), whatever
    follows, gets [application/json]: the decoder reads the number and
    stops.  So form data whose first key begins with a number is not
    sent as form data. *)
Theorem X29_number_prefix_is_json (d : ascii) (ds rest : string) (c : ascii) :
  Bytes.between "1" "9" d = true -> all_digits ds = true ->
  Bytes.is_digit c = false -> c <> "."%char -> c <> "e"%char -> c <> "E"%char ->
  guessDataType (String d ds +:+ String c rest) = ("application/json", true).
Proof.
  intros H1 Hd Hc Hdot He HE. unfold guessDataType.
  now rewrite (decode_ok_number d ds rest c H1 Hd Hc Hdot He HE).
Qed.

(** [10=ten&20=twenty] *)
Lemma X29_number_prefix_witness :
  guessDataType (String "1" "0" +:+ String "=" "ten&20=twenty") =
    ("application/json", true).
Proof.
  apply X29_number_prefix_is_json; try reflexivity; discriminate.
Defined.
